(** * webot: the gateway session client and its HTTP boundary

    A shallow embedding of the TypeScript sources:
    - [services/websocket.ts]  (modules [WS] and [Gateway]);
    - [services/config.ts]     (modules [Config] and [ConfigStorage]);
    - [services/chat.ts] and the subscribers of [services/index.ts]
      (modules [Chat] and [ChatUI]);
    - [server-http-only.ts] and [moltbot-integration.ts] (modules [Http] and
      [HttpServers]).

    JavaScript values are modelled after [JSON.parse]; code that can throw
    runs in a small state-and-exception monad so that [try]/[catch] blocks
    and the mutations made before a throw are kept as the code has them. *)

From Stdlib Require Import PrimFloat.
From Stdlib Require Import Sorting.Sorted.
From stdpp Require Import gmap strings list pretty.

Set Warnings "-register-all".
Open Scope string_scope.

(** ** JavaScript values *)

Module JS.

(** What [JSON.parse] can return.  Numbers are IEEE doubles; an object is its
    list of own properties. *)
Inductive json : Type :=
| JNull
| JBool (b : bool)
| JNum (x : PrimFloat.float)
| JStr (s : string)
| JArr (items : list json)
| JObj (props : list (string * json)).

(** A JavaScript value read out of parsed data: [None] is [undefined]. *)
Abbreviation value := (option json).

Inductive exn : Type :=
| TypeError (msg : string)
| Error (msg : string)
| ErrorOf (message : json)        (* new Error(v) for a non-string v *)
| SyntaxError (msg : string).

Inductive outcome (A : Type) : Type :=
| Ret (a : A)
| Thrown (e : exn).
Arguments Ret {A} a.
Arguments Thrown {A} e.

(** Own property lookup. *)
Fixpoint assoc (k : string) (props : list (string * json)) : value :=
  match props with
  | [] => None
  | (k', v) :: rest => if String.eqb k k' then Some v else assoc k rest
  end.

(** ToBoolean. *)
Definition truthy_json (j : json) : bool :=
  match j with
  | JNull => false
  | JBool b => b
  | JNum x => negb (PrimFloat.eqb x PrimFloat.zero || PrimFloat.is_nan x)
  | JStr s => negb (String.eqb s "")
  | JArr _ => true
  | JObj _ => true
  end.

Definition truthy (v : value) : bool :=
  match v with
  | None => false
  | Some j => truthy_json j
  end.

(** [v.k] for the property names this program reads ("type", "event", "id",
    "ok", "payload", "gatewayUrl", "gatewayToken"): none of them is defined on
    a prototype, so only own properties of objects answer; reading a property
    of [null] throws. *)
Definition get_prop (v : json) (k : string) : outcome value :=
  match v with
  | JNull => Thrown (TypeError "Cannot read properties of null")
  | JObj props => Ret (assoc k props)
  | _ => Ret None
  end.

(** [typeof v === "object"]: true of objects, arrays and [null]. *)
Definition typeof_object (v : value) : bool :=
  match v with
  | Some JNull | Some (JArr _) | Some (JObj _) => true
  | _ => false
  end.

(** [v === s] for a string [s]. *)
Definition strict_eq_str (v : value) (s : string) : bool :=
  match v with
  | Some (JStr s') => String.eqb s' s
  | _ => false
  end.

(** Whether converting a value to a string (in a template literal) throws:
    an object that carries an own "toString" property (never callable after
    [JSON.parse]) has no usable conversion; an array joins its elements,
    skipping [null]. *)
Fixpoint to_string_throws (j : json) : bool :=
  match j with
  | JObj props => bool_decide (is_Some (assoc "toString" props))
  | JArr items =>
      (fix any (l : list json) : bool :=
         match l with
         | [] => false
         | x :: l' => to_string_throws x || any l'
         end) items
  | _ => false
  end.

(** [`${v || "N/A"}`] and [`${v}`]. *)
Definition template_or_default (v : value) : outcome unit :=
  match v with
  | Some j => if truthy_json j && to_string_throws j
              then Thrown (TypeError "Cannot convert object to primitive value")
              else Ret tt
  | None => Ret tt
  end.

Definition template (v : value) : outcome unit :=
  match v with
  | Some j => if to_string_throws j
              then Thrown (TypeError "Cannot convert object to primitive value")
              else Ret tt
  | None => Ret tt
  end.

(** *** State and exceptions *)

Definition M (S A : Type) : Type := S -> outcome A * S.

Definition ret {S A} (a : A) : M S A := fun s => (Ret a, s).
Definition throw {S A} (e : exn) : M S A := fun s => (Thrown e, s).
Definition bind {S A B} (m : M S A) (k : A -> M S B) : M S B :=
  fun s => match m s with
           | (Ret a, s') => k a s'
           | (Thrown e, s') => (Thrown e, s')
           end.
Definition try_catch {S A} (m : M S A) (h : exn -> M S A) : M S A :=
  fun s => match m s with
           | (Ret a, s') => (Ret a, s')
           | (Thrown e, s') => h e s'
           end.
Definition lift {S A} (o : outcome A) : M S A := fun s => (o, s).
Definition gets {S A} (f : S -> A) : M S A := fun s => (Ret (f s), s).
Definition modify {S} (f : S -> S) : M S unit := fun s => (Ret tt, f s).

End JS.

Import JS.

Notation "x <- m ;; k" := (bind m (fun x => k))
  (at level 100, m at next level, right associativity).
Notation "m ;;; k" := (bind m (fun _ => k))
  (at level 100, right associativity).

(** ** [WebConfigService] (services/config.ts) *)

Module Config.

(** The two private fields.  They are typed [string], but [loadFromServer]
    stores whatever truthy value the server sent, so they hold JSON values. *)
Record ConfigService : Type := {
  gatewayUrl : json;
  gatewayToken : json;
}.

(** The [Config] object handed back to callers. *)
Record ConfigDoc : Type := {
  doc_gatewayUrl : json;
  doc_gatewayToken : json;
}.

Definition new_ConfigService (initialUrl initialToken : option string) : ConfigService :=
  {| gatewayUrl := JStr (default "ws://127.0.0.1:18789" initialUrl);
     gatewayToken := JStr (default "" initialToken) |}.

Definition getGatewayUrl (c : ConfigService) : json := gatewayUrl c.
Definition getGatewayToken (c : ConfigService) : json := gatewayToken c.

Definition getConfig (c : ConfigService) : ConfigDoc :=
  {| doc_gatewayUrl := gatewayUrl c; doc_gatewayToken := gatewayToken c |}.

Definition set_gatewayUrl (v : json) (c : ConfigService) : ConfigService :=
  {| gatewayUrl := v; gatewayToken := gatewayToken c |}.
Definition set_gatewayToken (v : json) (c : ConfigService) : ConfigService :=
  {| gatewayUrl := gatewayUrl c; gatewayToken := v |}.

(** What [fetch("/api/config")] and then [res.json()] can do. *)
Inductive ResponseBody : Type :=
| BodyMalformed            (* res.json() rejects *)
| BodyJson (j : json).

Inductive FetchOutcome : Type :=
| FetchRejected (reason : string)                       (* network error *)
| FetchResponse (ok : bool) (status : nat) (statusText : string)
                (body : ResponseBody).

(** The [try] block of [loadFromServer]. *)
Definition loadFromServer_try (f : FetchOutcome) : M ConfigService ConfigDoc :=
  match f with
  | FetchRejected reason => throw (TypeError reason)
  | FetchResponse ok status statusText body =>
      if negb ok then throw (Error ("HTTP " ++ statusText)) else
      match body with
      | BodyMalformed => throw (SyntaxError "Unexpected token")
      | BodyJson config =>
          url <- lift (get_prop config "gatewayUrl") ;;
          (if truthy url
           then modify (set_gatewayUrl (default JNull url))
           else ret tt) ;;;
          token <- lift (get_prop config "gatewayToken") ;;
          (if truthy token
           then modify (set_gatewayToken (default JNull token))
           else ret tt) ;;;
          gets getConfig
      end
  end.

(** [loadFromServer]: the [catch] branch logs and returns the held fields. *)
Definition loadFromServer (f : FetchOutcome) : M ConfigService ConfigDoc :=
  try_catch (loadFromServer_try f) (fun _ => gets getConfig).

(** [updateConfig(config: Partial<Config>)]. *)
Definition updateConfig (url token : value) (c : ConfigService) : ConfigService :=
  let c1 := match url with Some u => set_gatewayUrl u c | None => c end in
  match token with Some t => set_gatewayToken t c1 | None => c1 end.

(** The fetch failed, answered with a non-OK status, or carried a body that
    is not JSON. *)
Definition fetch_failed (f : FetchOutcome) : bool :=
  match f with
  | FetchRejected _ => true
  | FetchResponse ok _ _ body =>
      negb ok || match body with BodyMalformed => true | BodyJson _ => false end
  end.

(** The value of field [k] in the server's document, when the fetch went
    through and the field is present and truthy. *)
Definition served_truthy (f : FetchOutcome) (k : string) : value :=
  match f with
  | FetchResponse true _ _ (BodyJson (JObj props)) =>
      match assoc k props with
      | Some j => if truthy_json j then Some j else None
      | None => None
      end
  | _ => None
  end.

End Config.

(** ** [WebChatService] (services/chat.ts) *)

Module Chat.

(** [ChatHistoryResponse] of services/types.ts.  The code guards every level
    it reads with [?.], so those levels may be absent. *)
Record ContentPart : Type := {
  part_type : string;
  part_text : string;
}.

Record MessageBody : Type := {
  role : string;
  content : option (list ContentPart);
  timestamp : float;
}.

Record HistoryEntry : Type := {
  entry_type : string;
  entry_id : string;
  entry_timestamp : string;
  message : option MessageBody;
}.

Record ChatHistoryResponse : Type := {
  sessionKey : string;
  sessionId : string;
  messages : option (list HistoryEntry);
}.

(** The children of [chatContainer]. *)
Inductive Node : Type :=
| MessageDiv (className roleText contentText : string)
| LoadingDiv.

Definition ChatContainer := list Node.

(** [s || d] on strings: the empty string is falsy. *)
Definition or_default (s d : string) : string :=
  if String.eqb s "" then d else s.

(** [parts.map((c) => c.text).join("")]. *)
Definition join_text (parts : list ContentPart) : string :=
  fold_right (fun c acc => part_text c ++ acc) "" parts.

(** [addMessage(role, content, scroll)]: appends one message element. *)
Definition addMessage (role content : string) (dom : ChatContainer) : ChatContainer :=
  (dom ++ [MessageDiv ("message " ++ role)
                      (if String.eqb role "user" then "You" else "Assistant")
                      content])%list.

Definition showLoading (dom : ChatContainer) : ChatContainer :=
  (dom ++ [LoadingDiv])%list.

(** The body of the [for] loop of [loadHistory]. *)
Definition replay_one (dom : ChatContainer) (msg : HistoryEntry) : ChatContainer :=
  let role := or_default (from_option role "" (message msg)) "unknown" in
  let content :=
    or_default (from_option join_text "" (message msg ≫= content)) "" in
  addMessage role content dom.

(** [history.messages.reverse()]: the order in which the loop visits the
    entries. *)
Definition replay_order (msgs : list HistoryEntry) : list HistoryEntry := rev msgs.

(** [loadHistory]: [history] is what [getChatHistory] resolved to ([None]
    for [null]). *)
Definition loadHistory (history : option ChatHistoryResponse)
    (dom : ChatContainer) : ChatContainer :=
  match history with
  | Some h =>
      match messages h with
      | Some msgs => fold_left replay_one (replay_order msgs) dom
      | None => dom
      end
  | None => dom
  end.

(** The element one history entry is rendered as. *)
Definition rendered (msg : HistoryEntry) : Node :=
  match replay_one [] msg with
  | n :: _ => n
  | [] => LoadingDiv
  end.

End Chat.

(** ** The HTTP handlers (server-http-only.ts, moltbot-integration.ts) *)

Module Http.

(** [s.slice(n)]. *)
Fixpoint slice_from (n : nat) (s : string) : string :=
  match n, s with
  | O, _ => s
  | S n', String _ s' => slice_from n' s'
  | S _, EmptyString => ""
  end.

(** [s.endsWith(suffix)]. *)
Definition ends_with (suffix s : string) : bool :=
  (String.length suffix <=? String.length s)%nat &&
  String.eqb (slice_from (String.length s - String.length suffix) s) suffix.

(** [s || d] on strings. *)
Definition or_else (s d : string) : string :=
  if String.eqb s "" then d else s.

(** The options object as the caller passes it, and the process environment
    the defaults are taken from. *)
Record RawOptions : Type := {
  opt_basePath : option string;
  opt_staticDir : option string;
  opt_gatewayUrl : option string;
  opt_gatewayToken : option string;
  opt_debug : option bool;
}.

Record Env : Type := {
  env_GATEWAY_TOKEN : option string;
  env_DEBUG : option string;
  module_dirname : string;
  process_cwd : string;
}.

Record Options : Type := {
  basePath : string;
  staticDir : string;
  gatewayUrl : string;
  gatewayToken : string;
  debug : bool;
}.

Record Request : Type := {
  req_url : option string;
  req_host : option string;
  req_method : string;
}.

(** Calls made on the [ServerResponse], in order. *)
Inductive ResOp : Type :=
| WriteHead (status : nat) (headers : list (string * string))
| End_ (body : string).

Definition Res := list ResOp.

(** What [statSync] and [readFileSync] find at a path. *)
Inductive FileEntry : Type :=
| NoEntry                          (* statSync throws *)
| NotAFile                         (* stat.isFile() is false *)
| RegularFile (content : option string).  (* None: readFileSync throws *)

Definition writeHead (status : nat) (headers : list (string * string)) : M Res unit :=
  modify (fun r => (r ++ [WriteHead status headers])%list).
Definition end_ (body : string) : M Res unit :=
  modify (fun r => (r ++ [End_ body])%list).

Definition mimeTypes (ext : string) : option string :=
  if String.eqb ext ".html" then Some "text/html"
  else if String.eqb ext ".js" then Some "application/javascript"
  else if String.eqb ext ".css" then Some "text/css"
  else if String.eqb ext ".json" then Some "application/json"
  else if String.eqb ext ".png" then Some "image/png"
  else if String.eqb ext ".jpg" then Some "image/jpeg"
  else if String.eqb ext ".svg" then Some "image/svg+xml"
  else None.

Section Node.

(** Library functions of the platform: [path.join], [path.extname],
    [new URL(input, base).pathname] (which throws on an invalid URL) and
    [JSON.stringify]. *)
Variable path_join : list string -> string.
Variable extname : string -> string.
Variable URL_pathname : string -> string -> outcome string.
Variable JSON_stringify : json -> string.

Definition resolve_http_options (env : Env) (o : RawOptions) : Options :=
  {| basePath := default "/webot" (opt_basePath o);
     staticDir := default (path_join [module_dirname env; ".."]) (opt_staticDir o);
     gatewayUrl := default "ws://localhost:18789/" (opt_gatewayUrl o);
     gatewayToken := default (or_else (default "" (env_GATEWAY_TOKEN env)) "")
                             (opt_gatewayToken o);
     debug := default (bool_decide (env_DEBUG env = Some "true")) (opt_debug o) |}.

Definition resolve_integration_options (env : Env) (o : RawOptions) : Options :=
  {| basePath := default "/webot" (opt_basePath o);
     staticDir := default (path_join [process_cwd env; "node_modules"; "webot"])
                          (opt_staticDir o);
     gatewayUrl := default "ws://localhost:18789/" (opt_gatewayUrl o);
     gatewayToken := default (or_else (default "" (env_GATEWAY_TOKEN env)) "")
                             (opt_gatewayToken o);
     debug := default (bool_decide (env_DEBUG env = Some "true")) (opt_debug o) |}.

(** [serveStaticFile]: any exception inside is caught and answered [false]. *)
Definition serveStaticFile (fs : string -> FileEntry) (filePath : string) : M Res bool :=
  try_catch
    (match fs filePath with
     | NoEntry => throw (Error "ENOENT")
     | NotAFile =>
         writeHead 404 [("Content-Type", "text/plain")] ;;;
         end_ "Not Found" ;;;
         ret true
     | RegularFile content =>
         let contentType :=
           default "application/octet-stream" (mimeTypes (extname filePath)) in
         match content with
         | None => throw (Error "EACCES")
         | Some text =>
             writeHead 200 [("Content-Type", contentType);
                            ("Cache-Control", "no-cache")] ;;;
             end_ text ;;;
             ret true
         end
     end)
    (fun _ => ret false).

(** The config document of [/api/config]. *)
Definition config_document (o : Options) : json :=
  JObj [("gatewayUrl", JStr (gatewayUrl o)); ("gatewayToken", JStr (gatewayToken o))].

Definition url_of (req : Request) : outcome string :=
  URL_pathname (or_else (default "" (req_url req)) "/")
               ("http://" ++ default "undefined" (req_host req)).

Definition file_path_for (o : Options) (relativePath : string) : string :=
  if String.eqb relativePath "/" || ends_with ".html" relativePath
  then path_join [staticDir o; "index.html"]
  else if String.prefix "/src/" relativePath
  then path_join [staticDir o; relativePath]
  else if String.prefix "/dist/" relativePath
  then path_join [staticDir o; relativePath]
  else path_join [staticDir o; relativePath].

(** The request handler returned by [createWebotHttpHandler]. *)
Definition webotHttpHandler (o : Options) (fs : string -> FileEntry)
    (req : Request) : M Res bool :=
  pathname <- lift (url_of req) ;;
  if negb (String.prefix (basePath o) pathname) then ret false else
  let relativePath :=
    or_else (slice_from (String.length (basePath o)) pathname) "/" in
  if String.eqb relativePath "/api/config" then
    writeHead 200 [("Content-Type", "application/json")] ;;;
    end_ (JSON_stringify (config_document o)) ;;;
    ret true
  else
    served <- serveStaticFile fs (file_path_for o relativePath) ;;
    if served : bool then ret true else
    served_index <- serveStaticFile fs (path_join [staticDir o; "index.html"]) ;;
    if served_index : bool then ret true else
    writeHead 404 [("Content-Type", "text/plain")] ;;;
    end_ "Not Found" ;;;
    ret true.

(** The request handler returned by [createWebotIntegrationHandler]: the
    same chain, with each static attempt inside its own [try]/[catch]. *)
Definition webotIntegrationHandler (o : Options) (fs : string -> FileEntry)
    (req : Request) : M Res bool :=
  pathname <- lift (url_of req) ;;
  if negb (String.prefix (basePath o) pathname) then ret false else
  let relativePath :=
    or_else (slice_from (String.length (basePath o)) pathname) "/" in
  if String.eqb relativePath "/api/config" then
    writeHead 200 [("Content-Type", "application/json")] ;;;
    end_ (JSON_stringify (config_document o)) ;;;
    ret true
  else
    served <- try_catch (serveStaticFile fs (file_path_for o relativePath))
                        (fun _ => ret false) ;;
    if served : bool then ret true else
    served_index <- try_catch (serveStaticFile fs (path_join [staticDir o; "index.html"]))
                              (fun _ => ret false) ;;
    if served_index : bool then ret true else
    writeHead 404 [("Content-Type", "text/plain")] ;;;
    end_ "Not Found" ;;;
    ret true.

Definition createWebotHttpHandler (env : Env) (options : RawOptions) :=
  webotHttpHandler (resolve_http_options env options).

Definition createWebotIntegrationHandler (env : Env) (options : RawOptions) :=
  webotIntegrationHandler (resolve_integration_options env options).

End Node.

End Http.

(** ** [WebSocketService] (services/websocket.ts) *)

Module WS.

Inductive ConnectionStatus : Type := Connected | Connecting | Disconnected.

Record ConnectionState : Type := {
  status : ConnectionStatus;
  lastError : option string;
  lastConnectedAt : option N;
  disconnectedAt : option N;
}.

Inductive ReadyState : Type := CONNECTING | OPEN | CLOSING | CLOSED.

Record RequestFrame : Type := {
  frame_id : string;
  frame_method : string;
  frame_params : value;
}.

(** The [handler] closure of one [sendWithResponse] call: its identity as an
    event listener, the frame and the [resolve] function it closes over. *)
Record Handler : Type := {
  h_id : nat;
  h_frame : RequestFrame;
  h_promise : nat;
}.

(** A [WebSocket] object.  Its [onopen]/[onmessage]/[onclose]/[onerror]
    properties are the closures installed by [connect]; [connect_promise] is
    the promise whose [resolve]/[reject] they close over. *)
Record Socket : Type := {
  readyState : ReadyState;
  connect_promise : nat;
  listeners : list Handler;
  sent : list RequestFrame;
}.

(** A subscriber, as far as the service sees it: on a given argument it
    returns or throws.  A call is recorded in [delivered] and has no other
    effect here: a subscriber that calls back into the service while it runs
    is outside this model. *)
Record Callback (A : Type) : Type := {
  cb_id : nat;
  cb_throws : A -> bool;
}.
Arguments cb_id {A} _.
Arguments cb_throws {A} _ _.

Inductive Delivery : Type :=
| OnConnect (cb : nat) (arg : unit)
| OnDisconnect (cb : nat) (reason : string)
| OnEvent (cb : nat) (frame : json)
| OnChatEvent (cb : nat) (payload : value).

(** An entry of the [pendingRequests] map: [resolve] and [reject] belong to
    one promise. *)
Record PendingRequest : Type := {
  pr_promise : nat;
  pr_timeout : nat;
}.

Inductive PromiseState : Type :=
| Pending
| Fulfilled (v : value)
| Rejected (e : exn).

Inductive TimerAction : Type :=
| Reconnect                        (* () => this.reconnect() *)
| RequestTimeout (h : Handler).    (* the timeout closure of sendWithResponse *)

Record Timer : Type := {
  t_id : nat;
  t_due : N;
  t_action : TimerAction;
}.

Inductive Level : Type := LOG | ERROR.

Record World : Type := {
  ws : option nat;   (* this.ws: a reference into [sockets] *)
  connected : bool;
  connectionState : ConnectionState;
  connectCallbacks : list (Callback unit);
  disconnectCallbacks : list (Callback string);
  eventCallbacks : list (Callback json);
  chatEventCallbacks : list (Callback value);
  pendingRequests : list (string * PendingRequest);
  configService : Config.ConfigService;
  now : N;   (* the clock read by [new Date()] and [setTimeout], in ms *)
  sockets : gmap nat Socket;   (* the WebSocket objects created so far *)
  promises : gmap nat PromiseState;   (* the promises created so far *)
  timers : list Timer;   (* pending [setTimeout] calls *)
  fresh : nat;   (* next unused object identity *)
  delivered : list Delivery;   (* subscriber invocations, in order *)
  console : list (Level * string);   (* logger output *)
}.

Definition set_ws (v : option nat) (w : World) : World :=
  {| ws := v; connected := connected w; connectionState := connectionState
     w; connectCallbacks := connectCallbacks w; disconnectCallbacks :=
     disconnectCallbacks w; eventCallbacks := eventCallbacks w;
     chatEventCallbacks := chatEventCallbacks w; pendingRequests :=
     pendingRequests w; configService := configService w; now := now w;
     sockets := sockets w; promises := promises w; timers := timers w; fresh
     := fresh w; delivered := delivered w; console := console w |}.
Definition set_connected (v : bool) (w : World) : World :=
  {| ws := ws w; connected := v; connectionState := connectionState w;
     connectCallbacks := connectCallbacks w; disconnectCallbacks :=
     disconnectCallbacks w; eventCallbacks := eventCallbacks w;
     chatEventCallbacks := chatEventCallbacks w; pendingRequests :=
     pendingRequests w; configService := configService w; now := now w;
     sockets := sockets w; promises := promises w; timers := timers w; fresh
     := fresh w; delivered := delivered w; console := console w |}.
Definition set_connectionState (v : ConnectionState) (w : World) : World :=
  {| ws := ws w; connected := connected w; connectionState := v;
     connectCallbacks := connectCallbacks w; disconnectCallbacks :=
     disconnectCallbacks w; eventCallbacks := eventCallbacks w;
     chatEventCallbacks := chatEventCallbacks w; pendingRequests :=
     pendingRequests w; configService := configService w; now := now w;
     sockets := sockets w; promises := promises w; timers := timers w; fresh
     := fresh w; delivered := delivered w; console := console w |}.
Definition set_connectCallbacks (v : list (Callback unit)) (w : World) : World :=
  {| ws := ws w; connected := connected w; connectionState :=
     connectionState w; connectCallbacks := v; disconnectCallbacks :=
     disconnectCallbacks w; eventCallbacks := eventCallbacks w;
     chatEventCallbacks := chatEventCallbacks w; pendingRequests :=
     pendingRequests w; configService := configService w; now := now w;
     sockets := sockets w; promises := promises w; timers := timers w; fresh
     := fresh w; delivered := delivered w; console := console w |}.
Definition set_disconnectCallbacks (v : list (Callback string)) (w : World) : World :=
  {| ws := ws w; connected := connected w; connectionState :=
     connectionState w; connectCallbacks := connectCallbacks w;
     disconnectCallbacks := v; eventCallbacks := eventCallbacks w;
     chatEventCallbacks := chatEventCallbacks w; pendingRequests :=
     pendingRequests w; configService := configService w; now := now w;
     sockets := sockets w; promises := promises w; timers := timers w; fresh
     := fresh w; delivered := delivered w; console := console w |}.
Definition set_eventCallbacks (v : list (Callback json)) (w : World) : World :=
  {| ws := ws w; connected := connected w; connectionState :=
     connectionState w; connectCallbacks := connectCallbacks w;
     disconnectCallbacks := disconnectCallbacks w; eventCallbacks := v;
     chatEventCallbacks := chatEventCallbacks w; pendingRequests :=
     pendingRequests w; configService := configService w; now := now w;
     sockets := sockets w; promises := promises w; timers := timers w; fresh
     := fresh w; delivered := delivered w; console := console w |}.
Definition set_chatEventCallbacks (v : list (Callback value)) (w : World) : World :=
  {| ws := ws w; connected := connected w; connectionState :=
     connectionState w; connectCallbacks := connectCallbacks w;
     disconnectCallbacks := disconnectCallbacks w; eventCallbacks :=
     eventCallbacks w; chatEventCallbacks := v; pendingRequests :=
     pendingRequests w; configService := configService w; now := now w;
     sockets := sockets w; promises := promises w; timers := timers w; fresh
     := fresh w; delivered := delivered w; console := console w |}.
Definition set_pendingRequests (v : list (string * PendingRequest)) (w : World) : World :=
  {| ws := ws w; connected := connected w; connectionState :=
     connectionState w; connectCallbacks := connectCallbacks w;
     disconnectCallbacks := disconnectCallbacks w; eventCallbacks :=
     eventCallbacks w; chatEventCallbacks := chatEventCallbacks w;
     pendingRequests := v; configService := configService w; now := now w;
     sockets := sockets w; promises := promises w; timers := timers w; fresh
     := fresh w; delivered := delivered w; console := console w |}.
Definition set_configService (v : Config.ConfigService) (w : World) : World :=
  {| ws := ws w; connected := connected w; connectionState :=
     connectionState w; connectCallbacks := connectCallbacks w;
     disconnectCallbacks := disconnectCallbacks w; eventCallbacks :=
     eventCallbacks w; chatEventCallbacks := chatEventCallbacks w;
     pendingRequests := pendingRequests w; configService := v; now := now w;
     sockets := sockets w; promises := promises w; timers := timers w; fresh
     := fresh w; delivered := delivered w; console := console w |}.
Definition set_now (v : N) (w : World) : World :=
  {| ws := ws w; connected := connected w; connectionState :=
     connectionState w; connectCallbacks := connectCallbacks w;
     disconnectCallbacks := disconnectCallbacks w; eventCallbacks :=
     eventCallbacks w; chatEventCallbacks := chatEventCallbacks w;
     pendingRequests := pendingRequests w; configService := configService w;
     now := v; sockets := sockets w; promises := promises w; timers :=
     timers w; fresh := fresh w; delivered := delivered w; console :=
     console w |}.
Definition set_sockets (v : gmap nat Socket) (w : World) : World :=
  {| ws := ws w; connected := connected w; connectionState :=
     connectionState w; connectCallbacks := connectCallbacks w;
     disconnectCallbacks := disconnectCallbacks w; eventCallbacks :=
     eventCallbacks w; chatEventCallbacks := chatEventCallbacks w;
     pendingRequests := pendingRequests w; configService := configService w;
     now := now w; sockets := v; promises := promises w; timers := timers w;
     fresh := fresh w; delivered := delivered w; console := console w |}.
Definition set_promises (v : gmap nat PromiseState) (w : World) : World :=
  {| ws := ws w; connected := connected w; connectionState :=
     connectionState w; connectCallbacks := connectCallbacks w;
     disconnectCallbacks := disconnectCallbacks w; eventCallbacks :=
     eventCallbacks w; chatEventCallbacks := chatEventCallbacks w;
     pendingRequests := pendingRequests w; configService := configService w;
     now := now w; sockets := sockets w; promises := v; timers := timers w;
     fresh := fresh w; delivered := delivered w; console := console w |}.
Definition set_timers (v : list Timer) (w : World) : World :=
  {| ws := ws w; connected := connected w; connectionState :=
     connectionState w; connectCallbacks := connectCallbacks w;
     disconnectCallbacks := disconnectCallbacks w; eventCallbacks :=
     eventCallbacks w; chatEventCallbacks := chatEventCallbacks w;
     pendingRequests := pendingRequests w; configService := configService w;
     now := now w; sockets := sockets w; promises := promises w; timers :=
     v; fresh := fresh w; delivered := delivered w; console := console w |}.
Definition set_fresh (v : nat) (w : World) : World :=
  {| ws := ws w; connected := connected w; connectionState :=
     connectionState w; connectCallbacks := connectCallbacks w;
     disconnectCallbacks := disconnectCallbacks w; eventCallbacks :=
     eventCallbacks w; chatEventCallbacks := chatEventCallbacks w;
     pendingRequests := pendingRequests w; configService := configService w;
     now := now w; sockets := sockets w; promises := promises w; timers :=
     timers w; fresh := v; delivered := delivered w; console := console w |}.
Definition set_delivered (v : list Delivery) (w : World) : World :=
  {| ws := ws w; connected := connected w; connectionState :=
     connectionState w; connectCallbacks := connectCallbacks w;
     disconnectCallbacks := disconnectCallbacks w; eventCallbacks :=
     eventCallbacks w; chatEventCallbacks := chatEventCallbacks w;
     pendingRequests := pendingRequests w; configService := configService w;
     now := now w; sockets := sockets w; promises := promises w; timers :=
     timers w; fresh := fresh w; delivered := v; console := console w |}.
Definition set_console (v : list (Level * string)) (w : World) : World :=
  {| ws := ws w; connected := connected w; connectionState :=
     connectionState w; connectCallbacks := connectCallbacks w;
     disconnectCallbacks := disconnectCallbacks w; eventCallbacks :=
     eventCallbacks w; chatEventCallbacks := chatEventCallbacks w;
     pendingRequests := pendingRequests w; configService := configService w;
     now := now w; sockets := sockets w; promises := promises w; timers :=
     timers w; fresh := fresh w; delivered := delivered w; console := v |}.

Definition with_status (st : ConnectionStatus) (c : ConnectionState) : ConnectionState :=
  {| status := st; lastError := lastError c;
     lastConnectedAt := lastConnectedAt c; disconnectedAt := disconnectedAt c |}.
Definition with_lastError (e : option string) (c : ConnectionState) : ConnectionState :=
  {| status := status c; lastError := e;
     lastConnectedAt := lastConnectedAt c; disconnectedAt := disconnectedAt c |}.
Definition with_lastConnectedAt (t : option N) (c : ConnectionState) : ConnectionState :=
  {| status := status c; lastError := lastError c;
     lastConnectedAt := t; disconnectedAt := disconnectedAt c |}.
Definition with_disconnectedAt (t : option N) (c : ConnectionState) : ConnectionState :=
  {| status := status c; lastError := lastError c;
     lastConnectedAt := lastConnectedAt c; disconnectedAt := t |}.

Definition with_readyState (r : ReadyState) (k : Socket) : Socket :=
  {| readyState := r; connect_promise := connect_promise k;
     listeners := listeners k; sent := sent k |}.
Definition with_listeners (l : list Handler) (k : Socket) : Socket :=
  {| readyState := readyState k; connect_promise := connect_promise k;
     listeners := l; sent := sent k |}.
Definition with_sent (l : list RequestFrame) (k : Socket) : Socket :=
  {| readyState := readyState k; connect_promise := connect_promise k;
     listeners := listeners k; sent := l |}.

(** *** Runtime primitives *)

Definition log (msg : string) : M World unit :=
  modify (fun w => set_console (console w ++ [(LOG, msg)])%list w).
Definition log_error (msg : string) : M World unit :=
  modify (fun w => set_console (console w ++ [(ERROR, msg)])%list w).

Definition new_id : M World nat :=
  fun w => (Ret (fresh w), set_fresh (S (fresh w)) w).

(** [new Promise(...)]. *)
Definition new_promise : M World nat :=
  p <- new_id ;;
  modify (fun w => set_promises (<[p := Pending]> (promises w)) w) ;;;
  ret p.

(** Calling [resolve] or [reject]: only a pending promise changes. *)
Definition settle (p : nat) (st : PromiseState) : M World unit :=
  modify (fun w => match promises w !! p with
                   | Some Pending => set_promises (<[p := st]> (promises w)) w
                   | _ => w
                   end).
Definition resolve (p : nat) (v : value) : M World unit := settle p (Fulfilled v).
Definition reject (p : nat) (e : exn) : M World unit := settle p (Rejected e).

Definition setTimeout (a : TimerAction) (delay : N) : M World nat :=
  t <- new_id ;;
  modify (fun w => set_timers
            (timers w ++ [{| t_id := t; t_due := (now w + delay)%N; t_action := a |}])%list w) ;;;
  ret t.

Definition clearTimeout (t : nat) : M World unit :=
  modify (fun w => set_timers (filter (fun x => t_id x ≠ t) (timers w)) w).

Definition update_socket (s : nat) (f : Socket -> Socket) : M World unit :=
  modify (fun w => set_sockets (alter f s (sockets w)) w).

Definition addEventListener (s : nat) (h : Handler) : M World unit :=
  update_socket s (fun k => with_listeners (listeners k ++ [h])%list k).

Definition removeEventListener (s : nat) (h : Handler) : M World unit :=
  update_socket s
    (fun k => with_listeners (filter (fun x => h_id x ≠ h_id h) (listeners k)) k).

(** [ws.send(JSON.stringify(frame))]. *)
Definition socket_send (s : nat) (frame : RequestFrame) : M World unit :=
  update_socket s (fun k => with_sent (sent k ++ [frame])%list k).

(** [ws.close()]: starts the closing handshake unless already closing. *)
Definition socket_close (s : nat) : M World unit :=
  update_socket s (fun k => match readyState k with
                            | CONNECTING | OPEN => with_readyState CLOSING k
                            | _ => k
                            end).

(** [this.ws?.readyState === WebSocket.OPEN], with the socket it holds for. *)
Definition open_socket (w : World) : option nat :=
  s ← ws w;
  k ← sockets w !! s;
  match readyState k with OPEN => Some s | _ => None end.

(** Calling one subscriber. *)
Definition invoke {A} (record : nat -> A -> Delivery) (a : A) (cb : Callback A)
    : M World unit :=
  modify (fun w => set_delivered (delivered w ++ [record (cb_id cb) a])%list w) ;;;
  if cb_throws cb a then throw (Error "subscriber failed") else ret tt.

(** [array.forEach(f)]: an exception leaves the loop. *)
Fixpoint forEach {A} (f : A -> M World unit) (l : list A) : M World unit :=
  match l with
  | [] => ret tt
  | x :: l' => f x ;;; forEach f l'
  end.

(** [v.k] where [v] may be [undefined]. *)
Definition get_of (v : value) (k : string) : outcome value :=
  match v with
  | None => Thrown (TypeError "Cannot read properties of undefined")
  | Some j => get_prop j k
  end.

(** *** The service *)

Definition updateStatus (st : ConnectionStatus) (error : option string) : M World unit :=
  modify (fun w => set_connectionState (with_status st (connectionState w)) w) ;;;
  (match error with
   | Some e =>
       if String.eqb e "" then ret tt
       else modify (fun w => set_connectionState
                               (with_lastError (Some e) (connectionState w)) w)
   | None => ret tt
   end) ;;;
  (match st with
   | Disconnected =>
       modify (fun w => set_connectionState
                          (with_disconnectedAt (Some (now w)) (connectionState w)) w)
   | _ => ret tt
   end) ;;;
  log "[Status]".

(** [pendingRequests.get(id)] and [.delete(id)]: the keys are strings. *)
Fixpoint pending_get (s : string) (m : list (string * PendingRequest))
    : option PendingRequest :=
  match m with
  | [] => None
  | (k, v) :: m' => if String.eqb k s then Some v else pending_get s m'
  end.

Definition lookup_pending (id : value) (m : list (string * PendingRequest))
    : option PendingRequest :=
  match id with
  | Some (JStr s) => pending_get s m
  | _ => None
  end.

Definition delete_pending (id : value) (m : list (string * PendingRequest))
    : list (string * PendingRequest) :=
  match id with
  | Some (JStr s) => filter (fun e => fst e ≠ s) m
  | _ => m
  end.

(** [new Error(response.error?.message || "Request failed")]. *)
Definition request_error (response : json) : outcome exn :=
  match get_prop response "error" with
  | Thrown e => Thrown e
  | Ret err =>
      let message :=
        match err with
        | None | Some JNull => None
        | Some e => match get_prop e "message" with Ret m => m | Thrown _ => None end
        end in
      match message with
      | Some (JStr s) => Ret (Error (if String.eqb s "" then "Request failed" else s))
      | Some j =>
          if truthy_json j
          then if to_string_throws j
               then Thrown (TypeError "Cannot convert object to primitive value")
               else Ret (ErrorOf j)
          else Ret (Error "Request failed")
      | None => Ret (Error "Request failed")
      end
  end.

Definition handleResponse (response : json) : M World unit :=
  id <- lift (get_prop response "id") ;;
  ok <- lift (get_prop response "ok") ;;
  log "[Response]" ;;;
  pending <- gets (fun w => lookup_pending id (pendingRequests w)) ;;
  (match pending with
   | Some pr =>
       clearTimeout (pr_timeout pr) ;;;
       (if truthy ok
        then payload <- lift (get_prop response "payload") ;;
             resolve (pr_promise pr) payload
        else e <- lift (request_error response) ;;
             reject (pr_promise pr) e) ;;;
       modify (fun w => set_pendingRequests (delete_pending id (pendingRequests w)) w)
   | None => ret tt
   end) ;;;
  payload <- lift (get_prop response "payload") ;;
  if truthy ok && truthy payload && typeof_object payload then
    ptype <- lift (get_of payload "type") ;;
    if strict_eq_str ptype "hello-ok" then
      modify (set_connected true) ;;;
      updateStatus Connected (Some "Connected") ;;;
      modify (fun w => set_connectionState
                         (with_lastConnectedAt (Some (now w)) (connectionState w)) w) ;;;
      cbs <- gets connectCallbacks ;;
      forEach (invoke OnConnect tt) cbs
    else ret tt
  else ret tt.

Definition handleChatEvent (payload : value) : M World unit :=
  sessionKey <- lift (get_of payload "sessionKey") ;;
  lift (template sessionKey) ;;;
  runId <- lift (get_of payload "runId") ;;
  lift (template runId) ;;;
  state <- lift (get_of payload "state") ;;
  lift (template state) ;;;
  log "[Chat Event]" ;;;
  cbs <- gets chatEventCallbacks ;;
  forEach (invoke OnChatEvent payload) cbs.

Definition handleEvent (event : json) : M World unit :=
  name <- lift (get_prop event "event") ;;
  seq <- lift (get_prop event "seq") ;;
  lift (template_or_default seq) ;;;
  log "[Event]" ;;;
  cbs <- gets eventCallbacks ;;
  forEach (invoke OnEvent event) cbs ;;;
  if strict_eq_str name "chat" then
    payload <- lift (get_prop event "payload") ;;
    handleChatEvent payload
  else ret tt.

Definition send (frame : RequestFrame) : M World unit :=
  target <- gets open_socket ;;
  match target with
  | Some s => socket_send s frame ;;; log "[WebSocket] Sent"
  | None => log_error "[WebSocket] Cannot send, not connected"
  end.

Section Runtime.

(** Platform behaviour the service depends on: the identifiers drawn by
    [crypto.randomUUID()] and which URLs [new WebSocket(url)] accepts (it
    throws on the others). *)
Variable randomUUID : nat -> string.
Variable ws_url_valid : json -> bool.

Definition connect_params (token : json) : json :=
  JObj [("minProtocol", JNum 3); ("maxProtocol", JNum 3);
        ("client", JObj [("id", JStr "webchat"); ("displayName", JStr "Webot");
                         ("version", JStr "1.0.0"); ("platform", JStr "web");
                         ("mode", JStr "webchat")]);
        ("auth", JObj (if truthy_json token then [("token", token)] else []));
        ("role", JStr "operator");
        ("scopes", JArr [JStr "operator.admin"])].

Definition sendConnect : M World unit :=
  token <- gets (fun w => Config.getGatewayToken (configService w)) ;;
  n <- new_id ;;
  send {| frame_id := randomUUID n; frame_method := "connect";
          frame_params := Some (connect_params token) |}.

(** [JSON.parse(event.data)]: the event carries the parsed text, [None] when
    it is not JSON. *)
Definition JSON_parse (data : option json) : outcome json :=
  match data with
  | Some j => Ret j
  | None => Thrown (SyntaxError "Unexpected token")
  end.

Definition handleMessage (data : option json) : M World unit :=
  try_catch
    (d <- lift (JSON_parse data) ;;
     ty <- lift (get_prop d "type") ;;
     lift (template ty) ;;;
     ev <- lift (get_prop d "event") ;;
     lift (template_or_default ev) ;;;
     id <- lift (get_prop d "id") ;;
     lift (template_or_default id) ;;;
     log "[WebSocket] Received" ;;;
     if strict_eq_str ty "event" && strict_eq_str ev "connect.challenge" then
       sendConnect
     else if strict_eq_str ty "res" then
       handleResponse d
     else if strict_eq_str ty "event" then
       handleEvent d
     else ret tt)
    (fun _ => log_error "[WebSocket] Parse error:").

(** [this.ws?.removeEventListener("message", handler)]. *)
Definition remove_from_current (h : Handler) : M World unit :=
  cur <- gets ws ;;
  match cur with
  | Some s => removeEventListener s h
  | None => ret tt
  end.

(** The [handler] closure of [sendWithResponse], run on a message event. *)
Definition response_handler (h : Handler) (data : option json) : M World unit :=
  try_catch
    (d <- lift (JSON_parse data) ;;
     ty <- lift (get_prop d "type") ;;
     if strict_eq_str ty "res" then
       id <- lift (get_prop d "id") ;;
       if strict_eq_str id (frame_id (h_frame h)) then
         ok <- lift (get_prop d "ok") ;;
         lift (template ok) ;;;
         log "[WebSocket] Received response" ;;;
         remove_from_current h ;;;
         payload <- lift (get_prop d "payload") ;;
         resolve (h_promise h) (if truthy ok then payload else Some JNull)
       else ret tt
     else ret tt)
    (fun _ => ret tt).

(** The timeout closure of [sendWithResponse]. *)
Definition request_timeout (h : Handler) : M World unit :=
  remove_from_current h ;;;
  log "[WebSocket] Request timeout" ;;;
  resolve (h_promise h) (Some JNull).

Definition sendWithResponse (frame : RequestFrame) : M World nat :=
  p <- new_promise ;;
  target <- gets open_socket ;;
  match target with
  | None =>
      log_error "[WebSocket] Cannot send, not connected" ;;;
      resolve p (Some JNull) ;;;
      ret p
  | Some s =>
      log "[WebSocket] Sending request" ;;;
      n <- new_id ;;
      let handler := {| h_id := n; h_frame := frame; h_promise := p |} in
      addEventListener s handler ;;;
      socket_send s frame ;;;
      setTimeout (RequestTimeout handler) 10000%N ;;;
      ret p
  end.

Definition getChatHistory (params : value) : M World nat :=
  n <- new_id ;;
  sendWithResponse {| frame_id := randomUUID n; frame_method := "chat.history";
                      frame_params := params |}.

(** [connect(url?)].  The returned promise is settled by [onopen] or
    [onerror], or at once when the socket cannot be created. *)
Definition connect (url : value) : M World nat :=
  p <- new_promise ;;
  try_catch
    (cfg <- gets configService ;;
     let gatewayUrl := if truthy url then default JNull url
                       else Config.getGatewayUrl cfg in
     updateStatus Connecting None ;;;
     lift (template (Some gatewayUrl)) ;;;
     log "Connecting to gateway" ;;;
     try_catch
       (if ws_url_valid gatewayUrl then
          s <- new_id ;;
          modify (fun w => set_sockets
                    (<[s := {| readyState := CONNECTING; connect_promise := p;
                               listeners := []; sent := [] |}]> (sockets w)) w) ;;;
          modify (set_ws (Some s))
        else throw (SyntaxError "The URL is invalid"))
       (fun err =>
          log_error "[WebSocket] Failed to create connection:" ;;;
          reject p err))
    (fun err => reject p err) ;;;
  ret p.

Definition disconnect : M World unit :=
  cur <- gets ws ;;
  (match cur with
   | Some s => socket_close s ;;; modify (set_ws None)
   | None => ret tt
   end) ;;;
  modify (set_connected false) ;;;
  updateStatus Disconnected (Some "Manually disconnected") ;;;
  reqs <- gets pendingRequests ;;
  forEach (fun e => clearTimeout (pr_timeout (snd e)) ;;;
                    reject (pr_promise (snd e)) (Error "Connection closed")) reqs ;;;
  modify (set_pendingRequests []).

(** [reconnect()]: its promise follows the one of [connect()]. *)
Definition reconnect : M World nat :=
  disconnect ;;;
  connect None.

(** *** Socket events *)

Definition onopen (s : nat) : M World unit :=
  k <- gets (fun w => sockets w !! s) ;;
  match k with
  | Some k =>
      log "[WebSocket] Connected, waiting for challenge..." ;;;
      resolve (connect_promise k) None
  | None => ret tt
  end.

Definition onclose (code : nat) (reason : string) : M World unit :=
  modify (set_connected false) ;;;
  updateStatus Disconnected (Some ("Disconnected (code: " ++ pretty code ++ ")")) ;;;
  log "[WebSocket] Closed" ;;;
  cbs <- gets disconnectCallbacks ;;
  forEach (invoke OnDisconnect reason) cbs ;;;
  log "[WebSocket] Reconnecting in 3 seconds..." ;;;
  setTimeout Reconnect 3000%N ;;;
  ret tt.

Definition onerror (s : nat) : M World unit :=
  k <- gets (fun w => sockets w !! s) ;;
  match k with
  | Some k =>
      log_error "[WebSocket] Error:" ;;;
      updateStatus Disconnected (Some "Connection error") ;;;
      reject (connect_promise k) (Error "error event")
  | None => ret tt
  end.

(** A message event on socket [s]: the [onmessage] property (installed
    first) and then every listener added by [sendWithResponse] that is still
    registered when its turn comes. *)
Definition onmessage (s : nat) (data : option json) : M World unit :=
  handleMessage data ;;;
  snapshot <- gets (fun w => from_option listeners [] (sockets w !! s)) ;;
  forEach (fun h =>
             still <- gets (fun w => bool_decide
                              (h_id h ∈ h_id <$> from_option listeners [] (sockets w !! s))) ;;
             if still : bool then response_handler h data else ret tt)
          snapshot.

Definition run_timer (a : TimerAction) : M World unit :=
  match a with
  | Reconnect => reconnect ;;; ret tt
  | RequestTimeout h => request_timeout h
  end.

(** *** The event loop *)

(** What can happen to the service: calls of [connect], [disconnect],
    [reconnect], [send], [sendWithResponse] and the four subscription
    methods, events of the sockets it created, and the passing of time.  The
    other public methods ([updateStatus], the gateway requests built on
    [send] and [sendWithResponse], and the accessors of the configuration and
    the session key) are not events of this loop. *)
Inductive Event : Type :=
| CallConnect (url : value)
| CallDisconnect
| CallReconnect
| CallSend (frame : RequestFrame)
| CallSendWithResponse (frame : RequestFrame)
| CallOnConnect (cb : Callback unit)
| CallOnDisconnect (cb : Callback string)
| CallOnEvent (cb : Callback json)
| CallOnChatEvent (cb : Callback value)
| SocketOpen (s : nat)
| SocketMessage (s : nat) (data : option json)
| SocketClose (s : nat) (code : nat) (reason : string)
| SocketError (s : nat)
| Advance (target : N).

(** An exception that leaves an event handler or a timer callback is
    reported by the runtime and the loop goes on. *)
Definition top_level {A} (m : M World A) : World -> World :=
  fun w => match m w with
           | (Ret _, w') => w'
           | (Thrown _, w') => set_console (console w' ++ [(ERROR, "Uncaught")])%list w'
           end.

(** The earliest timer due at or before [target] (the earlier call first on
    ties). *)
Fixpoint next_due (target : N) (l : list Timer) : option Timer :=
  match l with
  | [] => None
  | t :: l' =>
      match next_due target l' with
      | Some t' => if N.leb (t_due t) target && N.leb (t_due t) (t_due t')
                   then Some t else Some t'
      | None => if N.leb (t_due t) target then Some t else None
      end
  end.

Definition fire (t : Timer) : World -> World :=
  fun w =>
    let w1 := set_now (N.max (now w) (t_due t))
                (set_timers (filter (fun x => t_id x ≠ t_id t) (timers w)) w) in
    top_level (run_timer (t_action t)) w1.

(** Let the clock reach [target], firing the timers that come due on the
    way in the order they come due. *)
Fixpoint advance_loop (fuel : nat) (target : N) (w : World) : World :=
  match next_due target (timers w) with
  | None => set_now (N.max (now w) target) w
  | Some t =>
      match fuel with
      | O => w
      | S fuel' => advance_loop fuel' target (fire t w)
      end
  end.

Definition advance (target : N) (w : World) : World :=
  advance_loop (length (timers w)) target w.

(** The browser's side of a socket event: the ready state changes before
    the handler runs, and a socket delivers messages only while open and
    closes once. *)
Definition ready (s : nat) (w : World) : option ReadyState :=
  readyState <$> sockets w !! s.

Definition step (e : Event) (w : World) : World :=
  match e with
  | CallConnect url => top_level (connect url) w
  | CallDisconnect => top_level disconnect w
  | CallReconnect => top_level reconnect w
  | CallSend frame => top_level (send frame) w
  | CallSendWithResponse frame => top_level (sendWithResponse frame) w
  | CallOnConnect cb => set_connectCallbacks (connectCallbacks w ++ [cb])%list w
  | CallOnDisconnect cb => set_disconnectCallbacks (disconnectCallbacks w ++ [cb])%list w
  | CallOnEvent cb => set_eventCallbacks (eventCallbacks w ++ [cb])%list w
  | CallOnChatEvent cb => set_chatEventCallbacks (chatEventCallbacks w ++ [cb])%list w
  | SocketOpen s =>
      match ready s w with
      | Some CONNECTING =>
          top_level (update_socket s (with_readyState OPEN) ;;; onopen s) w
      | _ => w
      end
  | SocketMessage s data =>
      match ready s w with
      | Some OPEN => top_level (onmessage s data) w
      | _ => w
      end
  | SocketClose s code reason =>
      match ready s w with
      | Some CLOSED | None => w
      | Some _ =>
          top_level (update_socket s (with_readyState CLOSED) ;;; onclose code reason) w
      end
  | SocketError s =>
      match ready s w with
      | Some CLOSED | None => w
      | Some _ => top_level (onerror s) w
      end
  | Advance target => advance target w
  end.

Definition run (evs : list Event) (w : World) : World :=
  fold_left (fun w e => step e w) evs w.

(** [new WebSocketService(configService)]. *)
Definition new_WebSocketService (cfg : Config.ConfigService) : World :=
  {| ws := None; connected := false;
     connectionState := {| status := Disconnected; lastError := None;
                           lastConnectedAt := None; disconnectedAt := None |};
     connectCallbacks := []; disconnectCallbacks := []; eventCallbacks := [];
     chatEventCallbacks := []; pendingRequests := [];
     configService := cfg; now := 0%N; sockets := ∅; promises := ∅;
     timers := []; fresh := 0; delivered := []; console := [] |}.

Definition isConnected (w : World) : bool := connected w.
Definition getConnectionState (w : World) : ConnectionState := connectionState w.

End Runtime.

End WS.


(** ** Reasoning about service code *)

Module Logic.
Import WS.

(** [hoare P m Q E]: from a world satisfying [P], [m] ends in a world
    satisfying [Q a] when it returns [a] and [E] when it throws. *)
Definition hoare {A} (P : World -> Prop) (m : M World A)
    (Q : A -> World -> Prop) (E : World -> Prop) : Prop :=
  forall w, P w ->
    match m w with
    | (Ret a, w') => Q a w'
    | (Thrown _, w') => E w'
    end.

(** [m] keeps [P], however it ends. *)
Definition preserves {A} (P : World -> Prop) (m : M World A) : Prop :=
  hoare P m (fun _ => P) P.

(** The payload is an object whose [type] is "hello-ok". *)
Definition payload_is_hello_ok (payload : value) : bool :=
  match payload with
  | Some (JObj props) => strict_eq_str (assoc "type" props) "hello-ok"
  | _ => false
  end.

(** What [handleResponse] takes for a completed handshake: a truthy [ok] and
    a payload object whose [type] is "hello-ok". *)
Definition taken_for_hello (response : json) : bool :=
  match get_prop response "ok", get_prop response "payload" with
  | Ret ok, Ret payload => truthy ok && payload_is_hello_ok payload
  | _, _ => false
  end.

(** The connected flag and the status of the connection state. *)
Definition session_is (c : bool) (st : ConnectionStatus) (w : World) : Prop :=
  connected w = c /\ status (connectionState w) = st.

(** Received data that is a response frame taken for a completed handshake. *)
Definition hello_response (data : option json) : bool :=
  match data with
  | Some d =>
      match get_prop d "type" with
      | Ret ty => strict_eq_str ty "res" && taken_for_hello d
      | Thrown _ => false
      end
  | None => false
  end.

(** The session after [data] was received in a session that was [c], [st]:
    as it was, or connected by a handshake response. *)
Definition entered (data : option json) (c : bool) (st : ConnectionStatus) (w : World)
    : Prop :=
  session_is c st w \/ (hello_response data = true /\ session_is true Connected w).

(** The receive path knows the frame: its [type] is "res" or "event". *)
Definition recognized (data : option json) : bool :=
  match data with
  | Some d =>
      match get_prop d "type" with
      | Ret ty => strict_eq_str ty "res" || strict_eq_str ty "event"
      | Thrown _ => false
      end
  | None => false
  end.

(** An [EventFrame] and a [ChatEventPayload] of services/types.ts, as parsed
    data. *)
Definition event_frame (name : string) (seq : option float) (payload : value) : json :=
  JObj ([("type", JStr "event"); ("event", JStr name)] ++
        from_option (fun x => [("seq", JNum x)]) [] seq ++
        from_option (fun p => [("payload", p)]) [] payload)%list.

Definition chat_payload (runId sessionKey : string) (seq : float) (state : string)
    (more : list (string * json)) : json :=
  JObj ([("runId", JStr runId); ("sessionKey", JStr sessionKey);
         ("seq", JNum seq); ("state", JStr state)] ++ more)%list.

(** The calls up to and including the first one that throws. *)
Fixpoint until_throw (l : list (Delivery * bool)) : list Delivery :=
  match l with
  | [] => []
  | (d, true) :: _ => [d]
  | (d, false) :: l' => d :: until_throw l'
  end.

Definition any_throws (l : list (Delivery * bool)) : bool := existsb snd l.

(** Ordinary log lines: none of them is an error line. *)
Definition log_lines (lines : list (Level * string)) : Prop :=
  Forall (fun l => l.1 = LOG) lines.

Definition returns {A} (o : outcome A) : bool :=
  match o with
  | Ret _ => true
  | Thrown _ => false
  end.

(** The log lines written before any subscriber is called can be built: the
    template literals over [data.event], [data.id] and [event.seq] can be
    evaluated. *)
Definition announced (props : list (string * json)) : bool :=
  returns (template_or_default (assoc "event" props)) &&
  returns (template_or_default (assoc "id" props)) &&
  returns (template_or_default (assoc "seq" props)).

(** The log line of [handleChatEvent] can be built: the payload is neither
    [undefined] nor [null], and the template literals over its [sessionKey],
    [runId] and [state] can be evaluated. *)
Definition chat_readable (payload : value) : bool :=
  match get_of payload "sessionKey", get_of payload "runId", get_of payload "state" with
  | Ret k, Ret r, Ret s => returns (template k) && returns (template r) && returns (template s)
  | _, _, _ => false
  end.

Definition generic_targets (w : World) (frame : json) : list (Delivery * bool) :=
  map (fun cb => (OnEvent (cb_id cb) frame, cb_throws cb frame)) (eventCallbacks w).

Definition chat_targets (w : World) (payload : value) : list (Delivery * bool) :=
  map (fun cb => (OnChatEvent (cb_id cb) payload, cb_throws cb payload))
      (chatEventCallbacks w).

(** The subscriber calls the dispatch of the event frame [JObj props] would
    make if no subscriber threw, each with whether that subscriber throws:
    none when a log line before them cannot be built; else the generic
    subscribers and then, for a "chat" event with a readable payload, the chat
    subscribers. *)
Definition frame_targets (w : World) (props : list (string * json))
    : list (Delivery * bool) :=
  if announced props then
    (generic_targets w (JObj props) ++
     if strict_eq_str (assoc "event" props) "chat" &&
        chat_readable (assoc "payload" props)
     then chat_targets w (assoc "payload" props)
     else [])%list
  else [].

(** Something is thrown while the frame is dispatched: a log line cannot be
    built, or a subscriber that is called throws. *)
Definition dispatch_throws (w : World) (props : list (string * json)) : bool :=
  negb (announced props) ||
  any_throws (generic_targets w (JObj props)) ||
  (strict_eq_str (assoc "event" props) "chat" &&
   (negb (chat_readable (assoc "payload" props)) ||
    any_throws (chat_targets w (assoc "payload" props)))).

End Logic.

(** ** Invariants of the event loop *)

Module Invariants.
Import WS Logic.

Section Stable.

Variable randomUUID : nat -> string.
Variable ws_url_valid : json -> bool.

(** [P] is kept by every method of the service, by every handler the
    service installs, and by what the runtime itself does around them. *)
Record Stable (P : World -> Prop) : Prop := {
  st_connect : forall url, preserves P (connect ws_url_valid url);
  st_disconnect : preserves P disconnect;
  st_send : forall frame, preserves P (send frame);
  st_sendWithResponse : forall frame, preserves P (sendWithResponse frame);
  st_onConnect : forall cb w, P w -> P (set_connectCallbacks (connectCallbacks w ++ [cb]) w);
  st_onDisconnect :
    forall cb w, P w -> P (set_disconnectCallbacks (disconnectCallbacks w ++ [cb]) w);
  st_onEvent : forall cb w, P w -> P (set_eventCallbacks (eventCallbacks w ++ [cb]) w);
  st_onChatEvent :
    forall cb w, P w -> P (set_chatEventCallbacks (chatEventCallbacks w ++ [cb]) w);
  st_readyState : forall s st, preserves P (update_socket s (with_readyState st));
  st_onopen : forall s, preserves P (onopen s);
  st_onmessage : forall s data, preserves P (onmessage randomUUID s data);
  st_onclose : forall code reason, preserves P (onclose code reason);
  st_onerror : forall s, preserves P (onerror s);
  st_timeout : forall h, preserves P (request_timeout h);
  st_console : forall l w, P w -> P (set_console l w);
  st_clock : forall n w, P w -> P (set_now (N.max (now w) n) w);
  st_fired :
    forall t w, P w -> P (set_timers (filter (fun x => t_id x ≠ t) (timers w)) w);
}.

(** The worlds the service can be in: those a sequence of events leads to
    from a newly constructed service. *)
Definition reachable (w : World) : Prop :=
  exists cfg evs, w = run randomUUID ws_url_valid evs (new_WebSocketService cfg).

(** Nothing is registered in [pendingRequests]. *)
Definition no_pending (w : World) : Prop := pendingRequests w = [].

(** The subscriber lists begin with the given ones. *)
Definition subscribed (c1 : list (Callback unit)) (c2 : list (Callback string))
    (c3 : list (Callback json)) (c4 : list (Callback value)) (w : World) : Prop :=
  c1 `prefix_of` connectCallbacks w /\ c2 `prefix_of` disconnectCallbacks w /\
  c3 `prefix_of` eventCallbacks w /\ c4 `prefix_of` chatEventCallbacks w.

(** The connection state carries a last error. *)
Definition has_last_error (w : World) : Prop :=
  is_Some (lastError (connectionState w)).

(** Every promise was created by this service. *)
Definition promises_allocated (w : World) : Prop :=
  forall p, is_Some (promises w !! p) -> p < fresh w.

(** The flag and the status agree: status "connected" only with the flag. *)
Definition coherent (w : World) : Prop :=
  status (connectionState w) = Connected -> connected w = true.

Definition flagged (w : World) : Prop := connected w = true.

(** The request frame built by [sendConnect]. *)
Definition connect_frame (id : string) (token : json) : RequestFrame :=
  {| frame_id := id; frame_method := "connect";
     frame_params := Some (connect_params token) |}.

(** [url || this.configService.getGatewayUrl()]. *)
Definition chosen_url (url : value) (w : World) : json :=
  if truthy url then default JNull url else Config.getGatewayUrl (configService w).

(** The listener and the timeout that [sendWithResponse frame] creates when
    called in world [w] with an open socket. *)
Definition handler_of (frame : RequestFrame) (w : World) : Handler :=
  {| h_id := S (fresh w); h_frame := frame; h_promise := fresh w |}.
Definition timer_of (frame : RequestFrame) (w : World) : Timer :=
  {| t_id := S (S (fresh w)); t_due := (now w + 10000)%N;
     t_action := RequestTimeout (handler_of frame w) |}.

(** What [close()] does to a socket: one that is connecting or open starts
    closing. *)
Definition closing (k : Socket) : Socket :=
  match readyState k with
  | CONNECTING | OPEN => with_readyState CLOSING k
  | _ => k
  end.

(** Promise [p] exists and is in state [st]. *)
Definition settled_as (p : nat) (st : PromiseState) (w : World) : Prop :=
  p < fresh w /\ promises w !! p = Some st.

End Stable.

End Invariants.
(** ** Around the HTTP handlers: the fallback chain and the standalone
    server *)

Module HttpServers.
Import Http.

(** The part of the path after the base path, as both handlers compute it. *)
Definition relative_path (o : Options) (pathname : string) : string :=
  or_else (slice_from (String.length (basePath o)) pathname) "/".

(** The test that sends a request to index.html whatever file it names. *)
Definition is_page (relativePath : string) : bool :=
  String.eqb relativePath "/" || ends_with ".html" relativePath.

(** [statSync] or [readFileSync] throws at this path. *)
Definition unreadable (e : FileEntry) : bool :=
  match e with
  | NoEntry | RegularFile None => true
  | _ => false
  end.

Definition not_found : list ResOp :=
  [WriteHead 404 [("Content-Type", "text/plain")]; End_ "Not Found"].

Section Node.

Variable path_join : list string -> string.
Variable extname : string -> string.
Variable URL_pathname : string -> string -> outcome string.
Variable JSON_stringify : json -> string.

(** The response written for a regular file that can be read. *)
Definition file_response (path text : string) : list ResOp :=
  [WriteHead 200 [("Content-Type",
                   default "application/octet-stream" (mimeTypes (extname path)));
                  ("Cache-Control", "no-cache")];
   End_ text].

(** The request listener that [createStandaloneServer] hands to
    [createServer]. *)
Definition standalone_listener (env : Env) (options : RawOptions)
    (fs : string -> FileEntry) (req : Request) : M Res unit :=
  handled <- createWebotHttpHandler path_join extname URL_pathname JSON_stringify
               env options fs req ;;
  if handled : bool then ret tt else
  writeHead 404 [("Content-Type", "text/plain")] ;;;
  end_ "Not Found".

End Node.

End HttpServers.

(** ** [WebConfigService] and [localStorage] (services/config.ts) *)

Module ConfigStorage.
Import Config.

(** The page's [localStorage]: its items, and which calls it refuses (a
    full or disabled storage throws). *)
Record Storage : Type := {
  items : gmap string string;
  refuses_write : string -> string -> bool;
  refuses_read : string -> bool;
}.

Definition with_items (m : gmap string string) (st : Storage) : Storage :=
  {| items := m; refuses_write := refuses_write st; refuses_read := refuses_read st |}.

Definition url_key : string := "webot_gateway_url".
Definition token_key : string := "webot_gateway_token".

(** [v] as a condition, for what [getItem] returns: [null] and the empty
    string are falsy. *)
Definition truthy_item (v : option string) : bool :=
  match v with
  | Some s => negb (String.eqb s "")
  | None => false
  end.

Section Browser.

(** The conversion [setItem] applies to a value that is not a string. *)
Variable DOMString : json -> outcome string.

Definition setItem (k : string) (v : json) : M Storage unit :=
  text <- lift (match v with JStr s => Ret s | _ => DOMString v end) ;;
  refused <- gets (fun st => refuses_write st k text) ;;
  if refused : bool then throw (Error "QuotaExceededError")
  else modify (fun st => with_items (<[k := text]> (items st)) st).

(** The text [setItem] stores for the value [v]: a string as it is, any
    other value through the conversion. *)
Definition item_text (v : json) : outcome string :=
  match v with JStr s => Ret s | _ => DOMString v end.

Definition getItem (st : Storage) (k : string) : outcome (option string) :=
  if refuses_read st k then Thrown (Error "SecurityError") else Ret (items st !! k).

(** [saveToLocalStorage], for the service [c]; [window] says whether
    [typeof window] is defined. *)
Definition saveToLocalStorage (window : bool) (c : ConfigService) : M Storage unit :=
  if negb window then ret tt else
  try_catch
    (setItem url_key (gatewayUrl c) ;;;
     setItem token_key (gatewayToken c))
    (fun _ => ret tt).

(** [loadFromLocalStorage], reading the storage [st]: [None] is the [null]
    it returns. *)
Definition loadFromLocalStorage (window : bool) (st : Storage)
    : M ConfigService (option ConfigDoc) :=
  if negb window then ret None else
  try_catch
    (url <- lift (getItem st url_key) ;;
     token <- lift (getItem st token_key) ;;
     if negb (truthy_item url) && negb (truthy_item token) then ret None else
     (if truthy_item url
      then modify (set_gatewayUrl (JStr (default "" url)))
      else ret tt) ;;;
     (if truthy_item token
      then modify (set_gatewayToken (JStr (default "" token)))
      else ret tt) ;;;
     cfg <- gets getConfig ;;
     ret (Some cfg))
    (fun _ => ret None).

End Browser.

(** The later of two partial updates, field by field. *)
Definition later (a b : value) : value :=
  match a with
  | Some _ => a
  | None => b
  end.

(** The configuration held after [loadFromServer]. *)
Definition loaded (f : FetchOutcome) (c : ConfigService) : ConfigService :=
  snd (loadFromServer f c).

End ConfigStorage.

(** ** Following one [sendWithResponse] call to its deadline *)

Module Deadline.
Import WS Logic.

(** [data] is a response frame for the request with id [fid]. *)
Definition is_response_to (fid : string) (data : option json) : bool :=
  match data with
  | Some d =>
      match get_prop d "type", get_prop d "id" with
      | Ret ty, Ret id => strict_eq_str ty "res" && strict_eq_str id fid
      | _, _ => false
      end
  | None => false
  end.

(** The [ok] field of a frame is truthy. *)
Definition ok_flag (data : option json) : bool :=
  match data with
  | Some d => match get_prop d "ok" with Ret ok => truthy ok | Thrown _ => false end
  | None => false
  end.

(** [data.ok ? data.payload : null]. *)
Definition response_value (data : option json) : value :=
  match data with
  | Some (JObj props) =>
      if truthy (assoc "ok" props) then assoc "payload" props else Some JNull
  | _ => Some JNull
  end.

(** The template literal that logs [data.ok] can be evaluated. *)
Definition readable_ok (data : option json) : bool :=
  match data with
  | Some (JObj props) =>
      match template (assoc "ok" props) with
      | Ret _ => true
      | Thrown _ => false
      end
  | _ => false
  end.

(** The event is a message that is not a response to request [fid]. *)
Definition other_traffic (fid : string) (e : Event) : Prop :=
  match e with
  | SocketMessage _ data => is_response_to fid data = false
  | _ => False
  end.


(** The event delivers no successful response to request [fid]. *)
Definition not_fulfilled (fid : string) (e : Event) : Prop :=
  match e with
  | SocketMessage _ data => is_response_to fid data && ok_flag data = false
  | _ => True
  end.

(** A message event carries [allowed] data. *)
Definition permitted (allowed : option json -> Prop) (e : Event) : Prop :=
  match e with
  | SocketMessage _ data => allowed data
  | _ => True
  end.

(** Every identity held by a timer, a socket or a listener was drawn from
    the counter. *)
Definition timer_allocated (n : nat) (t : Timer) : Prop :=
  t_id t < n /\
  match t_action t with
  | RequestTimeout h' => h_promise h' < n
  | Reconnect => True
  end.

Definition handler_allocated (n : nat) (h' : Handler) : Prop :=
  h_promise h' < n /\ h_id h' < n.

Definition socket_allocated (n : nat) (k : Socket) : Prop :=
  connect_promise k < n /\ Forall (handler_allocated n) (listeners k).

Definition allocated (w : World) : Prop :=
  Forall (timer_allocated (fresh w)) (timers w) /\
  map_Forall (fun _ => socket_allocated (fresh w)) (sockets w).

(** The same, with the identities [qs] that a method holds in local
    variables. *)
Definition allocated_with (qs : list nat) (w : World) : Prop :=
  allocated w /\ Forall (fun q => q < fresh w) qs.

Section Request.

(** The call that is followed: its listener [h] (which holds the [resolve]
    function of the promise), its timeout [t0], and the results [V] it may
    be resolved with. *)
Variable h : Handler.
Variable t0 : Timer.
Variable V : value -> Prop.

(** A handler that resolves the promise of the call is the call's own. *)
Definition own (h' : Handler) : Prop := h_promise h' = h_promise h -> h' = h.

Definition action_ok (a : TimerAction) : Prop :=
  match a with
  | RequestTimeout h' => own h'
  | Reconnect => True
  end.

Definition timer_ok (t : Timer) : Prop :=
  (t_id t = t_id t0 -> t = t0) /\ action_ok (t_action t).

Definition socket_ok (k : Socket) : Prop :=
  connect_promise k ≠ h_promise h /\ Forall own (listeners k).

(** The promise is pending (with the timeout still scheduled, when [armed]),
    or fulfilled with one of the results. *)
Definition outcome_ok (armed : bool) (pm : gmap nat PromiseState) (tm : list Timer)
    : Prop :=
  (pm !! h_promise h = Some Pending /\ (armed = true -> t0 ∈ tm)) \/
  (exists v, pm !! h_promise h = Some (Fulfilled v) /\ V v).

(** A listener with the identity of the call's listener is that listener. *)
Definition own_id (h' : Handler) : Prop := h_id h' = h_id h -> h' = h.

(** The call's listener is in place on the open socket [s], which is the
    current one. *)
Definition listening (s : nat) (w : World) : Prop :=
  ws w = Some s /\
  (exists k, sockets w !! s = Some k /\ readyState k = OPEN /\ h ∈ listeners k) /\
  map_Forall (fun _ k => Forall own_id (listeners k)) (sockets w).

(** The call has been answered with [v]: its promise is fulfilled, its
    listener is gone from socket [s], its timeout is still scheduled. *)
Definition answered (s : nat) (v : value) (w : World) : Prop :=
  promises w !! h_promise h = Some (Fulfilled v) /\
  t0 ∈ timers w /\
  (forall k, sockets w !! s = Some k -> h ∉ listeners k).

Record tracked (armed : bool) (w : World) : Prop := {
  tr_pending : pendingRequests w = [];
  tr_fresh : h_promise h < fresh w /\ t_id t0 < fresh w;
  tr_timers : Forall timer_ok (timers w);
  tr_sockets : map_Forall (fun _ => socket_ok) (sockets w);
  tr_outcome : outcome_ok armed (promises w) (timers w);
}.

End Request.

(** No timer is due at or before [target]. *)
Definition none_due (target : N) (l : list Timer) : Prop :=
  Forall (fun t => (target < t_due t)%N) l.

End Deadline.

(** ** Gateway requests, the chat page and the chat-event subscriber
    (services/websocket.ts, services/chat.ts, services/index.ts) *)

Module Gateway.
Import WS.

Section Runtime.

Variable randomUUID : nat -> string.

(** [connectToGateway], up to its [await]: the frame it built and the
    promise it waits for. *)
Definition connectToGateway (params : value) : M World (RequestFrame * nat) :=
  n <- new_id ;;
  let frame := {| frame_id := randomUUID n; frame_method := "connect";
                  frame_params := params |} in
  send frame ;;;
  p <- sendWithResponse frame ;;
  ret (frame, p).

(** [sendChatMessage], up to its [await]. *)
Definition sendChatMessage (params : value) : M World (RequestFrame * nat) :=
  n <- new_id ;;
  let frame := {| frame_id := randomUUID n; frame_method := "chat.send";
                  frame_params := params |} in
  send frame ;;;
  p <- sendWithResponse frame ;;
  ret (frame, p).

End Runtime.

(** What a call on an open socket leaves behind: the frames put on the
    wire, one listener and one pending promise. *)
Definition wired (s : nat) (k : Socket) (frames : list RequestFrame) (hd : Handler)
    (w w' : World) : Prop :=
  sockets w' !! s =
    Some (with_sent (sent k ++ frames) (with_listeners (listeners k ++ [hd]) k)) /\
  promises w' !! h_promise hd = Some Pending /\
  timers w' = (timers w ++ [{| t_id := S (h_id hd); t_due := (now w + 10000)%N;
                               t_action := RequestTimeout hd |}])%list.

End Gateway.

Module ChatUI.
Import WS Chat.

(** The ASCII white space that separates the tokens of a [class]
    attribute. *)
Definition is_space (c : Ascii.ascii) : bool :=
  let n := Ascii.nat_of_ascii c in
  Nat.eqb n 32 || Nat.eqb n 9 || Nat.eqb n 10 || Nat.eqb n 12 || Nat.eqb n 13.

Fixpoint class_tokens (cur : string) (s : string) : list string :=
  match s with
  | EmptyString => if String.eqb cur "" then [] else [cur]
  | String c s' =>
      if is_space c
      then if String.eqb cur "" then class_tokens "" s' else cur :: class_tokens "" s'
      else class_tokens (cur ++ String c "") s'
  end.

Definition className (n : Node) : string :=
  match n with
  | MessageDiv cn _ _ => cn
  | LoadingDiv => "loading message assistant"
  end.

(** The element matches the selector [.loading]. *)
Definition is_loading (n : Node) : bool :=
  existsb (String.eqb "loading") (class_tokens "" (className n)).

Fixpoint remove_first {A} (f : A -> bool) (l : list A) : list A :=
  match l with
  | [] => []
  | x :: l' => if f x then l' else x :: remove_first f l'
  end.

(** [hideLoading]: [document.querySelector(".loading")?.remove()].  The
    elements of class [loading] are looked for among the children of the
    chat container (the page is taken to have none elsewhere; the children
    of a message or of the indicator carry the classes [role], [content] and
    [spinner]). *)
Definition hideLoading (dom : ChatContainer) : ChatContainer :=
  remove_first is_loading dom.

(** [ChatEventPayload] of services/types.ts, as the subscriber of index.ts
    reads it. *)
Record ChatEvent : Type := {
  ev_runId : string;
  ev_sessionKey : string;
  ev_state : string;
  ev_message : option MessageBody;
  ev_errorMessage : option string;
}.

(** The subscriber that [WebotService.setupEventHandlers] registers with
    [onChatEvent]. *)
Definition on_chat_event (payload : ChatEvent) : M ChatContainer unit :=
  if String.eqb (ev_state payload) "final" &&
     bool_decide (is_Some (ev_message payload)) then
    match ev_message payload ≫= content with
    | None => throw (TypeError "Cannot read properties of undefined (reading 'map')")
    | Some parts =>
        modify (addMessage "assistant" (join_text parts)) ;;;
        modify hideLoading
    end
  else if String.eqb (ev_state payload) "error" &&
          negb (String.eqb (default "" (ev_errorMessage payload)) "") then
    modify hideLoading ;;;
    modify (addMessage "assistant" ("Error: " ++ default "" (ev_errorMessage payload)))
  else ret tt.

(** The number of loading indicators shown. *)
Definition indicators (dom : ChatContainer) : nat :=
  length (filter (fun n => is_loading n = true) dom).

(** The page as [WebChatService.sendMessage] sees it: the session service,
    the children of the chat container, and the text area. *)
Record Page : Type := {
  service : World;
  chatContainer : ChatContainer;
  input_value : string;
  input_height : string;
}.

Definition set_service (w : World) (pg : Page) : Page :=
  {| service := w; chatContainer := chatContainer pg;
     input_value := input_value pg; input_height := input_height pg |}.
Definition set_chatContainer (dom : ChatContainer) (pg : Page) : Page :=
  {| service := service pg; chatContainer := dom;
     input_value := input_value pg; input_height := input_height pg |}.
Definition set_input_value (v : string) (pg : Page) : Page :=
  {| service := service pg; chatContainer := chatContainer pg;
     input_value := v; input_height := input_height pg |}.
Definition set_input_height (v : string) (pg : Page) : Page :=
  {| service := service pg; chatContainer := chatContainer pg;
     input_value := input_value pg; input_height := v |}.

(** A method of the session service, called from the page. *)
Definition in_service {A} (m : M World A) : M Page A :=
  fun pg => let (o, w') := m (service pg) in (o, set_service w' pg).

Definition on_dom (f : ChatContainer -> ChatContainer) : M Page unit :=
  modify (fun pg => set_chatContainer (f (chatContainer pg)) pg).

(** [wsService.getConnectionState().status === "connected"]. *)
Definition status_connected (w : World) : bool :=
  match status (getConnectionState w) with
  | Connected => true
  | _ => false
  end.

Section Browser.

(** Platform functions: [crypto.randomUUID], [String.prototype.trim] and
    the conversion of a thrown non-string message to text. *)
Variable randomUUID : nat -> string.
Variable trim : string -> string.
Variable ToString : json -> string.

(** [err instanceof Error ? err.message : 'Unknown error']. *)
Definition error_text (err : exn) : string :=
  match err with
  | TypeError msg | Error msg | SyntaxError msg => msg
  | ErrorOf j => ToString j
  end.

Definition chat_params (sessionKey content key : string) : value :=
  Some (JObj [("sessionKey", JStr sessionKey); ("message", JStr content);
              ("idempotencyKey", JStr key)]).

(** [sendMessage], up to its [await]; [sessionKey] is what
    [wsService.getSessionKey()] returns. *)
Definition sendMessage (sessionKey : string) : M Page unit :=
  content <- gets (fun pg => trim (input_value pg)) ;;
  connected <- gets (fun pg => status_connected (service pg)) ;;
  if String.eqb content "" || negb connected
  then in_service (log "[Chat] Cannot send")
  else
    in_service (log "[Chat] Sending message") ;;;
    modify (set_input_value "") ;;;
    modify (set_input_height "auto") ;;;
    on_dom (addMessage "user" content) ;;;
    on_dom showLoading ;;;
    try_catch
      (key <- in_service new_id ;;
       in_service (Gateway.sendChatMessage randomUUID
                     (chat_params sessionKey content (randomUUID key))) ;;;
       ret tt)
      (fun err =>
         in_service (log_error "[Chat] Failed to send message:") ;;;
         on_dom hideLoading ;;;
         on_dom (addMessage "assistant" ("Error: " ++ error_text err))).

End Browser.

End ChatUI.

(** * Concrete inputs used by the examples below *)

Module Fixtures.

Import Chat.

Definition entry (id : string) (r : string) (text : string) (ts : float) : HistoryEntry :=
  {| entry_type := "message"; entry_id := id; entry_timestamp := "";
     message := Some {| role := r;
                        content := Some [{| part_type := "text"; part_text := text |}];
                        timestamp := ts |} |}.

Definition at_least_as_recent (a b : HistoryEntry) : Prop :=
  PrimFloat.leb (from_option timestamp 0%float (message b))
                (from_option timestamp 0%float (message a)) = true.

(** A stand-in platform for the HTTP handlers: paths joined with "/", no
    extension detection, request targets that are already path names, and a
    serialiser for flat objects of strings. *)
Definition join_with_slash (parts : list string) : string := String.concat "/" parts.
Definition no_extname (path : string) : string := "".
Definition pathname_of_target (input base : string) : outcome string := Ret input.

(** The same, for a platform that refuses the target "//" as [new URL]
    does (it names no host). *)
Definition pathname_or_invalid (input base : string) : outcome string :=
  if String.eqb input "//" then Thrown (TypeError "Invalid URL") else Ret input.

Definition quote (s : string) : string :=
  String (Ascii.ascii_of_nat 34) (s ++ String (Ascii.ascii_of_nat 34) "").

Definition stringify_flat (j : json) : string :=
  match j with
  | JObj props =>
      "{" ++ String.concat ","
               (map (fun kv => quote (fst kv) ++ ":" ++
                               match snd kv with JStr s => quote s | _ => "null" end)
                    props) ++ "}"
  | _ => "null"
  end.

Definition webot_options : Http.Options :=
  {| Http.basePath := "/webot"; Http.staticDir := "/srv/webot";
     Http.gatewayUrl := "ws://localhost:18789/"; Http.gatewayToken := "test-token";
     Http.debug := false |}.


Definition get_request (url : string) : Http.Request :=
  {| Http.req_url := Some url; Http.req_host := Some "localhost:8080";
     Http.req_method := "GET" |}.

(** A stand-in platform for the session: every draw of [randomUUID] gives
    the same text, and every URL is accepted by [new WebSocket]. *)
Definition uuid (n : nat) : string := "0b7e6f1c-5a3d-4a7e-9b60-2f1d8c4e9a11".
Definition any_url (url : json) : bool := true.

Definition fresh_service : WS.World :=
  WS.new_WebSocketService (Config.new_ConfigService None None).

Definition hello_frame : json :=
  JObj [("type", JStr "res"); ("id", JStr "c1"); ("ok", JBool true);
        ("payload", JObj [("type", JStr "hello-ok"); ("protocol", JNum 3)])].

(** A response whose [ok] is not a boolean: the string "no". *)
Definition lax_hello_frame : json :=
  JObj [("type", JStr "res"); ("id", JStr "c1"); ("ok", JStr "no");
        ("payload", JObj [("type", JStr "hello-ok"); ("protocol", JNum 3)])].

Definition ack_frame : json :=
  JObj [("type", JStr "res"); ("id", JStr "r0"); ("ok", JBool true);
        ("payload", JObj [("type", JStr "ack")])].

Definition ping_frame : json :=
  JObj [("type", JStr "ping"); ("id", JStr "x")].

Definition failing_subscriber {A} (id : nat) : WS.Callback A :=
  {| WS.cb_id := id; WS.cb_throws := fun _ => true |}.
Definition quiet_subscriber {A} (id : nat) : WS.Callback A :=
  {| WS.cb_id := id; WS.cb_throws := fun _ => false |}.

Definition chat_final : json :=
  Logic.event_frame "chat" (Some 7%float)
    (Some (Logic.chat_payload "run-1" "s1" 7 "final" [])).

(** A service with a failing generic subscriber registered before a sound
    one, and a sound chat subscriber. *)
Definition service_with_subscribers : WS.World :=
  WS.run uuid any_url
    [WS.CallOnEvent (failing_subscriber 1); WS.CallOnEvent (quiet_subscriber 2);
     WS.CallOnChatEvent (quiet_subscriber 3)]
    fresh_service.

Definition request_r1 : WS.RequestFrame :=
  {| WS.frame_id := "r1"; WS.frame_method := "chat.send";
     WS.frame_params :=
       Some (JObj [("sessionKey", JStr "s1"); ("message", JStr "hi");
                   ("idempotencyKey", JStr "k1")]) |}.

Definition request_r2 : WS.RequestFrame :=
  {| WS.frame_id := "r2"; WS.frame_method := "chat.history";
     WS.frame_params := Some (JObj [("sessionKey", JStr "s1")]) |}.

(** The service after [connect()] and the open event of its socket. *)
Definition open_service : WS.World :=
  WS.run uuid any_url [WS.CallConnect None; WS.SocketOpen 1] fresh_service.

(** A failed response to [request_r1]. *)
Definition failure_r1 : json :=
  JObj [("type", JStr "res"); ("id", JStr "r1"); ("ok", JBool false);
        ("error", JObj [("code", JNum 503); ("message", JStr "unavailable")])].

End Fixtures.

(** * Further concrete inputs *)

Module Samples.

Import Fixtures.

(** A static directory holding the page, one script and one sub-directory. *)
Definition site_disk (path : string) : Http.FileEntry :=
  if String.eqb path "/srv/webot/index.html"
  then Http.RegularFile (Some "<!doctype html>")
  else if String.eqb path "/srv/webot//dist/main.js"
  then Http.RegularFile (Some "main()")
  else if String.eqb path "/srv/webot//dist"
  then Http.NotAFile
  else Http.NoEntry.

Definition node_env : Http.Env :=
  {| Http.env_GATEWAY_TOKEN := Some "test-token"; Http.env_DEBUG := None;
     Http.module_dirname := "/srv/webot/dist"; Http.process_cwd := "/srv" |}.

Definition explicit_options : Http.RawOptions :=
  {| Http.opt_basePath := None; Http.opt_staticDir := Some "/srv/webot";
     Http.opt_gatewayUrl := None; Http.opt_gatewayToken := None;
     Http.opt_debug := None |}.

(** An empty storage that accepts every call, and a conversion that is never
    needed for strings. *)
Definition open_storage : ConfigStorage.Storage :=
  {| ConfigStorage.items := ∅;
     ConfigStorage.refuses_write := fun _ _ => false;
     ConfigStorage.refuses_read := fun _ => false |}.

Definition full_storage : ConfigStorage.Storage :=
  {| ConfigStorage.items := {[ "webot_gateway_token" := "old-token" ]};
     ConfigStorage.refuses_write := fun k _ => String.eqb k "webot_gateway_token";
     ConfigStorage.refuses_read := fun _ => false |}.

Definition no_conversion (j : json) : outcome string :=
  Thrown (TypeError "Cannot convert object to primitive value").

Definition configured : Config.ConfigService :=
  Config.new_ConfigService (Some "wss://gateway.example/ws") (Some "s3cret").

Definition served_blank_token : Config.FetchOutcome :=
  Config.FetchResponse true 200 "OK"
    (Config.BodyJson (JObj [("gatewayUrl", JStr "ws://10.0.0.5:18789");
                            ("gatewayToken", JStr "")])).

(** A successful response to [request_r1]. *)
Definition success_r1 : json :=
  JObj [("type", JStr "res"); ("id", JStr "r1"); ("ok", JBool true);
        ("payload", JObj [("runId", JStr "run-1"); ("status", JStr "started")])].

(** A page with a typed message, on the open service after the handshake;
    [trim] here removes nothing. *)
Definition connected_service : WS.World :=
  WS.run uuid any_url [WS.SocketMessage 1 (Some hello_frame)] open_service.

Definition typed_page : ChatUI.Page :=
  {| ChatUI.service := connected_service; ChatUI.chatContainer := [];
     ChatUI.input_value := "hello"; ChatUI.input_height := "48px" |}.

Definition no_trim (s : string) : string := s.
Definition no_text (j : json) : string := "".

Definition final_event : ChatUI.ChatEvent :=
  {| ChatUI.ev_runId := "run-1"; ChatUI.ev_sessionKey := "s1"; ChatUI.ev_state := "final";
     ChatUI.ev_message :=
       Some {| Chat.role := "assistant";
               Chat.content := Some [{| Chat.part_type := "text"; Chat.part_text := "Hi, " |};
                                     {| Chat.part_type := "text"; Chat.part_text := "there" |}];
               Chat.timestamp := 7 |};
     ChatUI.ev_errorMessage := None |}.

End Samples.

(** * Properties *)

(** ** Configuration loading *)

Module ConfigFacts.
Import Config.

Lemma getConfig_fields (c : ConfigService) :
  doc_gatewayUrl (getConfig c) = gatewayUrl c /\
  doc_gatewayToken (getConfig c) = gatewayToken c.
Proof. split; reflexivity. Qed.

(** What the [try] block does on a JSON object: each field is considered on
    its own. *)
Lemma loadFromServer_object (status : nat) (statusText : string)
    (props : list (string * json)) (c : ConfigService) :
  let f := FetchResponse true status statusText (BodyJson (JObj props)) in
  let c' := {| gatewayUrl := default (gatewayUrl c) (served_truthy f "gatewayUrl");
               gatewayToken := default (gatewayToken c) (served_truthy f "gatewayToken") |} in
  loadFromServer f c = (Ret (getConfig c'), c').
Proof.
  destruct c as [u t]. cbn -[assoc String.eqb].
  unfold loadFromServer, loadFromServer_try, try_catch, bind, lift, gets, modify, ret.
  cbn -[assoc]. unfold truthy.
  destruct (assoc "gatewayUrl" props) as [ju|];
    destruct (assoc "gatewayToken" props) as [jt|]; cbn;
    repeat match goal with
           | |- context [truthy_json ?j] => destruct (truthy_json j); cbn
           end; reflexivity.
Qed.

(** C10. [loadFromServer] always returns (its promise is never rejected): the
    result is the configuration held afterwards; when the fetch fails, answers
    with a non-OK status or carries a malformed body, the held configuration
    is returned unchanged; and a held field changes only to the value of the
    same field of the server's document, when that field is present and
    truthy there. *)
Theorem loadFromServer_never_rejects (f : FetchOutcome) (c : ConfigService) :
  exists c' : ConfigService,
    loadFromServer f c = (Ret (getConfig c'), c') /\
    (fetch_failed f = true -> c' = c) /\
    gatewayUrl c' = default (gatewayUrl c) (served_truthy f "gatewayUrl") /\
    gatewayToken c' = default (gatewayToken c) (served_truthy f "gatewayToken").
Proof.
  destruct f as [reason | ok status statusText body].
  - exists c. repeat split; reflexivity.
  - destruct ok.
    + destruct body as [| config].
      * exists c. repeat split; reflexivity.
      * destruct config as [| b | x | s | items | props];
          try (exists c; destruct c; repeat split; (reflexivity || discriminate)).
        pose proof (loadFromServer_object status statusText props c) as H.
        cbv zeta in H. eexists. split; [exact H |].
        split; [discriminate |]. split; reflexivity.
    + exists c. repeat split; reflexivity.
Qed.

End ConfigFacts.

(** ** Chat history replay *)

Module ChatFacts.
Import Chat Fixtures.

Lemma replay_one_appends (dom : ChatContainer) (msg : HistoryEntry) :
  replay_one dom msg = (dom ++ [rendered msg])%list.
Proof. reflexivity. Qed.

Lemma fold_replay (l : list HistoryEntry) (dom : ChatContainer) :
  fold_left replay_one l dom = (dom ++ map rendered l)%list.
Proof.
  revert dom. induction l as [| m l IH]; intros dom; simpl.
  - now rewrite app_nil_r.
  - rewrite IH, replay_one_appends, <- app_assoc. reflexivity.
Qed.

Lemma StronglySorted_snoc {A} (R : A -> A -> Prop) (l : list A) (x : A) :
  StronglySorted R l -> Forall (fun y => R y x) l -> StronglySorted R (l ++ [x]).
Proof.
  induction 1 as [| a l Hs IH Ha]; intros Hall; simpl.
  - constructor; constructor.
  - apply Forall_cons_iff in Hall as [Hax Hl].
    constructor; [now apply IH |].
    apply Forall_app. split; [exact Ha | now constructor].
Qed.

Lemma StronglySorted_rev {A} (R : A -> A -> Prop) (l : list A) :
  StronglySorted R l -> StronglySorted (flip R) (rev l).
Proof.
  induction 1 as [| a l Hs IH Ha]; simpl.
  - constructor.
  - apply StronglySorted_snoc; [exact IH |].
    apply Forall_forall. intros y Hy. unfold flip.
    rewrite Forall_forall in Ha. apply Ha. apply list_elem_of_In.
    apply in_rev. now apply list_elem_of_In.
Qed.

(** C8. When the history response lists its messages newest first ([newer a
    b]: entry [a] is at least as recent as [b], and every entry is so related
    to all entries after it), [loadHistory] walks the reversed list: the
    elements appended to the chat container are the renderings of the entries
    oldest first. *)
Theorem loadHistory_chronological (newer : HistoryEntry -> HistoryEntry -> Prop)
    (h : ChatHistoryResponse) (msgs : list HistoryEntry) (dom : ChatContainer) :
  messages h = Some msgs ->
  StronglySorted newer msgs ->
  loadHistory (Some h) dom = (dom ++ map rendered (replay_order msgs))%list /\
  replay_order msgs = rev msgs /\
  StronglySorted (fun a b => newer b a) (replay_order msgs).
Proof.
  intros Hm Hs. unfold loadHistory. rewrite Hm.
  split; [apply fold_replay |]. split; [reflexivity |].
  apply (StronglySorted_rev newer), Hs.
Qed.

Lemma loadHistory_chronological_witness :
  let msgs := [entry "m2" "assistant" "hello" 20; entry "m1" "user" "hi" 10] in
  let h := {| sessionKey := "s1"; sessionId := "x"; messages := Some msgs |} in
  loadHistory (Some h) [] =
    [MessageDiv "message user" "You" "hi";
     MessageDiv "message assistant" "Assistant" "hello"] /\
  StronglySorted (fun a b => at_least_as_recent b a) (replay_order msgs).
Proof.
  intros msgs h.
  assert (Hs : StronglySorted at_least_as_recent msgs).
  { repeat constructor. }
  destruct (loadHistory_chronological at_least_as_recent h msgs [] eq_refl Hs)
    as [H1 [_ H3]].
  split; [rewrite H1; reflexivity | exact H3].
Defined.

End ChatFacts.

(** ** The HTTP handlers *)

Module HttpFacts.
Import Http Fixtures.



Section Handlers.

Variable path_join : list string -> string.
Variable extname : string -> string.
Variable URL_pathname : string -> string -> outcome string.
Variable JSON_stringify : json -> string.

Abbreviation http_handler := (webotHttpHandler path_join extname URL_pathname JSON_stringify).
Abbreviation integration_handler :=
  (webotIntegrationHandler path_join extname URL_pathname JSON_stringify).



End Handlers.

End HttpFacts.

(** ** Static files, the fallback chain and the standalone server *)

Module HttpProps.
Import Http HttpServers Fixtures Samples HttpFacts.

Lemma eqb_false_of_page (rel : string) :
  is_page rel = true -> String.eqb rel "/api/config" = false.
Proof.
  intros Hpage. destruct (String.eqb_spec rel "/api/config") as [-> | ?]; [| reflexivity].
  discriminate Hpage.
Qed.

Lemma bind_lift_ret {S A B} (a : A) (k : A -> M S B) (s : S) :
  bind (lift (Ret a)) k s = k a s.
Proof. reflexivity. Qed.

Lemma bind_returns {S A B} (m : M S A) (k : A -> M S B) (s s' : S) (a : A) :
  m s = (Ret a, s') -> bind m k s = k a s'.
Proof. intros H. unfold bind. now rewrite H. Qed.

Lemma try_catch_returns {S A} (m : M S A) (h : exn -> M S A) (s s' : S) (a : A) :
  m s = (Ret a, s') -> try_catch m h s = (Ret a, s').
Proof. intros H. unfold try_catch. now rewrite H. Qed.

Section Handlers.

Variable path_join : list string -> string.
Variable extname : string -> string.
Variable URL_pathname : string -> string -> outcome string.
Variable JSON_stringify : json -> string.

Abbreviation http_handler := (webotHttpHandler path_join extname URL_pathname JSON_stringify).
Abbreviation integration_handler :=
  (webotIntegrationHandler path_join extname URL_pathname JSON_stringify).
Abbreviation serve := (serveStaticFile extname).
Abbreviation index_of o := (path_join [staticDir o; "index.html"]).

Abbreviation file_response := (HttpServers.file_response extname).

Lemma serve_cases (fs : string -> FileEntry) (p : string) (r : Res) :
  serve fs p r =
    match fs p with
    | NoEntry | RegularFile None => (Ret false, r)
    | NotAFile => (Ret true, (r ++ not_found)%list)
    | RegularFile (Some text) => (Ret true, (r ++ file_response p text)%list)
    end.
Proof.
  unfold serveStaticFile, try_catch, bind, writeHead, end_, modify, ret, throw.
  destruct (fs p) as [| | [text |]]; cbn; try reflexivity;
    now rewrite <- app_assoc.
Qed.

(** The static part of both handlers: the file, then index.html, then the
    final 404. *)
Lemma static_chain (o : Options) (fs : string -> FileEntry) (req : Request) (r : Res)
    (pathname : string) :
  url_of URL_pathname req = Ret pathname ->
  String.prefix (basePath o) pathname = true ->
  String.eqb (relative_path o pathname) "/api/config" = false ->
  http_handler o fs req r =
    let file := file_path_for path_join o (relative_path o pathname) in
    match fs file with
    | NotAFile => (Ret true, (r ++ not_found)%list)
    | RegularFile (Some text) => (Ret true, (r ++ file_response file text)%list)
    | NoEntry | RegularFile None =>
        match fs (index_of o) with
        | RegularFile (Some text) =>
            (Ret true, (r ++ file_response (index_of o) text)%list)
        | _ => (Ret true, (r ++ not_found)%list)
        end
    end.
Proof.
  intros Hurl Hpre Hcfg. unfold webotHttpHandler, bind at 1, lift.
  rewrite Hurl, Hpre. cbn [negb]. fold (relative_path o pathname). rewrite Hcfg.
  cbv zeta. unfold bind at 1. rewrite serve_cases.
  destruct (fs (file_path_for path_join o (relative_path o pathname)))
    as [| | [text |]]; try reflexivity.
  - unfold bind at 1. rewrite serve_cases.
    destruct (fs (index_of o)) as [| | [text |]]; try reflexivity;
      unfold bind, writeHead, end_, modify, ret; cbn; now rewrite <- app_assoc.
  - unfold bind at 1. rewrite serve_cases.
    destruct (fs (index_of o)) as [| | [text |]]; try reflexivity;
      unfold bind, writeHead, end_, modify, ret; cbn; now rewrite <- app_assoc.
Qed.

Lemma serve_returns (fs : string -> FileEntry) (p : string) (r : Res) :
  exists served r', serve fs p r = (Ret served, r').
Proof. rewrite serve_cases. destruct (fs p) as [| | [text |]]; eauto. Qed.

Lemma handlers_same_options (o : Options) (fs : string -> FileEntry) (req : Request)
    (r : Res) :
  integration_handler o fs req r = http_handler o fs req r.
Proof.
  unfold webotIntegrationHandler, webotHttpHandler.
  destruct (url_of URL_pathname req) as [pathname | e]; [| reflexivity].
  rewrite !bind_lift_ret.
  destruct (negb (String.prefix (basePath o) pathname)); [reflexivity |].
  cbv zeta.
  destruct (String.eqb _ "/api/config"); [reflexivity |].
  destruct (serve_returns fs (file_path_for path_join o
              (or_else (slice_from (String.length (basePath o)) pathname) "/")) r)
    as (served & r1 & H1).
  rewrite (bind_returns _ _ _ _ _ (try_catch_returns _ _ _ _ _ H1)).
  rewrite (bind_returns _ _ _ _ _ H1).
  destruct served; [reflexivity |].
  destruct (serve_returns fs (index_of o) r1) as (served' & r2 & H2).
  rewrite (bind_returns _ _ _ _ _ (try_catch_returns _ _ _ _ _ H2)).
  now rewrite (bind_returns _ _ _ _ _ H2).
Qed.

(** X14. [serveStaticFile] never throws.  It answers [false] exactly when
    [statSync] or [readFileSync] fails, and then it has written nothing; when
    it answers [true] it has written one head and one body: 404 exactly when
    the path exists but is not a regular file, 200 with the file's text
    otherwise. *)
Theorem serveStaticFile_answers_or_declines (fs : string -> FileEntry) (p : string)
    (r : Res) :
  exists (served : bool) (r' : Res),
    serve fs p r = (Ret served, r') /\
    (served = false <-> unreadable (fs p) = true) /\
    (served = false -> r' = r) /\
    (served = true ->
     exists status headers body,
       r' = (r ++ [WriteHead status headers; End_ body])%list /\
       (status = 404 <-> fs p = NotAFile) /\
       (status = 200 <-> exists text, fs p = RegularFile (Some text) /\ body = text)).
Proof.
  rewrite serve_cases. destruct (fs p) as [| | [text |]] eqn:Hfs.
  - exists false, r. repeat split; try reflexivity; discriminate.
  - exists true, (r ++ not_found)%list. split; [reflexivity |].
    split; [split; discriminate |]. split; [discriminate |].
    intros _. eexists _, _, _. split; [reflexivity |].
    split; [tauto |]. split; [discriminate | intros [text [? _]]; discriminate].
  - exists true, (r ++ file_response p text)%list. split; [reflexivity |].
    split; [split; discriminate |]. split; [discriminate |].
    intros _. eexists _, _, _. split; [reflexivity |].
    split; [split; discriminate |]. split; [| reflexivity].
    intros _. exists text. split; reflexivity.
  - exists false, r. repeat split; try reflexivity; discriminate.
Qed.

(** X15. Given the static directory, the handler of moltbot-integration.ts
    and the one of server-http-only.ts answer every request alike: same
    return value (or the same exception from the URL), same calls on the
    response.  The [try]/[catch] blocks that the integration handler wraps
    around its two static attempts never catch anything. *)
Theorem integration_handler_agrees (env : Env) (options : RawOptions) (dir : string)
    (fs : string -> FileEntry) (req : Request) (r : Res) :
  opt_staticDir options = Some dir ->
  createWebotIntegrationHandler path_join extname URL_pathname JSON_stringify
    env options fs req r =
  createWebotHttpHandler path_join extname URL_pathname JSON_stringify
    env options fs req r.
Proof.
  intros Hdir. unfold createWebotIntegrationHandler, createWebotHttpHandler.
  rewrite handlers_same_options.
  unfold resolve_integration_options, resolve_http_options. now rewrite Hdir.
Qed.

Lemma config_answer (o : Options) (fs : string -> FileEntry) (req : Request) (r : Res)
    (pathname : string) :
  url_of URL_pathname req = Ret pathname ->
  String.prefix (basePath o) pathname = true ->
  String.eqb (relative_path o pathname) "/api/config" = true ->
  http_handler o fs req r =
    (Ret true, (r ++ [WriteHead 200 [("Content-Type", "application/json")];
                      End_ (JSON_stringify (config_document o))])%list).
Proof.
  intros Hurl Hpre Hcfg. unfold webotHttpHandler. rewrite Hurl, bind_lift_ret, Hpre.
  cbn [negb]. fold (relative_path o pathname). rewrite Hcfg.
  unfold bind, writeHead, end_, modify, ret. cbn. now rewrite <- app_assoc.
Qed.

(** [new URL] is called before anything else: when it throws, the handler
    throws, and nothing was written. *)
Lemma url_throws (o : Options) (fs : string -> FileEntry) (req : Request) (r : Res)
    (e : exn) :
  url_of URL_pathname req = Thrown e ->
  http_handler o fs req r = (Thrown e, r) /\
  integration_handler o fs req r = (Thrown e, r).
Proof.
  intros Hurl. unfold webotHttpHandler, webotIntegrationHandler, bind at 1 3, lift.
  rewrite Hurl. split; reflexivity.
Qed.



(** X16. A request whose URL parses and whose path starts with the base path
    is answered, and answered once: the handler returns [true] and has made
    exactly one [writeHead] call followed by one [end] call, with status 200
    or 404.  [new URL] is called outside any [try]: when it throws on the
    request, the handler throws and no response is written. *)
Theorem claimed_request_is_answered_once (o : Options) (fs : string -> FileEntry)
    (req : Request) (r : Res) :
  (forall pathname,
     url_of URL_pathname req = Ret pathname ->
     String.prefix (basePath o) pathname = true ->
     exists status headers body,
       http_handler o fs req r =
         (Ret true, (r ++ [WriteHead status headers; End_ body])%list) /\
       (status = 200 \/ status = 404)) /\
  (forall e,
     url_of URL_pathname req = Thrown e ->
     http_handler o fs req r = (Thrown e, r)).
Proof.
  split.
  - intros pathname Hurl Hpre.
    destruct (String.eqb (relative_path o pathname) "/api/config") eqn:Hcfg.
    + rewrite (config_answer o fs req r pathname Hurl Hpre Hcfg).
      eexists _, _, _. split; [reflexivity | now left].
    + rewrite (static_chain o fs req r pathname Hurl Hpre Hcfg). cbv zeta.
      destruct (fs (file_path_for path_join o _)) as [| | [text |]];
        try destruct (fs (index_of o)) as [| | [text' |]];
        eexists _, _, _; (split; [reflexivity | (now left) || (now right)]).
  - intros e Hurl. now destruct (url_throws o fs req r e Hurl).
Qed.

(** X17. Requests for the base path itself, for "/" and for any name ending
    in ".html" are all answered from index.html: two such requests get the
    same response, whatever file they name. *)
Theorem html_requests_share_index (o : Options) (fs : string -> FileEntry)
    (req1 req2 : Request) (r : Res) (p1 p2 : string) :
  url_of URL_pathname req1 = Ret p1 ->
  url_of URL_pathname req2 = Ret p2 ->
  String.prefix (basePath o) p1 = true ->
  String.prefix (basePath o) p2 = true ->
  is_page (relative_path o p1) = true ->
  is_page (relative_path o p2) = true ->
  http_handler o fs req1 r = http_handler o fs req2 r /\
  http_handler o fs req1 r =
    match fs (index_of o) with
    | RegularFile (Some text) => (Ret true, (r ++ file_response (index_of o) text)%list)
    | _ => (Ret true, (r ++ not_found)%list)
    end.
Proof.
  intros Hu1 Hu2 Hp1 Hp2 Hg1 Hg2.
  assert (Hone : forall req p, url_of URL_pathname req = Ret p ->
            String.prefix (basePath o) p = true ->
            is_page (relative_path o p) = true ->
            http_handler o fs req r =
              match fs (index_of o) with
              | RegularFile (Some text) =>
                  (Ret true, (r ++ file_response (index_of o) text)%list)
              | _ => (Ret true, (r ++ not_found)%list)
              end).
  { intros req p Hu Hp Hg.
    rewrite (static_chain o fs req r p Hu Hp (eqb_false_of_page _ Hg)). cbv zeta.
    unfold file_path_for. unfold is_page in Hg. rewrite Hg.
    destruct (fs (index_of o)) as [| | [text |]]; reflexivity. }
  rewrite (Hone req1 p1 Hu1 Hp1 Hg1), (Hone req2 p2 Hu2 Hp2 Hg2). split; reflexivity.
Qed.

(** X18. The fallback chain.  When the requested file cannot be read (it is
    missing, or reading it fails), index.html is sent in its place with
    status 200 and the content type of index.html; when index.html cannot be
    sent either, the answer is 404.  A path that exists but is not a regular
    file is answered 404 at once, without the fallback. *)
Theorem missing_file_falls_back_to_index (o : Options) (fs : string -> FileEntry)
    (req : Request) (r : Res) (pathname : string) :
  url_of URL_pathname req = Ret pathname ->
  String.prefix (basePath o) pathname = true ->
  String.eqb (relative_path o pathname) "/api/config" = false ->
  let file := file_path_for path_join o (relative_path o pathname) in
  (fs file = NotAFile ->
   http_handler o fs req r = (Ret true, (r ++ not_found)%list)) /\
  (unreadable (fs file) = true ->
   (forall text, fs (index_of o) = RegularFile (Some text) ->
      http_handler o fs req r =
        (Ret true, (r ++ file_response (index_of o) text)%list)) /\
   ((forall text, fs (index_of o) <> RegularFile (Some text)) ->
      http_handler o fs req r = (Ret true, (r ++ not_found)%list))).
Proof.
  intros Hurl Hpre Hcfg file.
  rewrite (static_chain o fs req r pathname Hurl Hpre Hcfg). cbv zeta. fold file.
  split.
  - intros ->. reflexivity.
  - intros Hun. destruct (fs file) as [| | [text |]]; try discriminate Hun.
    + split.
      * intros text ->. reflexivity.
      * intros Hno. destruct (fs (index_of o)) as [| | [text |]]; try reflexivity.
        now destruct (Hno text).
    + split.
      * intros text ->. reflexivity.
      * intros Hno. destruct (fs (index_of o)) as [| | [text |]]; try reflexivity.
        now destruct (Hno text).
Qed.

(** X19. The standalone server answers every request whose URL parses
    exactly once: a request outside the base path gets the 404 of the
    listener itself, and a request under it gets the one response of the
    handler. *)
Theorem standalone_answers_once (env : Env) (options : RawOptions)
    (fs : string -> FileEntry) (req : Request) (pathname : string) :
  url_of URL_pathname req = Ret pathname ->
  let o := resolve_http_options path_join env options in
  exists status headers body,
    standalone_listener path_join extname URL_pathname JSON_stringify
      env options fs req [] =
      (Ret tt, [WriteHead status headers; End_ body]) /\
    (String.prefix (basePath o) pathname = false ->
     [WriteHead status headers; End_ body] = not_found) /\
    (String.prefix (basePath o) pathname = true ->
     http_handler o fs req [] = (Ret true, [WriteHead status headers; End_ body])).
Proof.
  intros Hurl o. unfold standalone_listener, createWebotHttpHandler. fold o.
  destruct (String.prefix (basePath o) pathname) eqn:Hpre.
  - destruct (String.eqb (relative_path o pathname) "/api/config") eqn:Hcfg.
    + rewrite (bind_returns _ _ _ _ _ (config_answer o fs req [] pathname Hurl Hpre Hcfg)).
      rewrite (config_answer o fs req [] pathname Hurl Hpre Hcfg).
      eexists _, _, _. split; [reflexivity |]. split; [discriminate | reflexivity].
    + pose proof (static_chain o fs req [] pathname Hurl Hpre Hcfg) as Hrun.
      cbv zeta in Hrun.
      destruct (fs (file_path_for path_join o _)) as [| | [text |]];
        try destruct (fs (index_of o)) as [| | [text' |]];
        rewrite (bind_returns _ _ _ _ _ Hrun), Hrun;
        eexists _, _, _; (split; [reflexivity |]; split; [discriminate | reflexivity]).
  - assert (Hout : http_handler o fs req [] = (Ret false, [])).
    { unfold webotHttpHandler. now rewrite Hurl, bind_lift_ret, Hpre. }
    rewrite (bind_returns _ _ _ _ _ Hout).
    eexists _, _, _. split; [reflexivity |]. split; [reflexivity | discriminate].
Qed.

End Handlers.

Abbreviation sample_handler :=
  (webotHttpHandler join_with_slash no_extname pathname_of_target stringify_flat).

Lemma integration_handler_agrees_witness :
  createWebotIntegrationHandler join_with_slash no_extname pathname_of_target
    stringify_flat node_env explicit_options site_disk
    (get_request "/webot/dist/main.js") [] =
  createWebotHttpHandler join_with_slash no_extname pathname_of_target
    stringify_flat node_env explicit_options site_disk
    (get_request "/webot/dist/main.js") [].
Proof.
  apply (integration_handler_agrees join_with_slash no_extname pathname_of_target
           stringify_flat node_env explicit_options "/srv/webot").
  reflexivity.
Defined.



Lemma claimed_request_is_answered_once_witness :
  (exists status headers body,
     sample_handler webot_options site_disk (get_request "/webot/dist") [] =
       (Ret true, [WriteHead status headers; End_ body]) /\
     (status = 200 \/ status = 404)) /\
  webotHttpHandler join_with_slash no_extname pathname_or_invalid stringify_flat
    webot_options site_disk (get_request "//") [] =
    (Thrown (TypeError "Invalid URL"), []).
Proof.
  split.
  - destruct (claimed_request_is_answered_once join_with_slash no_extname
                pathname_of_target stringify_flat webot_options site_disk
                (get_request "/webot/dist") []) as [Hclaimed _].
    exact (Hclaimed "/webot/dist" eq_refl eq_refl).
  - destruct (claimed_request_is_answered_once join_with_slash no_extname
                pathname_or_invalid stringify_flat webot_options site_disk
                (get_request "//") []) as [_ Hthrown].
    exact (Hthrown (TypeError "Invalid URL") eq_refl).
Defined.

Lemma html_requests_share_index_witness :
  sample_handler webot_options site_disk (get_request "/webot") [] =
  sample_handler webot_options site_disk (get_request "/webot/docs/about.html") [] /\
  sample_handler webot_options site_disk (get_request "/webot") [] =
    (Ret true,
     [WriteHead 200 [("Content-Type", "application/octet-stream");
                     ("Cache-Control", "no-cache")];
      End_ "<!doctype html>"]).
Proof.
  apply (html_requests_share_index join_with_slash no_extname pathname_of_target
           stringify_flat webot_options site_disk (get_request "/webot")
           (get_request "/webot/docs/about.html") [] "/webot" "/webot/docs/about.html");
    reflexivity.
Defined.

Lemma missing_file_falls_back_to_index_witness :
  sample_handler webot_options site_disk (get_request "/webot/style.css") [] =
    (Ret true,
     [WriteHead 200 [("Content-Type", "application/octet-stream");
                     ("Cache-Control", "no-cache")];
      End_ "<!doctype html>"]) /\
  sample_handler webot_options site_disk (get_request "/webot/dist") [] =
    (Ret true, not_found).
Proof.
  split.
  - destruct (missing_file_falls_back_to_index join_with_slash no_extname
                pathname_of_target stringify_flat webot_options site_disk
                (get_request "/webot/style.css") [] "/webot/style.css"
                eq_refl eq_refl eq_refl) as [_ Hmissing].
    destruct (Hmissing eq_refl) as [Hindex _].
    exact (Hindex "<!doctype html>" eq_refl).
  - destruct (missing_file_falls_back_to_index join_with_slash no_extname
                pathname_of_target stringify_flat webot_options site_disk
                (get_request "/webot/dist") [] "/webot/dist"
                eq_refl eq_refl eq_refl) as [Hdir _].
    exact (Hdir eq_refl).
Defined.

Lemma standalone_answers_once_witness :
  exists status headers body,
    standalone_listener join_with_slash no_extname pathname_of_target stringify_flat
      node_env explicit_options site_disk (get_request "/hooks/agent") [] =
      (Ret tt, [WriteHead status headers; End_ body]) /\
    (String.prefix "/webot" "/hooks/agent" = false ->
     [WriteHead status headers; End_ body] = not_found) /\
    (String.prefix "/webot" "/hooks/agent" = true ->
     sample_handler (resolve_http_options join_with_slash node_env explicit_options)
       site_disk (get_request "/hooks/agent") [] =
       (Ret true, [WriteHead status headers; End_ body])).
Proof.
  apply (standalone_answers_once join_with_slash no_extname pathname_of_target
           stringify_flat node_env explicit_options site_disk
           (get_request "/hooks/agent") "/hooks/agent").
  reflexivity.
Defined.

End HttpProps.

(** ** Configuration updates and the stored configuration *)

Module ConfigProps.
Import Config ConfigStorage Fixtures Samples.

Lemma loadFromServer_closed_form (f : FetchOutcome) (c : ConfigService) :
  let c' := {| gatewayUrl := default (gatewayUrl c) (served_truthy f "gatewayUrl");
               gatewayToken := default (gatewayToken c) (served_truthy f "gatewayToken") |} in
  loadFromServer f c = (Ret (getConfig c'), c').
Proof.
  destruct c as [u t].
  destruct f as [reason | [] status statusText [| config]]; try reflexivity.
  destruct config as [| b | x | s | items | props]; try reflexivity.
  apply (ConfigFacts.loadFromServer_object status statusText props).
Qed.

Lemma default_truthy (held : json) (f : FetchOutcome) (k : string) :
  truthy_json held = true ->
  truthy_json (default held (served_truthy f k)) = true.
Proof.
  intros Hheld. unfold served_truthy.
  destruct f as [| [] ? ? [| [| | | | | props]]]; try exact Hheld.
  destruct (assoc k props) as [j |]; [| exact Hheld].
  destruct (truthy_json j) eqn:Hj; [exact Hj | exact Hheld].
Qed.

(** X20. Updates compose field by field, the later one winning: two
    [updateConfig] calls amount to one call with, for each field, the later
    value given.  Any given value is stored, the empty string included, and
    writing back what [getConfig] returned changes nothing. *)
Theorem updateConfig_later_wins (url1 token1 url2 token2 : value) (c : ConfigService) :
  updateConfig url2 token2 (updateConfig url1 token1 c) =
    updateConfig (later url2 url1) (later token2 token1) c /\
  getConfig (updateConfig url1 token1 c) =
    {| doc_gatewayUrl := default (gatewayUrl c) url1;
       doc_gatewayToken := default (gatewayToken c) token1 |} /\
  updateConfig (Some (doc_gatewayUrl (getConfig c)))
               (Some (doc_gatewayToken (getConfig c))) c = c.
Proof.
  destruct c as [u t].
  destruct url1, token1, url2, token2; repeat split; reflexivity.
Qed.

(** X21. Loading from the server is idempotent: a second [loadFromServer]
    that gets the same answer returns the same configuration and leaves the
    service as the first one left it. *)
Theorem loadFromServer_idempotent (f : FetchOutcome) (c : ConfigService) :
  loadFromServer f (loaded f c) = loadFromServer f c.
Proof.
  unfold loaded. rewrite (loadFromServer_closed_form f c). cbv zeta. cbn [snd].
  rewrite loadFromServer_closed_form. cbv zeta. cbn [gatewayUrl gatewayToken].
  destruct (served_truthy f "gatewayUrl"), (served_truthy f "gatewayToken");
    reflexivity.
Qed.

(** X22. [loadFromServer] cannot blank a field.  Each of the held URL and
    token, taken by itself: when it is truthy before the call it is truthy
    after it, whatever the fetch returned and whatever the other field holds
    (a falsy field of the served document is skipped).  [updateConfig], by
    contrast, stores an empty string it is given. *)
Theorem loadFromServer_keeps_fields_truthy (f : FetchOutcome) (c : ConfigService) :
  (truthy_json (gatewayUrl c) = true ->
   truthy_json (gatewayUrl (loaded f c)) = true) /\
  (truthy_json (gatewayToken c) = true ->
   truthy_json (gatewayToken (loaded f c)) = true) /\
  truthy_json (gatewayToken (updateConfig None (Some (JStr "")) c)) = false.
Proof.
  unfold loaded. rewrite (loadFromServer_closed_form f c).
  cbv zeta. cbn [snd gatewayUrl gatewayToken].
  split; [intros Hu; now apply default_truthy |].
  split; [intros Ht; now apply default_truthy |].
  now destruct c.
Qed.

Section Browser.

Variable DOMString : json -> outcome string.

Lemma setItem_string (k text : string) (st : Storage) :
  refuses_write st k text = false ->
  setItem DOMString k (JStr text) st = (Ret tt, with_items (<[k := text]> (items st)) st).
Proof.
  intros Hok. unfold setItem, bind, lift, gets, modify. cbn. now rewrite Hok.
Qed.

Lemma setItem_text (k : string) (v : json) (text : string) (st : Storage) :
  item_text DOMString v = Ret text ->
  refuses_write st k text = false ->
  setItem DOMString k v st = (Ret tt, with_items (<[k := text]> (items st)) st).
Proof.
  intros Htext Hok. unfold setItem, bind, lift, gets, modify.
  unfold item_text in Htext. rewrite Htext. cbn. now rewrite Hok.
Qed.

(** X23. Saving and loading round-trip up to string conversion, except for
    empty values.  [saveToLocalStorage] stores each field as a text: a string
    as it is, any other value (as [loadFromServer] may have stored) through
    the platform's string conversion.  When these texts are [u] and [t] and
    the storage accepts the calls, [loadFromLocalStorage] on any service gives
    it the strings [u] and [t] where they are non-empty, keeps its own value
    where they are empty, and returns [null] when both are.  When the
    conversion of the URL throws, nothing is saved. *)
Theorem storage_round_trip (st : Storage) (c other : ConfigService) :
  (forall u t : string,
     item_text DOMString (gatewayUrl c) = Ret u ->
     item_text DOMString (gatewayToken c) = Ret t ->
     refuses_write st url_key u = false ->
     refuses_write st token_key t = false ->
     refuses_read st url_key = false ->
     refuses_read st token_key = false ->
     exists st',
       saveToLocalStorage DOMString true c st = (Ret tt, st') /\
       items st' !! url_key = Some u /\
       items st' !! token_key = Some t /\
       let other' :=
         {| gatewayUrl := if String.eqb u "" then gatewayUrl other else JStr u;
            gatewayToken := if String.eqb t "" then gatewayToken other else JStr t |} in
       loadFromLocalStorage true st' other =
         (Ret (if String.eqb u "" && String.eqb t "" then None
               else Some (getConfig other')), other')) /\
  (forall e,
     item_text DOMString (gatewayUrl c) = Thrown e ->
     saveToLocalStorage DOMString true c st = (Ret tt, st)).
Proof.
  split.
  - intros u t Hu Ht Hwu Hwt Hru Hrt.
    eexists. split.
    { unfold saveToLocalStorage. cbn [negb]. unfold try_catch, bind at 1.
      rewrite (setItem_text url_key (gatewayUrl c) u st Hu Hwu).
      rewrite (setItem_text token_key (gatewayToken c) t _ Ht); [reflexivity | exact Hwt]. }
    cbn [items with_items].
    assert (Hgu : <[token_key:=t]> (<[url_key:=u]> (items st)) !! url_key = Some u).
    { rewrite lookup_insert_ne by discriminate. apply lookup_insert_eq. }
    assert (Hgt : <[token_key:=t]> (<[url_key:=u]> (items st)) !! token_key = Some t).
    { apply lookup_insert_eq. }
    split; [exact Hgu |]. split; [exact Hgt |].
    destruct other as [ou ot].
    unfold loadFromLocalStorage, getItem. cbn [negb refuses_read with_items items].
    rewrite Hru, Hrt, Hgu, Hgt. unfold try_catch, bind, lift, gets, modify, ret.
    cbn. destruct (String.eqb u ""), (String.eqb t ""); reflexivity.
  - intros e He. unfold saveToLocalStorage. cbn [negb].
    unfold try_catch, bind at 1, setItem at 1, bind at 1, lift at 1.
    unfold item_text in He. now rewrite He.
Qed.

(** X24. Neither storage method throws, and a failure is silent.  Outside a
    browser both do nothing.  When the storage refuses the second write,
    [saveToLocalStorage] returns normally with the URL stored and the token
    entry as it was; when it refuses a read, [loadFromLocalStorage] returns
    [null] and the service keeps its configuration. *)
Theorem storage_failures_are_silent (window : bool) (st : Storage)
    (c other : ConfigService) :
  (exists st', saveToLocalStorage DOMString window c st = (Ret tt, st') /\
     (window = false -> st' = st) /\
     (forall u t, window = true ->
        gatewayUrl c = JStr u -> gatewayToken c = JStr t ->
        refuses_write st url_key u = false ->
        refuses_write st token_key t = true ->
        items st' !! url_key = Some u /\
        items st' !! token_key = items st !! token_key)) /\
  (exists (result : option ConfigDoc) (other' : ConfigService),
     loadFromLocalStorage window st other = (Ret result, other') /\
     (window = false \/ refuses_read st url_key = true \/
      refuses_read st token_key = true -> result = None /\ other' = other)).
Proof.
  split.
  - destruct (saveToLocalStorage DOMString window c st) as [o st'] eqn:Hrun.
    assert (Ho : o = Ret tt).
    { unfold saveToLocalStorage in Hrun. destruct window; cbn [negb] in Hrun.
      - unfold try_catch in Hrun.
        destruct (bind _ _ st) as [[[] | e] s1]; now inversion Hrun.
      - now inversion Hrun. }
    subst o. exists st'. split; [reflexivity |]. split.
    + intros ->. now inversion Hrun.
    + intros u t -> Hu Ht Hwu Hwt.
      unfold saveToLocalStorage in Hrun. cbn [negb] in Hrun.
      unfold try_catch, bind at 1 in Hrun.
      rewrite Hu, Ht, (setItem_string url_key u st Hwu) in Hrun.
      unfold setItem, bind, lift, gets, modify, throw in Hrun.
      cbn [refuses_write with_items] in Hrun. rewrite Hwt in Hrun.
      inversion Hrun; subst st'. cbn [items with_items]. split.
      * apply lookup_insert_eq.
      * apply lookup_insert_ne. discriminate.
  - destruct window.
    + unfold loadFromLocalStorage, getItem. cbn [negb].
      destruct (refuses_read st url_key) eqn:Hru.
      { exists None, other. split; [reflexivity | intros _; split; reflexivity]. }
      destruct (refuses_read st token_key) eqn:Hrt.
      { exists None, other. split; [reflexivity | intros _; split; reflexivity]. }
      unfold try_catch, bind, lift, gets, modify, ret. cbn.
      destruct (truthy_item (items st !! url_key)), (truthy_item (items st !! token_key));
        cbn; eexists _, _; (split; [reflexivity |]);
        intros [? | [? | ?]]; discriminate.
    + exists None, other. split; [reflexivity | intros _; split; reflexivity].
Qed.

End Browser.

Lemma loadFromServer_keeps_fields_truthy_witness :
  gatewayToken (new_ConfigService None None) = JStr "" /\
  truthy_json (gatewayUrl (loaded served_blank_token (new_ConfigService None None))) = true.
Proof.
  split; [reflexivity |].
  destruct (loadFromServer_keeps_fields_truthy served_blank_token
              (new_ConfigService None None)) as [Hurl _].
  apply Hurl. reflexivity.
Defined.

Lemma storage_round_trip_witness :
  exists st',
    saveToLocalStorage no_conversion true
      (updateConfig None (Some (JStr "")) configured) open_storage = (Ret tt, st') /\
    items st' !! url_key = Some "wss://gateway.example/ws" /\
    items st' !! token_key = Some "" /\
    let other' :=
      {| gatewayUrl := JStr "wss://gateway.example/ws";
         gatewayToken := JStr "s3cret" |} in
    loadFromLocalStorage true st' configured = (Ret (Some (getConfig other')), other').
Proof.
  destruct (storage_round_trip no_conversion open_storage
              (updateConfig None (Some (JStr "")) configured) configured)
    as [Hround _].
  apply (Hround "wss://gateway.example/ws" ""); reflexivity.
Defined.

Lemma storage_failures_are_silent_witness :
  exists st',
    saveToLocalStorage no_conversion true configured full_storage = (Ret tt, st') /\
    items st' !! url_key = Some "wss://gateway.example/ws" /\
    items st' !! token_key = Some "old-token".
Proof.
  destruct (storage_failures_are_silent no_conversion true full_storage
              configured configured) as [(st' & Hrun & _ & Hpartial) _].
  exists st'. split; [exact Hrun |].
  destruct (Hpartial "wss://gateway.example/ws" "s3cret"
              eq_refl eq_refl eq_refl eq_refl eq_refl) as [Hurl Htoken].
  split; [exact Hurl |]. rewrite Htoken. vm_compute. reflexivity.
Defined.

End ConfigProps.

(** ** The gateway session *)

Module WSFacts.
Import WS Logic Fixtures.

(** *** Rules of the program logic *)

Section Rules.

Context {A B : Type}.
Implicit Types P E : World -> Prop.

Lemma hoare_ret P (Q : A -> World -> Prop) E (a : A) :
  (forall w, P w -> Q a w) -> hoare P (ret a) Q E.
Proof. intros H w Hw. now apply H. Qed.

Lemma hoare_throw P (Q : A -> World -> Prop) E (e : exn) :
  (forall w, P w -> E w) -> hoare P (throw e) Q E.
Proof. intros H w Hw. now apply H. Qed.

Lemma hoare_bind P (R : A -> World -> Prop) (Q : B -> World -> Prop) E
    (m : M World A) (k : A -> M World B) :
  hoare P m R E -> (forall a, hoare (R a) (k a) Q E) -> hoare P (bind m k) Q E.
Proof.
  intros Hm Hk w Hw. unfold bind. specialize (Hm w Hw).
  destruct (m w) as [[a | e] w']; [now apply Hk | exact Hm].
Qed.

Lemma hoare_try_catch P (Q : A -> World -> Prop) E E'
    (m : M World A) (hd : exn -> M World A) :
  hoare P m Q E' -> (forall e, hoare E' (hd e) Q E) -> hoare P (try_catch m hd) Q E.
Proof.
  intros Hm Hh w Hw. unfold try_catch. specialize (Hm w Hw).
  destruct (m w) as [[a | e] w']; [exact Hm | now apply Hh].
Qed.

Lemma hoare_lift P (Q : A -> World -> Prop) E (o : outcome A) :
  (forall a w, o = Ret a -> P w -> Q a w) ->
  (forall e w, o = Thrown e -> P w -> E w) ->
  hoare P (lift o) Q E.
Proof. intros Hr He w Hw. unfold lift. destruct o; eauto. Qed.

Lemma hoare_gets P (Q : A -> World -> Prop) E (f : World -> A) :
  (forall w, P w -> Q (f w) w) -> hoare P (gets f) Q E.
Proof. intros H w Hw. now apply H. Qed.

Lemma hoare_conseq (P P' : World -> Prop) (Q Q' : A -> World -> Prop) E E'
    (m : M World A) :
  hoare P m Q E ->
  (forall w, P' w -> P w) -> (forall a w, Q a w -> Q' a w) -> (forall w, E w -> E' w) ->
  hoare P' m Q' E'.
Proof.
  intros Hm HP HQ HE w Hw. specialize (Hm w (HP w Hw)).
  destruct (m w) as [[a | e] w']; eauto.
Qed.

Lemma preserves_ret P (a : A) : preserves P (ret a).
Proof. now apply hoare_ret. Qed.

Lemma preserves_throw P (e : exn) : preserves P (throw (A := A) e).
Proof. now apply hoare_throw. Qed.

Lemma preserves_lift P (o : outcome A) : preserves P (lift o).
Proof. apply hoare_lift; auto. Qed.

Lemma preserves_gets P (f : World -> A) : preserves P (gets f).
Proof. now apply hoare_gets. Qed.

Lemma preserves_bind P (m : M World A) (k : A -> M World B) :
  preserves P m -> (forall a, preserves P (k a)) -> preserves P (bind m k).
Proof. intros Hm Hk. eapply hoare_bind; [exact Hm | exact Hk]. Qed.

(** Reading the state and continuing with what was read. *)
Lemma preserves_bind_gets P (f : World -> A) (k : A -> M World B) :
  (forall a, hoare (fun w => P w /\ f w = a) (k a) (fun _ => P) P) ->
  preserves P (bind (gets f) k).
Proof.
  intros Hk. eapply hoare_bind; [| exact Hk].
  apply hoare_gets. intros w Hw. now split.
Qed.

Lemma preserves_try_catch P (m : M World A) (hd : exn -> M World A) :
  preserves P m -> (forall e, preserves P (hd e)) -> preserves P (try_catch m hd).
Proof. intros Hm Hh. eapply hoare_try_catch; [exact Hm | exact Hh]. Qed.

End Rules.

Lemma hoare_modify (P : World -> Prop) (Q : unit -> World -> Prop) E
    (f : World -> World) :
  (forall w, P w -> Q tt (f w)) -> hoare P (modify f) Q E.
Proof. intros H w Hw. now apply H. Qed.

Lemma preserves_modify (P : World -> Prop) (f : World -> World) :
  (forall w, P w -> P (f w)) -> preserves P (modify f).
Proof. intros H. now apply hoare_modify. Qed.

Lemma preserves_forEach {A} (P : World -> Prop) (f : A -> M World unit) (l : list A) :
  (forall x, x ∈ l -> preserves P (f x)) -> preserves P (forEach f l).
Proof.
  induction l as [| x l IH]; intros H; simpl.
  - apply preserves_ret.
  - apply preserves_bind.
    + apply H. left.
    + intros _. apply IH. intros y Hy. apply H. now right.
Qed.

Lemma preserves_top_level {A} (P : World -> Prop) (m : M World A) :
  preserves P m ->
  (forall w l, P w -> P (set_console l w)) ->
  forall w, P w -> P (top_level m w).
Proof.
  intros Hm Hc w Hw. unfold top_level. specialize (Hm w Hw).
  destruct (m w) as [[a | e] w']; [exact Hm | now apply Hc].
Qed.

(** Structural steps of a preservation proof. *)
Ltac pres_step :=
  first
    [ apply preserves_ret
    | apply preserves_throw
    | apply preserves_lift
    | apply preserves_gets
    | apply preserves_bind; [| intros ?]
    | apply preserves_try_catch; [| intros ?]
    | match goal with
      | |- preserves _ (if ?b then _ else _) => destruct b
      | |- preserves _ (match ?x with _ => _ end) => destruct x
      end ].

Lemma hoare_strengthen {A} (P P' : World -> Prop) (Q : A -> World -> Prop) E
    (m : M World A) :
  (forall w, P' w -> P w) -> hoare P m Q E -> hoare P' m Q E.
Proof. intros HP Hm w Hw. apply Hm, HP, Hw. Qed.

Lemma hoare_absurd {A} (P : World -> Prop) (Q : A -> World -> Prop) E (m : M World A) :
  (forall w, ~ P w) -> hoare P m Q E.
Proof. intros HP w Hw. now destruct (HP w). Qed.

Lemma hoare_weaken_post {A} (P : World -> Prop) (Q Q' : A -> World -> Prop) E
    (m : M World A) :
  hoare P m Q E -> (forall a w, Q a w -> Q' a w) -> hoare P m Q' E.
Proof. intros Hm HQ. eapply hoare_conseq; eauto. Qed.

Lemma hoare_pure {A} (P : World -> Prop) (phi : Prop) (Q : A -> World -> Prop) E
    (m : M World A) :
  (phi -> hoare P m Q E) -> hoare (fun w => P w /\ phi) m Q E.
Proof. intros H w [Hw Hphi]. now apply H. Qed.

Lemma hoare_derive {A} (P : World -> Prop) (phi : Prop) (Q : A -> World -> Prop) E
    (m : M World A) :
  (forall w, P w -> phi) -> (phi -> hoare P m Q E) -> hoare P m Q E.
Proof. intros H1 H2 w Hw. exact (H2 (H1 w Hw) w Hw). Qed.

Lemma hoare_bind_thrown {A B} (P : World -> Prop) (Q : B -> World -> Prop)
    (E : World -> Prop) (e : exn) (k : A -> M World B) :
  (forall w, P w -> E w) -> hoare P (bind (lift (Thrown e)) k) Q E.
Proof. intros H w Hw. exact (H w Hw). Qed.

(** *** Handshake recognition *)

Ltac session_frame :=
  intros [? ? ? ? ? ? ? ? ? ? ? ? ? ? ? ?] [? ?]; split; assumption.

Lemma session_log (c : bool) (st : ConnectionStatus) (msg : string) E :
  hoare (session_is c st) (log msg) (fun _ => session_is c st) E.
Proof. apply hoare_modify. session_frame. Qed.

Lemma session_settle (c : bool) (st : ConnectionStatus) (p : nat) (ps : PromiseState) E :
  hoare (session_is c st) (settle p ps) (fun _ => session_is c st) E.
Proof.
  apply hoare_modify. intros w [H1 H2]. destruct (promises w !! p) as [[]|];
    split; assumption.
Qed.

Lemma session_clearTimeout (c : bool) (st : ConnectionStatus) (t : nat) E :
  hoare (session_is c st) (clearTimeout t) (fun _ => session_is c st) E.
Proof. apply hoare_modify. session_frame. Qed.

Lemma session_invoke {A} (c : bool) (st : ConnectionStatus)
    (record : nat -> A -> Delivery) (a : A) (cb : Callback A) :
  preserves (session_is c st) (invoke record a cb).
Proof.
  unfold invoke. apply preserves_bind.
  - apply preserves_modify. session_frame.
  - intros _. destruct (cb_throws cb a); [apply preserves_throw | apply preserves_ret].
Qed.

Lemma updateStatus_sets (c : bool) (st : ConnectionStatus) (error : option string) :
  hoare (fun w => connected w = c) (updateStatus st error)
        (fun _ => session_is c st) (session_is c st).
Proof.
  unfold updateStatus.
  eapply hoare_bind with (R := fun _ => session_is c st).
  { apply hoare_modify. intros w Hw. split; [exact Hw | reflexivity]. }
  intros _. apply preserves_bind.
  { destruct error as [e |]; [destruct (String.eqb e "") |];
      try apply preserves_ret; apply preserves_modify; session_frame. }
  intros _. apply preserves_bind.
  { destruct st; try apply preserves_ret; apply preserves_modify; session_frame. }
  intros _. apply session_log.
Qed.

Lemma hoare_bind_ret {A B} (P : World -> Prop) (Q : B -> World -> Prop) E
    (a : A) (k : A -> M World B) :
  hoare P (k a) Q E -> hoare P (bind (lift (Ret a)) k) Q E.
Proof. intros H w Hw. exact (H w Hw). Qed.

(** The part of [handleResponse] that settles a registered request leaves the
    connection flags alone; it can only throw on a response whose [ok] is
    falsy. *)
Lemma session_settle_registered (c : bool) (st : ConnectionStatus)
    (props : list (string * json)) (id ok : value)
    (pending : option PendingRequest) :
  hoare (session_is c st)
    (match pending with
     | Some pr =>
         clearTimeout (pr_timeout pr) ;;;
         (if truthy ok
          then payload <- lift (get_prop (JObj props) "payload") ;;
               resolve (pr_promise pr) payload
          else e <- lift (request_error (JObj props)) ;;
               reject (pr_promise pr) e) ;;;
         modify (fun w => set_pendingRequests (delete_pending id (pendingRequests w)) w)
     | None => ret tt
     end)
    (fun _ => session_is c st)
    (fun w => session_is c st w /\ truthy ok = false).
Proof.
  destruct pending as [pr |]; [| now apply hoare_ret].
  eapply hoare_bind; [apply session_clearTimeout | intros ?].
  eapply hoare_bind with (R := fun _ => session_is c st).
  - destruct (truthy ok); cbn [get_prop].
    + apply hoare_bind_ret, session_settle.
    + eapply hoare_bind with (R := fun _ => session_is c st);
        [| intros e; apply session_settle].
      apply hoare_lift; auto.
  - intros _. apply hoare_modify. session_frame.
Qed.

Lemma session_on_hello :
  hoare (fun _ => True)
    (modify (set_connected true) ;;;
     updateStatus Connected (Some "Connected") ;;;
     modify (fun w => set_connectionState
                        (with_lastConnectedAt (Some (now w)) (connectionState w)) w) ;;;
     cbs <- gets connectCallbacks ;;
     forEach (invoke OnConnect tt) cbs)
    (fun _ => session_is true Connected) (session_is true Connected).
Proof.
  eapply hoare_bind with (R := fun _ w => connected w = true).
  { apply hoare_modify. reflexivity. }
  intros _. eapply hoare_bind; [apply updateStatus_sets | intros ?].
  apply preserves_bind; [apply preserves_modify; session_frame | intros _].
  apply preserves_bind; [apply preserves_gets | intros cbs].
  apply preserves_forEach. intros cb _. apply session_invoke.
Qed.

(** What [handleResponse] does to the session, for a response object. *)
Lemma session_after_response (props : list (string * json)) (c : bool)
    (st : ConnectionStatus) :
  let hello := taken_for_hello (JObj props) in
  let goal := session_is (c || hello) (if hello then Connected else st) in
  hoare (session_is c st) (handleResponse (JObj props)) (fun _ => goal) goal.
Proof.
  intros hello goal.
  set (ok := assoc "ok" props). set (payload := assoc "payload" props).
  assert (Hhello : hello = truthy ok && payload_is_hello_ok payload) by reflexivity.
  clearbody hello.
  assert (Hsame : hello = false -> forall w1, session_is c st w1 -> goal w1).
  { unfold goal. intros Hf w1 Hw1. rewrite Hf, orb_false_r. exact Hw1. }
  unfold handleResponse. cbn [get_prop]. fold ok payload.
  apply hoare_bind_ret, hoare_bind_ret.
  eapply hoare_bind; [apply session_log | intros ?].
  eapply hoare_bind with (R := fun _ => session_is c st);
    [now apply hoare_gets | intros pending].
  eapply hoare_bind with (R := fun _ => session_is c st).
  { eapply hoare_conseq; [apply session_settle_registered | | |].
    - intros w1 Hw1. exact Hw1.
    - intros ? w1 Hw1. exact Hw1.
    - intros w1 [Hw1 Hb]. apply Hsame; [rewrite Hhello, Hb; reflexivity | exact Hw1]. }
  intros _. apply hoare_bind_ret.
  destruct (truthy ok); cbn [andb] in *;
    [| apply hoare_ret; now apply Hsame].
  destruct payload as [[| b' | x | s | items | pprops] |];
    try (cbn -[PrimFloat.eqb PrimFloat.is_nan];
         repeat first
           [ apply hoare_bind_ret
           | match goal with
             | |- hoare _ (if ?x then _ else _) _ _ => destruct x
             end ];
         apply hoare_ret; apply Hsame; rewrite Hhello; reflexivity).
  cbn [truthy truthy_json typeof_object andb get_of get_prop].
  apply hoare_bind_ret.
  destruct (strict_eq_str (assoc "type" pprops) "hello-ok") eqn:Hty.
  - assert (Hh : hello = true) by (rewrite Hhello; cbn; exact Hty).
    unfold goal. rewrite Hh, orb_true_r.
    eapply hoare_conseq; [apply session_on_hello | | |]; cbn; auto.
  - apply hoare_ret. apply Hsame. rewrite Hhello. cbn. exact Hty.
Qed.


(** *** Frames the receive path does not know *)

Lemma set_console_twice (l1 l2 : list (Level * string)) (w : World) :
  set_console l2 (set_console l1 w) = set_console l2 w.
Proof. reflexivity. Qed.

Lemma set_console_same (w : World) : set_console (console w ++ []) w = w.
Proof. destruct w. unfold set_console. cbn. now rewrite app_nil_r. Qed.

Section Receive.

Variable randomUUID : nat -> string.

Lemma handleMessage_unrecognized (data : option json) (w : World) :
  recognized data = false ->
  exists line, handleMessage randomUUID data w = (Ret tt, set_console (console w ++ [line]) w).
Proof.
  intros Hrec. unfold handleMessage, try_catch, bind.
  destruct data as [d |]; [| eexists; reflexivity].
  destruct d as [| b | x | s | items | props];
    try (eexists; reflexivity).
  cbn in Hrec. cbn [JSON_parse lift get_prop].
  apply orb_false_elim in Hrec as [Hres Hev].
  destruct (template (assoc "type" props)) as [[] | e]; [| eexists; reflexivity].
  destruct (template_or_default (assoc "event" props)) as [[] | e];
    [| eexists; reflexivity].
  destruct (template_or_default (assoc "id" props)) as [[] | e];
    [| eexists; reflexivity].
  cbn. rewrite Hev, Hres. cbn. eexists; reflexivity.
Qed.

Lemma response_handler_unrecognized (h : Handler) (data : option json) (w : World) :
  recognized data = false -> response_handler h data w = (Ret tt, w).
Proof.
  intros Hrec. unfold response_handler, try_catch, bind.
  destruct data as [d |]; [| reflexivity].
  destruct d as [| b | x | s | items | props]; try reflexivity.
  cbn in Hrec. apply orb_false_elim in Hrec as [Hres _].
  cbn. now rewrite Hres.
Qed.

Lemma listeners_unrecognized (s : nat) (data : option json) (l : list Handler) (w : World) :
  recognized data = false ->
  forEach (fun h =>
             still <- gets (fun w => bool_decide
                              (h_id h ∈ h_id <$> from_option listeners [] (sockets w !! s))) ;;
             if still : bool then response_handler h data else ret tt) l w = (Ret tt, w).
Proof.
  intros Hrec. induction l as [| h l IH]; [reflexivity |].
  cbn [forEach]. unfold bind at 1. unfold bind at 1. unfold gets at 1.
  destruct (bool_decide _).
  - rewrite response_handler_unrecognized by exact Hrec. exact IH.
  - cbn. exact IH.
Qed.

(** C6. A message whose text is not JSON, or whose [type] is missing or is
    neither "res" nor "event", goes through the whole receive path (the
    [onmessage] handler and every response listener) without an exception
    leaving it, and the world afterwards differs from the one before only by
    one line of log: the socket reference, the connected flag, the connection
    state, the pending requests, the subscribers, the promises, the timers
    and the sockets are the same. *)
Theorem unrecognized_frame_is_dropped (s : nat) (data : option json) (w : World) :
  recognized data = false ->
  exists line,
    onmessage randomUUID s data w = (Ret tt, set_console (console w ++ [line]) w).
Proof.
  intros Hrec. destruct (handleMessage_unrecognized data w Hrec) as [line Hm].
  exists line. unfold onmessage, bind at 1. rewrite Hm.
  unfold bind, gets. now apply listeners_unrecognized.
Qed.

End Receive.

Lemma unrecognized_frame_is_dropped_witness :
  exists line,
    onmessage uuid 1 (Some ping_frame) fresh_service =
      (Ret tt, set_console (console fresh_service ++ [line]) fresh_service).
Proof. exact (unrecognized_frame_is_dropped uuid 1 (Some ping_frame) fresh_service eq_refl). Defined.

(** *** Event dispatch *)

Lemma until_throw_app (l1 l2 : list (Delivery * bool)) :
  until_throw (l1 ++ l2) =
    if any_throws l1 then until_throw l1 else (until_throw l1 ++ until_throw l2)%list.
Proof.
  induction l1 as [| [d []] l1 IH]; cbn; [reflexivity | reflexivity |].
  rewrite IH. unfold any_throws. now destruct (existsb snd l1).
Qed.

Lemma forEach_invoke {A} (record : nat -> A -> Delivery) (a : A)
    (cbs : list (Callback A)) (w : World) :
  let targets := map (fun cb => (record (cb_id cb) a, cb_throws cb a)) cbs in
  exists o,
    forEach (invoke record a) cbs w =
      (o, set_delivered (delivered w ++ until_throw targets) w) /\
    (any_throws targets = false -> o = Ret tt) /\
    (any_throws targets = true -> exists e, o = Thrown e).
Proof.
  revert w. induction cbs as [| cb cbs IH]; intros w; cbn.
  - exists (Ret tt). destruct w. unfold ret, set_delivered. cbn.
    rewrite app_nil_r. split; [reflexivity |]. split; [reflexivity | discriminate].
  - unfold bind at 1, invoke at 1, bind at 1, modify at 1.
    destruct (cb_throws cb a) eqn:Hthrow.
    + eexists. unfold throw. cbn. split; [reflexivity |].
      split; [discriminate | eauto].
    + unfold ret at 1. cbn [fst snd].
      destruct (IH (set_delivered (delivered w ++ [record (cb_id cb) a]) w))
        as [o [Hrun [Hok Hthr]]].
      exists o. rewrite Hrun. cbn [delivered set_delivered].
      rewrite <- app_assoc. cbn. repeat split; assumption.
Qed.

Section Dispatch.

Variable randomUUID : nat -> string.

Lemma forEach_invoke_returns {A} (record : nat -> A -> Delivery) (a : A)
    (cbs : list (Callback A)) (w : World) :
  let targets := map (fun cb => (record (cb_id cb) a, cb_throws cb a)) cbs in
  exists o,
    forEach (invoke record a) cbs w =
      (o, set_delivered (delivered w ++ until_throw targets) w) /\
    returns o = negb (any_throws targets).
Proof.
  intros targets.
  destruct (forEach_invoke record a cbs w) as (o & Hrun & Hok & Hthr).
  exists o. split; [exact Hrun |]. fold targets in Hok, Hthr.
  destruct (any_throws targets).
  - destruct (Hthr eq_refl) as [e ->]. reflexivity.
  - now rewrite (Hok eq_refl).
Qed.

(** [handleChatEvent] on any payload: the chat subscribers are reached when
    the log line can be built, and not otherwise. *)
Lemma handleChatEvent_delivers (payload : value) (w : World) :
  let targets := chat_targets w payload in
  exists o w' lines,
    handleChatEvent payload w = (o, w') /\
    delivered w' =
      (delivered w ++ if chat_readable payload then until_throw targets else [])%list /\
    console w' = (console w ++ lines)%list /\ log_lines lines /\
    returns o = chat_readable payload && negb (any_throws targets).
Proof.
  intros targets. unfold handleChatEvent, chat_readable.
  destruct (get_of payload "sessionKey") as [k | e] eqn:Hk.
  2: { exists (Thrown e), w, []. unfold bind, lift. cbn.
       rewrite !app_nil_r. repeat split. constructor. }
  assert (Hr : exists r, get_of payload "runId" = Ret r).
  { destruct payload as [[] |]; try discriminate; cbn; eauto. }
  assert (Hs : exists s, get_of payload "state" = Ret s).
  { destruct payload as [[] |]; try discriminate; cbn; eauto. }
  destruct Hr as [r Hr], Hs as [s Hs]. rewrite Hr, Hs.
  unfold bind at 1, lift at 1. unfold bind at 1, lift at 1.
  destruct (template k) as [[] | e].
  2: { exists (Thrown e), w, []. cbn. rewrite !app_nil_r. repeat split. constructor. }
  unfold bind at 1, lift at 1. unfold bind at 1, lift at 1.
  destruct (template r) as [[] | e].
  2: { exists (Thrown e), w, []. cbn. rewrite !app_nil_r. repeat split. constructor. }
  unfold bind at 1, lift at 1. unfold bind at 1, lift at 1.
  destruct (template s) as [[] | e].
  2: { exists (Thrown e), w, []. cbn. rewrite !app_nil_r. repeat split. constructor. }
  unfold bind at 1, log at 1, modify at 1. unfold bind at 1, gets at 1.
  cbn [chatEventCallbacks set_console returns andb].
  match goal with
  | |- context [forEach ?f ?l ?w0] =>
      destruct (forEach_invoke_returns OnChatEvent payload l w0) as (o & Hrun & Hret)
  end.
  rewrite Hrun. exists o. eexists. exists [(LOG, "[Chat Event]")].
  split; [reflexivity |]. cbn [delivered console set_delivered set_console].
  repeat split; [repeat constructor | exact Hret].
Qed.

Lemma get_event_frame (name : string) (seq : option float) (payload : value) :
  let frame := event_frame name seq payload in
  get_prop frame "type" = Ret (Some (JStr "event")) /\
  get_prop frame "event" = Ret (Some (JStr name)) /\
  get_prop frame "id" = Ret None /\
  get_prop frame "seq" = Ret (JNum <$> seq) /\
  get_prop frame "payload" = Ret payload.
Proof. destruct seq, payload; repeat split; reflexivity. Qed.

Lemma template_number (seq : option float) : template_or_default (JNum <$> seq) = Ret tt.
Proof.
  destruct seq as [x |]; [| reflexivity]. cbn -[PrimFloat.eqb PrimFloat.is_nan].
  now rewrite andb_false_r.
Qed.

(** [handleEvent] on any event frame. *)
Lemma handleEvent_delivers (props : list (string * json)) (w : World) :
  let frame := JObj props in
  let payload := assoc "payload" props in
  let is_chat := strict_eq_str (assoc "event" props) "chat" in
  let seq_prints := returns (template_or_default (assoc "seq" props)) in
  let generic := generic_targets w frame in
  let chat := chat_targets w payload in
  exists o w' lines,
    handleEvent frame w = (o, w') /\
    delivered w' =
      (delivered w ++
       if seq_prints
       then until_throw (generic ++ if is_chat && chat_readable payload then chat else [])
       else [])%list /\
    console w' = (console w ++ lines)%list /\ log_lines lines /\
    returns o =
      seq_prints && negb (any_throws generic) &&
      (negb is_chat || chat_readable payload && negb (any_throws chat)).
Proof.
  intros frame payload is_chat seq_prints generic chat.
  unfold handleEvent, frame. cbn [get_prop]. fold payload.
  unfold bind at 1, lift at 1. unfold bind at 1, lift at 1.
  subst seq_prints.
  unfold bind at 1, lift at 1.
  destruct (template_or_default (assoc "seq" props)) as [[] | e].
  2: { exists (Thrown e), w, []. cbn. rewrite !app_nil_r. repeat split. constructor. }
  unfold bind at 1, log at 1, modify at 1.
  unfold bind at 1, gets at 1. unfold bind at 1.
  cbn [eventCallbacks set_console returns andb].
  set (w1 := set_console _ w).
  destruct (forEach_invoke_returns OnEvent (JObj props) (eventCallbacks w) w1)
    as (o & Hrun & Hret).
  cbv zeta in Hrun, Hret. fold frame in Hrun, Hret.
  change (map _ (eventCallbacks w)) with generic in Hrun, Hret.
  fold frame. rewrite Hrun. rewrite until_throw_app.
  destruct (any_throws generic) eqn:Hany.
  - destruct o as [[] | e]; [discriminate |].
    exists (Thrown e). eexists. exists [(LOG, "[Event]")].
    split; [reflexivity |]. repeat split. repeat constructor.
  - destruct o as [[] | e]; [| discriminate]. fold is_chat.
    destruct is_chat eqn:Hchat.
    + unfold bind at 1, lift at 1.
      match goal with
      | |- context [handleChatEvent payload ?w0] =>
          destruct (handleChatEvent_delivers payload w0)
            as (o2 & w2 & lines & Hrun2 & Hdel2 & Hcon2 & Hlines & Hret2)
      end.
      rewrite Hrun2. exists o2, w2, ((LOG, "[Event]") :: lines).
      split; [reflexivity |]. rewrite Hdel2, Hcon2, Hret2.
      cbn [delivered console set_delivered set_console w1 andb negb orb].
      change (chat_targets (set_delivered _ w1) payload) with chat.
      rewrite <- !app_assoc. repeat split.
      * now destruct (chat_readable payload).
      * constructor; [reflexivity | exact Hlines].
    + exists (Ret tt). eexists. exists [(LOG, "[Event]")].
      split; [reflexivity |]. cbn. rewrite !app_nil_r. repeat split. repeat constructor.
Qed.

Lemma template_string (s : string) : template_or_default (Some (JStr s)) = Ret tt.
Proof. cbn. now rewrite andb_false_r. Qed.

Ltac dispatch_done :=
  cbn [andb negb orb app]; rewrite ?app_nil_r; reflexivity.

(** C7 (amended). An inbound event frame other than the connect challenge
    goes to the generic subscribers in registration order and then, when its
    event field is "chat" and the payload can be read (it is neither missing
    nor null, and its sessionKey, runId and state print), to the chat
    subscribers; no subscriber is called at all when the frame's event, id or
    seq cannot be printed.  The calls made are those up to and including the
    first subscriber that throws: no subscriber after it, generic or chat,
    receives the event.  Whatever is thrown, by a subscriber or while a log
    line is built, is caught inside [handleMessage], which then logs the
    error line "[WebSocket] Parse error:" as its last output and returns
    normally; apart from that line only ordinary log lines are written. *)
Theorem throwing_subscriber_ends_dispatch (props : list (string * json)) (w : World) :
  strict_eq_str (assoc "type" props) "event" = true ->
  strict_eq_str (assoc "event" props) "connect.challenge" = false ->
  exists w' lines,
    handleMessage randomUUID (Some (JObj props)) w = (Ret tt, w') /\
    delivered w' = (delivered w ++ until_throw (frame_targets w props))%list /\
    console w' =
      (console w ++ lines ++
       if dispatch_throws w props then [(ERROR, "[WebSocket] Parse error:")] else [])%list /\
    log_lines lines.
Proof.
  intros Hty Hev.
  assert (Hprint : template (assoc "type" props) = Ret tt).
  { destruct (assoc "type" props) as [[] |]; try discriminate. reflexivity. }
  unfold handleMessage, try_catch. cbn [JSON_parse].
  unfold bind at 1, lift at 1. unfold bind at 1, lift at 1. cbn [get_prop].
  unfold bind at 1, lift at 1. rewrite Hprint.
  unfold bind at 1, lift at 1.
  unfold frame_targets, dispatch_throws, announced.
  unfold bind at 1, lift at 1.
  destruct (template_or_default (assoc "event" props)) as [[] | e].
  2: { exists (set_console (console w ++ [(ERROR, "[WebSocket] Parse error:")]) w), [].
       cbn. rewrite app_nil_r. repeat split. constructor. }
  unfold bind at 1, lift at 1. unfold bind at 1, lift at 1.
  destruct (template_or_default (assoc "id" props)) as [[] | e].
  2: { exists (set_console (console w ++ [(ERROR, "[WebSocket] Parse error:")]) w), [].
       cbn. rewrite app_nil_r. repeat split. constructor. }
  unfold bind at 1, log at 1, modify at 1.
  rewrite Hty, Hev. cbn [andb returns negb orb].
  assert (Hres : strict_eq_str (assoc "type" props) "res" = false).
  { destruct (assoc "type" props) as [[| | | s | |] |]; try discriminate.
    cbn in Hty |- *. apply String.eqb_eq in Hty. now subst s. }
  rewrite Hres.
  match goal with
  | |- context [handleEvent (JObj props) ?w0] =>
      destruct (handleEvent_delivers props w0)
        as (o & w1 & lines & Hrun & Hdel & Hcon & Hlines & Hret)
  end.
  rewrite Hrun.
  cbn [delivered console set_console] in Hdel, Hcon.
  change (generic_targets (set_console _ w) (JObj props))
    with (generic_targets w (JObj props)) in Hdel, Hret.
  change (chat_targets (set_console _ w) (assoc "payload" props))
    with (chat_targets w (assoc "payload" props)) in Hdel, Hret.
  assert (Hlog : log_lines ((LOG, "[WebSocket] Received") :: lines)).
  { constructor; [reflexivity | exact Hlines]. }
  destruct (returns (template_or_default (assoc "seq" props)));
    cbn [andb negb orb] in Hret |- *.
  - destruct o as [[] | e]; cbn [returns] in Hret.
    + exists w1, ((LOG, "[WebSocket] Received") :: lines).
      split; [reflexivity |]. split; [exact Hdel |].
      rewrite Hcon, <- !app_assoc. split; [| exact Hlog].
      destruct (any_throws (generic_targets w (JObj props))); [discriminate |].
      cbn [negb andb orb] in Hret |- *.
      destruct (strict_eq_str (assoc "event" props) "chat");
        cbn [negb andb orb] in Hret |- *; [| dispatch_done].
      symmetry in Hret.
      apply andb_true_iff in Hret as [-> Hnone]. apply negb_true_iff in Hnone.
      rewrite Hnone. dispatch_done.
    + eexists. exists ((LOG, "[WebSocket] Received") :: lines).
      split; [reflexivity |]. cbn [delivered console set_console].
      split; [exact Hdel |].
      rewrite Hcon, <- !app_assoc. split; [| exact Hlog].
      destruct (any_throws (generic_targets w (JObj props))); [dispatch_done |].
      cbn [negb andb orb] in Hret |- *.
      destruct (strict_eq_str (assoc "event" props) "chat"); [| discriminate].
      cbn [negb andb orb] in Hret |- *.
      destruct (chat_readable (assoc "payload" props)); [| dispatch_done].
      cbn [negb andb orb] in Hret |- *.
      destruct (any_throws (chat_targets w (assoc "payload" props)));
        [dispatch_done | discriminate].
  - destruct o as [[] | e]; [discriminate |].
    eexists. exists ((LOG, "[WebSocket] Received") :: lines).
    split; [reflexivity |]. cbn [delivered console set_console].
    split; [exact Hdel |].
    rewrite Hcon, <- !app_assoc. split; [dispatch_done | exact Hlog].
Qed.

End Dispatch.

Lemma throwing_subscriber_ends_dispatch_witness :
  exists w' lines,
    handleMessage uuid (Some chat_final) service_with_subscribers = (Ret tt, w') /\
    delivered w' = [OnEvent 1 chat_final] /\
    console w' =
      (console service_with_subscribers ++ lines ++
       [(ERROR, "[WebSocket] Parse error:")])%list.
Proof.
  destruct (throwing_subscriber_ends_dispatch uuid
              [("type", JStr "event"); ("event", JStr "chat"); ("seq", JNum 7);
               ("payload", chat_payload "run-1" "s1" 7 "final" [])]
              service_with_subscribers eq_refl eq_refl)
    as (w' & lines & Hrun & Hdel & Hcon & _).
  exists w', lines. split; [exact Hrun |]. split; [exact Hdel | exact Hcon].
Defined.

(** C7 as stated fails: the first generic subscriber throws on a chat event;
    the generic subscriber registered after it and the chat subscriber are
    never called. *)
Lemma subscriber_after_throw_is_skipped :
  let w := service_with_subscribers in
  let w' := snd (handleMessage uuid (Some chat_final) w) in
  cb_id <$> eventCallbacks w = [1; 2] /\
  cb_id <$> chatEventCallbacks w = [3] /\
  cb_throws (failing_subscriber 1) chat_final = true /\
  delivered w' = [OnEvent 1 chat_final].
Proof. repeat split; reflexivity. Qed.

(** A chat event without a payload reaches the generic subscribers only: the
    chat subscriber is skipped though no subscriber threw, and the error line
    is logged. *)
Example chat_event_without_payload :
  let w := WS.run uuid any_url [CallOnEvent (quiet_subscriber 2);
                                CallOnChatEvent (quiet_subscriber 3)] fresh_service in
  let frame := JObj [("type", JStr "event"); ("event", JStr "chat")] in
  let w' := snd (handleMessage uuid (Some frame) w) in
  delivered w' = [OnEvent 2 frame] /\
  last (console w') = Some (ERROR, "[WebSocket] Parse error:").
Proof. split; reflexivity. Qed.


(** *** Disconnecting *)

Lemma quiet_targets {A} (record : nat -> A -> Delivery) (a : A) (cbs : list (Callback A)) :
  Forall (fun cb => cb_throws cb a = false) cbs ->
  any_throws (map (fun cb => (record (cb_id cb) a, cb_throws cb a)) cbs) = false.
Proof.
  induction 1 as [| cb cbs Hcb _ IH]; [reflexivity |].
  unfold any_throws in *. cbn. now rewrite Hcb, IH.
Qed.

Section Disconnect.

Variable randomUUID : nat -> string.
Variable ws_url_valid : json -> bool.

Lemma updateStatus_runs (st : ConnectionStatus) (error : option string) (w : World) :
  exists cs l,
    updateStatus st error w = (Ret tt, set_console l (set_connectionState cs w)) /\
    status cs = st.
Proof.
  unfold updateStatus, bind, modify, log, ret.
  destruct error as [e |]; [destruct (String.eqb e "") |]; destruct st; cbn;
    eexists; eexists; (split; [reflexivity | reflexivity]).
Qed.

(** With nothing registered in [pendingRequests], [disconnect] only closes
    the socket and records the new status. *)
Lemma disconnect_runs (w : World) :
  pendingRequests w = [] ->
  exists cs l sk,
    disconnect w =
      (Ret tt, set_pendingRequests []
                 (set_console l (set_connectionState cs
                    (set_connected false (set_ws None (set_sockets sk w)))))) /\
    status cs = Disconnected.
Proof.
  intros Hp. unfold disconnect. unfold bind at 1, gets at 1.
  destruct (ws w) as [s |] eqn:Hws.
  - unfold bind at 1. unfold bind at 1, socket_close, update_socket, modify at 1.
    unfold modify at 1. unfold bind at 1, modify at 1. unfold bind at 1.
    match goal with
    | |- context [updateStatus ?st ?e ?w0] =>
        destruct (updateStatus_runs st e w0) as (cs & l & Hrun & Hst)
    end.
    rewrite Hrun. unfold bind at 1, gets at 1. cbn [pendingRequests set_console
      set_connectionState set_connected set_ws set_sockets]. rewrite Hp.
    cbn. exists cs, l. eexists. split; [reflexivity | exact Hst].
  - unfold bind at 1, ret at 1. unfold bind at 1, modify at 1. unfold bind at 1.
    match goal with
    | |- context [updateStatus ?st ?e ?w0] =>
        destruct (updateStatus_runs st e w0) as (cs & l & Hrun & Hst)
    end.
    rewrite Hrun. unfold bind at 1, gets at 1. cbn [pendingRequests set_console
      set_connectionState set_connected]. rewrite Hp.
    cbn. exists cs, l, (sockets w). split; [| exact Hst].
    destruct w; cbn in *. subst. reflexivity.
Qed.

(** [disconnect] settles no promise of a [sendWithResponse] call. *)
Lemma disconnect_settles_nothing (w : World) :
  pendingRequests w = [] -> promises (snd (disconnect w)) = promises w.
Proof.
  intros Hp. destruct (disconnect_runs w Hp) as (cs & l & sk & -> & _). reflexivity.
Qed.

Lemma onclose_runs (code : nat) (reason : string) (w : World) :
  Forall (fun cb => cb_throws cb reason = false) (disconnectCallbacks w) ->
  exists w',
    onclose code reason w = (Ret tt, w') /\
    timers w' = (timers w ++ [{| t_id := fresh w; t_due := (now w + 3000)%N;
                                 t_action := Reconnect |}])%list.
Proof.
  intros Hquiet. unfold onclose. unfold bind at 1, modify at 1. unfold bind at 1.
  match goal with
  | |- context [updateStatus ?st ?e ?w0] =>
      destruct (updateStatus_runs st e w0) as (cs & l & Hrun & Hst)
  end.
  rewrite Hrun. unfold bind at 1, log at 1, modify at 1.
  unfold bind at 1, gets at 1. unfold bind at 1.
  cbn [disconnectCallbacks set_console set_connectionState set_connected].
  match goal with
  | |- context [forEach ?f ?cbs ?w0] =>
      destruct (forEach_invoke OnDisconnect reason cbs w0) as (o & Hfe & Hok & _)
  end.
  rewrite Hfe, Hok.
  - eexists. split; [reflexivity | reflexivity].
  - apply quiet_targets. exact Hquiet.
Qed.

(** X12. An explicit [disconnect()] clears the socket reference,
    the connected flag and sets the status to "disconnected", and it cancels
    nothing: every timer scheduled before the call is still scheduled after
    it.  A close event, also the one of the socket that [disconnect()]
    closed, schedules a reconnect 3000 ms later. *)
Theorem disconnect_cancels_no_reconnect (w : World) (code : nat) (reason : string) :
  pendingRequests w = [] ->
  Forall (fun cb => cb_throws cb reason = false) (disconnectCallbacks w) ->
  let w1 := snd (disconnect w) in
  let w2 := snd (onclose code reason w1) in
  ws w1 = None /\ connected w1 = false /\
  status (connectionState w1) = Disconnected /\
  timers w1 = timers w /\
  timers w2 = (timers w ++ [{| t_id := fresh w; t_due := (now w + 3000)%N;
                               t_action := Reconnect |}])%list.
Proof.
  intros Hp Hquiet w1 w2.
  destruct (disconnect_runs w Hp) as (cs & l & sk & Hrun & Hst).
  subst w2 w1. rewrite Hrun. cbn [snd].
  repeat (split; [first [reflexivity | exact Hst] |]).
  match goal with
  | |- context [onclose ?c ?r ?w0] =>
      destruct (onclose_runs c r w0) as (w' & Hclose & Ht); [exact Hquiet |]
  end.
  rewrite Hclose. exact Ht.
Qed.

End Disconnect.

Lemma disconnect_cancels_no_reconnect_witness :
  let w := run uuid any_url [SocketClose 1 1006 "abnormal"] open_service in
  pendingRequests w = [] /\
  timers w = [{| t_id := 2; t_due := 3000; t_action := Reconnect |}] /\
  timers (snd (disconnect w)) = timers w /\
  timers (snd (onclose 1000 "" (snd (disconnect w)))) =
    [{| t_id := 2; t_due := 3000; t_action := Reconnect |};
     {| t_id := 3; t_due := 3000; t_action := Reconnect |}].
Proof.
  intros w.
  assert (Hp : pendingRequests w = []) by (vm_compute; reflexivity).
  assert (Hq : Forall (fun cb => cb_throws cb "" = false) (disconnectCallbacks w))
    by (vm_compute; constructor).
  destruct (disconnect_cancels_no_reconnect w 1000 "" Hp Hq)
    as (_ & _ & _ & Hkept & Hclose).
  split; [exact Hp |]. split; [vm_compute; reflexivity |].
  split; [exact Hkept |]. rewrite Hclose. vm_compute. reflexivity.
Defined.

(** C3 as stated fails, on two traces with an explicit [disconnect()].  A
    reconnect already scheduled by a dropped connection survives
    [disconnect()] and opens a new socket when it fires; and after
    [disconnect()] on an open connection, the close event of the closed
    socket schedules a reconnect that is carried out 3000 ms later.  In
    neither trace does the caller call [connect()] again. *)
Lemma reconnects_after_explicit_disconnect :
  let scheduled_before :=
    run uuid any_url [SocketClose 1 1006 "abnormal"; CallDisconnect; Advance 3000]
        open_service in
  let scheduled_after :=
    run uuid any_url [CallDisconnect; SocketClose 1 1000 ""; Advance 3000]
        open_service in
  (ws scheduled_before = Some 4 /\
   ready 4 scheduled_before = Some CONNECTING /\
   status (connectionState scheduled_before) = Connecting) /\
  (ws scheduled_after = Some 4 /\
   ready 4 scheduled_after = Some CONNECTING /\
   status (connectionState scheduled_after) = Connecting).
Proof. vm_compute. repeat split; reflexivity. Qed.

(** C2, at a failing input.  Two requests are outstanding on an open
    connection when [disconnect()] is called: after it returns both promises
    are still pending (nothing was registered in [pendingRequests], so the
    loop that rejects with "Connection closed" ran over an empty map), and
    they are settled only by their own timeouts ten seconds after they were
    sent, with [null]. *)
Theorem disconnect_leaves_requests_pending :
  let sent :=
    run uuid any_url [CallSendWithResponse request_r1; CallSendWithResponse request_r2]
        open_service in
  let after := step uuid any_url CallDisconnect sent in
  (promises sent !! 2 = Some Pending /\ promises sent !! 5 = Some Pending) /\
  pendingRequests sent = [] /\
  (promises after !! 2 = Some Pending /\ promises after !! 5 = Some Pending) /\
  ws after = None /\
  promises (step uuid any_url (Advance 9999) after) !! 2 = Some Pending /\
  promises (step uuid any_url (Advance 10000) after) !! 2 = Some (Fulfilled (Some JNull)) /\
  promises (step uuid any_url (Advance 10000) after) !! 5 = Some (Fulfilled (Some JNull)).
Proof. vm_compute. repeat split; reflexivity. Qed.

(** *** Invariants of the event loop *)

Import Invariants.

Section StableRun.

Variable randomUUID : nat -> string.
Variable ws_url_valid : json -> bool.
Variable P : World -> Prop.
Hypothesis HP : Stable randomUUID ws_url_valid P.

Lemma stable_top_level {A} (m : M World A) (w : World) :
  preserves P m -> P w -> P (top_level m w).
Proof.
  intros Hm Hw. apply preserves_top_level; [exact Hm | | exact Hw].
  intros w0 l. apply (st_console _ _ _ HP).
Qed.

Lemma stable_reconnect : preserves P (reconnect ws_url_valid).
Proof.
  unfold reconnect. apply preserves_bind; [apply (st_disconnect _ _ _ HP) | intros _].
  apply (st_connect _ _ _ HP).
Qed.

Lemma stable_fire (t : Timer) (w : World) : P w -> P (fire ws_url_valid t w).
Proof.
  intros Hw. unfold fire. apply stable_top_level.
  - destruct (t_action t) as [| hd]; cbn [run_timer].
    + apply preserves_bind; [apply stable_reconnect | intros _; apply preserves_ret].
    + apply (st_timeout _ _ _ HP).
  - set (w1 := set_timers _ w).
    change (now w) with (now w1). apply (st_clock _ _ _ HP).
    apply (st_fired _ _ _ HP), Hw.
Qed.

Lemma stable_advance (target : N) (w : World) : P w -> P (advance ws_url_valid target w).
Proof.
  unfold advance. generalize (length (timers w)) as fuel. intros fuel. revert w.
  induction fuel as [| fuel IH]; intros w Hw; cbn [advance_loop];
    destruct (next_due target (timers w)) as [t |];
    try (apply (st_clock _ _ _ HP), Hw); [exact Hw |].
  apply IH, stable_fire, Hw.
Qed.

Lemma stable_step (e : Event) (w : World) :
  P w -> P (step randomUUID ws_url_valid e w).
Proof.
  intros Hw. destruct e; cbn [step].
  - apply stable_top_level; [apply (st_connect _ _ _ HP) | exact Hw].
  - apply stable_top_level; [apply (st_disconnect _ _ _ HP) | exact Hw].
  - apply stable_top_level; [apply stable_reconnect | exact Hw].
  - apply stable_top_level; [apply (st_send _ _ _ HP) | exact Hw].
  - apply stable_top_level; [apply (st_sendWithResponse _ _ _ HP) | exact Hw].
  - apply (st_onConnect _ _ _ HP), Hw.
  - apply (st_onDisconnect _ _ _ HP), Hw.
  - apply (st_onEvent _ _ _ HP), Hw.
  - apply (st_onChatEvent _ _ _ HP), Hw.
  - destruct (ready s w) as [[] |]; try exact Hw.
    apply stable_top_level; [| exact Hw].
    apply preserves_bind; [apply (st_readyState _ _ _ HP) | intros _].
    apply (st_onopen _ _ _ HP).
  - destruct (ready s w) as [[] |]; try exact Hw.
    apply stable_top_level; [apply (st_onmessage _ _ _ HP) | exact Hw].
  - destruct (ready s w) as [[] |]; try exact Hw;
      (apply stable_top_level; [| exact Hw];
       apply preserves_bind; [apply (st_readyState _ _ _ HP) | intros _];
       apply (st_onclose _ _ _ HP)).
  - destruct (ready s w) as [[] |]; try exact Hw;
      (apply stable_top_level; [apply (st_onerror _ _ _ HP) | exact Hw]).
  - apply stable_advance, Hw.
Qed.

Lemma stable_run (evs : list Event) (w : World) :
  P w -> P (run randomUUID ws_url_valid evs w).
Proof.
  revert w. induction evs as [| e evs IH]; intros w Hw; [exact Hw |].
  cbn [run fold_left]. apply IH, stable_step, Hw.
Qed.

End StableRun.

Lemma preserves_new_id (P : World -> Prop) :
  (forall w, P w -> P (set_fresh (S (fresh w)) w)) -> preserves P new_id.
Proof. intros H w Hw. now apply H. Qed.

(** A preservation proof by walking through the code: [special] is tried
    first on every operation, [leaf] settles what one state update does to
    the invariant. *)
Ltac sweep_with special leaf :=
  repeat first
    [ special
    | pres_step
    | apply preserves_forEach; intros ? _
    | apply preserves_new_id; leaf
    | apply preserves_modify; leaf
    | progress unfold connect, disconnect, send, sendWithResponse, onopen, onmessage,
        onclose, onerror, request_timeout, remove_from_current, response_handler,
        handleMessage, handleResponse, handleEvent, handleChatEvent, sendConnect,
        updateStatus, invoke, log, log_error, new_promise, settle, resolve, reject,
        setTimeout, clearTimeout, update_socket, addEventListener,
        removeEventListener, socket_send, socket_close ].

Ltac stable_with special leaf :=
  constructor;
  try solve [leaf]; try solve [intros ?; leaf]; try solve [intros ? ?; leaf];
  intros; sweep_with special leaf.

Ltac stable leaf := stable_with fail leaf.

Section Simple.

Variable randomUUID : nat -> string.
Variable ws_url_valid : json -> bool.

Abbreviation Stable' := (Stable randomUUID ws_url_valid).
Abbreviation run' := (run randomUUID ws_url_valid).
Abbreviation reachable' := (reachable randomUUID ws_url_valid).

Lemma no_pending_stable : Stable' no_pending.
Proof.
  stable ltac:(unfold no_pending, delete_pending; intros w Hw; cbn;
               repeat case_match; try exact Hw; try reflexivity;
               try (rewrite Hw; repeat case_match; reflexivity)).
Qed.

Lemma subscribed_stable c1 c2 c3 c4 : Stable' (subscribed c1 c2 c3 c4).
Proof.
  stable ltac:(unfold subscribed; intros w Hw; cbn;
               repeat case_match; try exact Hw;
               try (destruct Hw as (H1 & H2 & H3 & H4); repeat split;
                    try assumption; now apply prefix_app_r)).
Qed.

Lemma has_last_error_stable : Stable' has_last_error.
Proof.
  stable ltac:(unfold has_last_error; intros w Hw; cbn;
               repeat case_match; try exact Hw; eauto).
Qed.

Lemma allocated_new_promise : preserves promises_allocated new_promise.
Proof.
  intros w Hw. cbn. intros q Hq. cbn in Hq |- *.
  apply lookup_insert_is_Some in Hq as [<- | [_ Hq]]; [lia |].
  specialize (Hw q Hq). lia.
Qed.

Lemma promises_allocated_stable : Stable' promises_allocated.
Proof.
  stable_with ltac:(apply allocated_new_promise)
    ltac:(unfold promises_allocated; intros w Hw; cbn;
          repeat (case_match; cbn); try exact Hw;
          try (intros q Hq; specialize (Hw q Hq); lia);
          try (intros q Hq; apply lookup_insert_is_Some in Hq as [<- | [_ Hq]];
               [ apply Hw; eauto | now apply Hw ])).
Qed.

Lemma settled_new_promise p st : preserves (settled_as p st) new_promise.
Proof.
  intros w [Hp Hst]. unfold settled_as. cbn. split; [lia |].
  rewrite lookup_insert_ne by lia. exact Hst.
Qed.

Lemma settled_as_stable p st : st ≠ Pending -> Stable' (settled_as p st).
Proof.
  intros Hst.
  stable_with ltac:(apply settled_new_promise)
    ltac:(unfold settled_as; intros w Hw; cbn;
          repeat (case_match; cbn); try exact Hw;
          try (destruct Hw as [Hp Hv]; split; [lia | exact Hv]);
          try (destruct Hw as [Hp Hv]; split; [exact Hp |];
               rewrite lookup_insert_ne; [exact Hv | congruence])).
Qed.

Lemma reachable_run (evs : list Event) (w : World) :
  reachable' w -> reachable' (run' evs w).
Proof.
  intros (cfg & evs0 & ->). exists cfg, (evs0 ++ evs)%list.
  unfold run. now rewrite fold_left_app.
Qed.

Lemma reachable_new (cfg : Config.ConfigService) : reachable' (new_WebSocketService cfg).
Proof. now exists cfg, []. Qed.

Lemma reachable_no_pending (w : World) : reachable' w -> no_pending w.
Proof.
  intros (cfg & evs & ->). apply stable_run; [apply no_pending_stable | reflexivity].
Qed.

Lemma reachable_allocated (w : World) : reachable' w -> promises_allocated w.
Proof.
  intros (cfg & evs & ->). apply stable_run; [apply promises_allocated_stable |].
  intros p [x Hx]. cbn in Hx. now rewrite lookup_empty in Hx.
Qed.

(** X1. Nothing is ever registered in the [pendingRequests] map: in every
    state the service can reach it is empty. *)
Theorem pending_requests_stay_empty (w : World) :
  reachable' w -> pendingRequests w = [].
Proof. apply reachable_no_pending. Qed.

(** X2. Subscriptions are append-only: whatever happens (calls, socket
    events, timers), each of the four subscriber lists afterwards begins with
    the list as it was before. *)
Theorem subscriptions_only_grow (evs : list Event) (w : World) :
  connectCallbacks w `prefix_of` connectCallbacks (run' evs w) /\
  disconnectCallbacks w `prefix_of` disconnectCallbacks (run' evs w) /\
  eventCallbacks w `prefix_of` eventCallbacks (run' evs w) /\
  chatEventCallbacks w `prefix_of` chatEventCallbacks (run' evs w).
Proof.
  apply (stable_run _ _ _ (subscribed_stable _ _ _ _)). repeat split; reflexivity.
Qed.

(** X3. The last error is never cleared: once the connection state carries
    one, it carries one after every further sequence of events, also after a
    successful reconnection. *)
Theorem last_error_is_never_cleared (evs : list Event) (w : World) :
  is_Some (lastError (connectionState w)) ->
  is_Some (lastError (connectionState (run' evs w))).
Proof. apply (stable_run _ _ _ has_last_error_stable). Qed.

(** X4. A settled promise keeps its outcome: once a promise of a reachable
    state is fulfilled or rejected, no later response, timeout, disconnect
    or reconnect changes it. *)
Theorem settled_promise_never_changes (evs : list Event) (w : World) (p : nat)
    (st : PromiseState) :
  reachable' w -> promises w !! p = Some st -> st ≠ Pending ->
  promises (run' evs w) !! p = Some st.
Proof.
  intros Hw Hp Hst.
  apply (stable_run _ _ _ (settled_as_stable p st Hst)).
  split; [| exact Hp]. apply (reachable_allocated w Hw). eauto.
Qed.

Lemma coherent_drop {A} (e : option string) (rest : unit -> M World A) :
  (forall a, preserves coherent (rest a)) ->
  preserves coherent
    (bind (modify (set_connected false))
          (fun _ => bind (updateStatus Disconnected e) rest)).
Proof.
  intros Hrest.
  eapply hoare_bind with (R := fun _ _ => True); [now apply hoare_modify | intros _].
  eapply hoare_bind with (R := fun _ => coherent); [| exact Hrest].
  intros w _. destruct (updateStatus_runs Disconnected e w) as (cs & l & -> & Hst).
  unfold coherent. cbn. rewrite Hst. discriminate.
Qed.

Lemma flagged_rest :
  preserves flagged
    (updateStatus Connected (Some "Connected") ;;;
     modify (fun w => set_connectionState
                        (with_lastConnectedAt (Some (now w)) (connectionState w)) w) ;;;
     cbs <- gets connectCallbacks ;;
     forEach (invoke OnConnect tt) cbs).
Proof.
  sweep_with fail ltac:(unfold flagged; intros w Hw; cbn; exact Hw).
Qed.

Lemma coherent_hello :
  preserves coherent
    (modify (set_connected true) ;;;
     updateStatus Connected (Some "Connected") ;;;
     modify (fun w => set_connectionState
                        (with_lastConnectedAt (Some (now w)) (connectionState w)) w) ;;;
     cbs <- gets connectCallbacks ;;
     forEach (invoke OnConnect tt) cbs).
Proof.
  eapply hoare_bind with (R := fun _ => flagged); [now apply hoare_modify | intros u].
  eapply hoare_conseq; [apply flagged_rest | auto | |]; cbn; intros; intros _; assumption.
Qed.

Lemma coherent_stable : Stable' coherent.
Proof.
  stable_with ltac:(first [apply coherent_drop; intros ? | apply coherent_hello])
    ltac:(unfold coherent; intros w Hw; cbn;
          repeat (case_match; cbn); try exact Hw; try discriminate).
Qed.

(** X5. The service's own code keeps the status and the flag together: in
    every state that calls of connect, disconnect, reconnect, send,
    sendWithResponse and the four subscription methods, socket events and
    timers lead to from a new service, a reported status "connected" comes
    with [isConnected()] true.  The public [updateStatus] is not among these
    calls and does not keep the property: called with "connected" on a new
    service, it makes the status "connected" while [isConnected()] is
    false. *)
Theorem status_connected_implies_flag (cfg : Config.ConfigService) (evs : list Event) :
  let w := run randomUUID ws_url_valid evs (new_WebSocketService cfg) in
  (status (getConnectionState w) = Connected -> isConnected w = true) /\
  (forall error : option string,
     let w' := snd (updateStatus Connected error (new_WebSocketService cfg)) in
     status (getConnectionState w') = Connected /\ isConnected w' = false).
Proof.
  intros w. split.
  - apply (stable_run _ _ _ coherent_stable). discriminate.
  - intros error w'. subst w'.
    destruct (updateStatus_runs Connected error (new_WebSocketService cfg))
      as (cs & l & -> & Hst).
    split; [exact Hst | reflexivity].
Qed.

End Simple.

Lemma open_service_reachable : reachable uuid any_url open_service.
Proof. apply reachable_run, reachable_new. Qed.

Lemma pending_requests_stay_empty_witness :
  pendingRequests
    (run uuid any_url [CallSendWithResponse request_r1; CallDisconnect] open_service) = [].
Proof.
  apply (pending_requests_stay_empty uuid any_url).
  apply reachable_run, open_service_reachable.
Defined.

Lemma last_error_is_never_cleared_witness :
  let w := run uuid any_url [SocketError 1] open_service in
  is_Some (lastError (connectionState
             (run uuid any_url [SocketMessage 1 (Some hello_frame)] w))).
Proof.
  intros w. apply last_error_is_never_cleared. vm_compute. eauto.
Defined.

Lemma settled_promise_never_changes_witness :
  promises (run uuid any_url [SocketError 1; CallDisconnect] open_service) !! 0 =
    Some (Fulfilled None).
Proof.
  apply settled_promise_never_changes.
  - apply open_service_reachable.
  - vm_compute. reflexivity.
  - discriminate.
Defined.

Lemma status_connected_implies_flag_witness :
  let w := run uuid any_url
             [CallConnect None; SocketOpen 1; SocketMessage 1 (Some hello_frame)]
             fresh_service in
  status (getConnectionState w) = Connected /\ isConnected w = true.
Proof.
  intros w.
  assert (Hst : status (getConnectionState w) = Connected) by (vm_compute; reflexivity).
  split; [exact Hst |].
  destruct (status_connected_implies_flag uuid any_url
              (Config.new_ConfigService None None)
              [CallConnect None; SocketOpen 1; SocketMessage 1 (Some hello_frame)])
    as [Hflag _].
  exact (Hflag Hst).
Defined.

(** *** The handshake, on the receive path *)

Section Handshake.

Variable randomUUID : nat -> string.

Ltac session_leaf :=
  intros w [H1 H2]; split; cbn; repeat (case_match; cbn); assumption.

Lemma session_sendConnect c st : preserves (session_is c st) (sendConnect randomUUID).
Proof. sweep_with fail session_leaf. Qed.

Lemma session_handleEvent c st (d : json) : preserves (session_is c st) (handleEvent d).
Proof. sweep_with fail session_leaf. Qed.

Lemma session_log_error c st (data : option json) (msg : string) :
  hoare (entered data c st) (log_error msg)
        (fun _ => entered data c st) (entered data c st).
Proof.
  apply hoare_modify.
  intros w0 [[H1 H2] | [Hh [H1 H2]]]; [left | right; split; [exact Hh |]];
    split; assumption.
Qed.

(** Whatever is received, the session stays as it was unless the data is a
    response frame that [handleResponse] takes for a handshake. *)
Lemma session_receive (data : option json) (c : bool) (st : ConnectionStatus) :
  hoare (session_is c st) (handleMessage randomUUID data)
        (fun _ => entered data c st) (entered data c st).
Proof.
  unfold handleMessage.
  eapply hoare_try_catch with (E' := entered data c st);
    [| intros e; now apply session_log_error].
  assert (Hleft : forall w, session_is c st w -> entered data c st w)
    by (intros w Hw; now left).
  assert (Hkeep : forall m : M World unit,
            preserves (session_is c st) m ->
            hoare (session_is c st) m (fun _ => entered data c st) (entered data c st)).
  { intros m Hm. eapply hoare_conseq; [exact Hm | auto | intros ?; exact Hleft | exact Hleft]. }
  destruct data as [d |]; [| apply hoare_lift; [discriminate | intros e w _; apply Hleft]].
  cbn [JSON_parse]. apply hoare_bind_ret.
  destruct (get_prop d "type") as [ty | e] eqn:Hty;
    [apply hoare_bind_ret | now apply hoare_bind_thrown].
  eapply hoare_bind with (R := fun _ => session_is c st);
    [apply hoare_lift; [now intros | intros ? w _; apply Hleft] | intros _].
  destruct (get_prop d "event") as [ev | e] eqn:Hev;
    [apply hoare_bind_ret | now apply hoare_bind_thrown].
  eapply hoare_bind with (R := fun _ => session_is c st);
    [apply hoare_lift; [now intros | intros ? w _; apply Hleft] | intros _].
  destruct (get_prop d "id") as [id | e] eqn:Hid;
    [apply hoare_bind_ret | now apply hoare_bind_thrown].
  eapply hoare_bind with (R := fun _ => session_is c st);
    [apply hoare_lift; [now intros | intros ? w _; apply Hleft] | intros _].
  eapply hoare_bind with (R := fun _ => session_is c st);
    [apply session_log | intros _].
  destruct (strict_eq_str ty "event" && strict_eq_str ev "connect.challenge");
    [apply Hkeep, session_sendConnect |].
  destruct (strict_eq_str ty "res") eqn:Hres.
  - destruct d as [| | | | | props];
      try (cbn in Hty; first [discriminate Hty | injection Hty as <-; discriminate Hres]).
    assert (Hin : taken_for_hello (JObj props) = true -> hello_response (Some (JObj props)) = true).
    { intros Hhello. unfold hello_response. now rewrite Hty, Hres, Hhello. }
    eapply hoare_conseq; [apply (session_after_response props c st) | auto | |].
    + intros ? w. cbv zeta.
      destruct (taken_for_hello (JObj props)).
      * intros Hw. right. split; [now apply Hin | now rewrite orb_true_r in Hw].
      * rewrite orb_false_r. apply Hleft.
    + intros w. cbv zeta.
      destruct (taken_for_hello (JObj props)).
      * intros Hw. right. split; [now apply Hin | now rewrite orb_true_r in Hw].
      * rewrite orb_false_r. apply Hleft.
  - destruct (strict_eq_str ty "event"); [apply Hkeep, session_handleEvent |].
    now apply hoare_ret.
Qed.

(** C1 (amended). [handleResponse] sets the connected flag and the
    "connected" status exactly when the response's [ok] is truthy (it is not
    compared with [true]) and its payload is an object whose [type] is
    "hello-ok"; in every other case, among them a truthy [ok] with any other
    payload and a falsy [ok] with a "hello-ok" payload, both are left as they
    were.  On the receive path as a whole, whatever data arrives, the session
    is left as it was unless the data is a response frame of that kind: only
    then does it enter the connected state. *)
Theorem session_connects_on_truthy_ok_and_hello (w : World) :
  (forall response : json,
     let w' := snd (handleResponse response w) in
     let hello := taken_for_hello response in
     connected w' = connected w || hello /\
     status (connectionState w') =
       (if hello then Connected else status (connectionState w))) /\
  (forall data : option json,
     let w' := snd (handleMessage randomUUID data w) in
     (connected w' = connected w /\
      status (connectionState w') = status (connectionState w)) \/
     (hello_response data = true /\
      connected w' = true /\ status (connectionState w') = Connected)).
Proof.
  split.
  - intros response w' hello.
    destruct response as [| b | x | s | items | props];
      try (subst w' hello; cbn; now rewrite orb_false_r).
    pose proof (session_after_response props (connected w) (status (connectionState w))
                  w (conj eq_refl eq_refl)) as H.
    subst w' hello. destruct (handleResponse (JObj props) w) as [[[] | e] w1]; exact H.
  - intros data w'.
    pose proof (session_receive data (connected w) (status (connectionState w))
                  w (conj eq_refl eq_refl)) as H.
    subst w'. destruct (handleMessage randomUUID data w) as [[[] | e] w1]; exact H.
Qed.

End Handshake.

(** C1 as stated fails: the envelope's [ok] is the string "no", not [true],
    and the response still takes the service into the connected state, both
    in [handleResponse] and through the receive path. *)
Lemma truthy_ok_is_taken_for_true :
  let w := snd (handleResponse lax_hello_frame fresh_service) in
  let w' := snd (handleMessage uuid (Some lax_hello_frame) fresh_service) in
  get_prop lax_hello_frame "ok" = Ret (Some (JStr "no")) /\
  connected fresh_service = false /\
  (connected w = true /\ status (connectionState w) = Connected) /\
  (connected w' = true /\ status (connectionState w') = Connected).
Proof. repeat split; reflexivity. Qed.

(** A handshake with [ok: true] is a login; an acknowledged request is not. *)
Example hello_frame_connects :
  connected (snd (handleResponse hello_frame fresh_service)) = true /\
  status (connectionState (snd (handleResponse hello_frame fresh_service))) = Connected.
Proof. split; reflexivity. Qed.

Example ok_without_hello_stays_out :
  connected (snd (handleResponse ack_frame fresh_service)) = false /\
  status (connectionState (snd (handleResponse ack_frame fresh_service))) = Disconnected.
Proof. split; reflexivity. Qed.

(** *** Single operations *)

Lemma any_throws_elem {A} (record : nat -> A -> Delivery) (a : A) (cbs : list (Callback A)) :
  (exists cb, cb ∈ cbs /\ cb_throws cb a = true) ->
  any_throws (map (fun cb => (record (cb_id cb) a, cb_throws cb a)) cbs) = true.
Proof.
  intros (cb & Hin & Hthrow). unfold any_throws.
  induction cbs as [| c cbs IH]; [inversion Hin |]. cbn.
  apply elem_of_cons in Hin as [<- | Hin]; [now rewrite Hthrow |].
  rewrite IH by exact Hin. apply orb_true_r.
Qed.

Section Ops.

Variable randomUUID : nat -> string.
Variable ws_url_valid : json -> bool.

Lemma send_dropped (frame : RequestFrame) (w : World) :
  open_socket w = None ->
  send frame w =
    (Ret tt, set_console (console w ++ [(ERROR, "[WebSocket] Cannot send, not connected")]) w).
Proof. intros Hopen. unfold send, bind, gets. rewrite Hopen. reflexivity. Qed.

Lemma send_delivered (frame : RequestFrame) (w : World) (s : nat) (k : Socket) :
  open_socket w = Some s -> sockets w !! s = Some k ->
  exists w',
    send frame w = (Ret tt, w') /\
    sockets w' = <[s := with_sent (sent k ++ [frame]) k]> (sockets w) /\
    delivered w' = delivered w /\ promises w' = promises w /\ timers w' = timers w.
Proof.
  intros Hopen Hk. unfold send, bind, gets. rewrite Hopen.
  unfold socket_send, update_socket, modify, log, bind. cbn.
  eexists. split; [reflexivity |]. cbn. repeat split.
  apply map_eq. intros i. destruct (decide (i = s)) as [-> | Hne].
  - now rewrite lookup_alter_eq, lookup_insert_eq, Hk.
  - now rewrite lookup_alter_ne, lookup_insert_ne by congruence.
Qed.

Lemma open_socket_exists (w : World) (s : nat) :
  open_socket w = Some s ->
  exists k, sockets w !! s = Some k /\ readyState k = OPEN /\ ws w = Some s.
Proof.
  unfold open_socket. destruct (ws w) as [s' |]; [| discriminate]. cbn.
  destruct (sockets w !! s') as [k |] eqn:Hk; [| discriminate]. cbn.
  destruct (readyState k) eqn:Hr; try discriminate. intros [= <-]. eauto.
Qed.

(** X6. [send] never queues: without an open socket the frame is dropped and
    only an error is logged; with one, the frame is appended to what that
    socket has sent and no other socket is touched. *)
Theorem send_needs_an_open_socket (frame : RequestFrame) (w : World) :
  (open_socket w = None ->
   send frame w =
     (Ret tt,
      set_console (console w ++ [(ERROR, "[WebSocket] Cannot send, not connected")]) w)) /\
  (forall s, open_socket w = Some s ->
     exists k w',
       sockets w !! s = Some k /\
       send frame w = (Ret tt, w') /\
       sockets w' = <[s := with_sent (sent k ++ [frame]) k]> (sockets w)).
Proof.
  split; [apply send_dropped |]. intros s Hopen.
  destruct (open_socket_exists w s Hopen) as (k & Hk & _).
  destruct (send_delivered frame w s k Hopen Hk) as (w' & Hrun & Hs & _).
  now exists k, w'.
Qed.

(** X7. Without an open socket [sendWithResponse] answers at once: the
    promise it returns is already resolved with [null], no timer is
    scheduled, and no socket gets a listener or a frame. *)
Theorem sendWithResponse_without_socket (frame : RequestFrame) (w : World) :
  open_socket w = None ->
  exists w',
    sendWithResponse frame w = (Ret (fresh w), w') /\
    promises w' !! fresh w = Some (Fulfilled (Some JNull)) /\
    timers w' = timers w /\ sockets w' = sockets w.
Proof.
  intros Hopen. unfold sendWithResponse, new_promise, new_id, bind, gets, modify, ret.
  cbn. unfold open_socket in *. cbn. rewrite Hopen. cbn.
  rewrite lookup_insert_eq. eexists. split; [reflexivity |]. cbn.
  rewrite lookup_insert_eq. auto.
Qed.

(** X8. The connect challenge is answered, not dispatched: on an event frame
    named "connect.challenge" of the [EventFrame] shape (type, event, an
    optional numeric seq and an optional payload; no id, so every field the
    log line prints can be printed) no subscriber is called; when a socket is
    open exactly one request frame with method "connect" (carrying the
    handshake parameters built from the configured token) is sent on it, and
    otherwise nothing is sent. *)
Theorem challenge_is_answered_not_dispatched (seq : option float) (payload : value)
    (w : World) :
  let frame := event_frame "connect.challenge" seq payload in
  let token := Config.getGatewayToken (configService w) in
  exists w',
    handleMessage randomUUID (Some frame) w = (Ret tt, w') /\
    delivered w' = delivered w /\
    (forall s, open_socket w = Some s ->
       exists k, sockets w !! s = Some k /\
       sockets w' =
         <[s := with_sent (sent k ++ [connect_frame (randomUUID (fresh w)) token]) k]>
           (sockets w)) /\
    (open_socket w = None -> sockets w' = sockets w).
Proof.
  intros frame token.
  destruct (get_event_frame "connect.challenge" seq payload) as (Hty & Hev & Hid & Hseq & Hpl).
  fold frame in Hty, Hev, Hid, Hseq, Hpl. clearbody frame.
  unfold handleMessage, try_catch. cbn [JSON_parse].
  unfold bind at 1, lift at 1. rewrite Hty.
  unfold bind at 1, lift at 1. cbn [template to_string_throws].
  unfold bind at 1, lift at 1. rewrite Hev.
  unfold bind at 1, lift at 1. rewrite template_string.
  unfold bind at 1, lift at 1. rewrite Hid.
  unfold bind at 1, lift at 1. cbn [template_or_default].
  unfold bind at 1, lift at 1. unfold bind at 1, log at 1, modify at 1.
  cbn [strict_eq_str String.eqb Ascii.eqb Bool.eqb andb].
  unfold sendConnect, bind at 1, gets at 1. unfold bind at 1, new_id at 1.
  cbn [configService set_console fresh].
  match goal with
  | |- context [send ?f ?w0] =>
      assert (Hsame : open_socket w0 = open_socket w) by reflexivity;
      assert (Hsock : sockets w0 = sockets w) by reflexivity;
      assert (Hdel : delivered w0 = delivered w) by reflexivity;
      set (w1 := w0) in *
  end.
  clearbody w1.
  destruct (open_socket w) as [s |] eqn:Hopen.
  - destruct (open_socket_exists w1 s Hsame) as (k & Hk & _).
    destruct (send_delivered (connect_frame (randomUUID (fresh w)) token) w1 s k Hsame Hk)
      as (w' & Hrun & Hs & Hd & _).
    unfold connect_frame in Hrun. fold token. rewrite Hrun.
    exists w'. split; [reflexivity |]. split; [congruence |].
    split; [| discriminate]. intros s' [= <-]. exists k. split; congruence.
  - rewrite (send_dropped _ _ Hsame). eexists. split; [reflexivity |].
    split; [exact Hdel |]. split; [discriminate | intros _; exact Hsock].
Qed.
(** X9. A disconnect subscriber that throws stops the close handler before
    it schedules the reconnect: the exception leaves [onclose], the flag and
    the status are already "disconnected", and the timers are as before. *)
Theorem throwing_disconnect_subscriber_blocks_reconnect (code : nat) (reason : string)
    (w : World) :
  (exists cb, cb ∈ disconnectCallbacks w /\ cb_throws cb reason = true) ->
  exists e w',
    onclose code reason w = (Thrown e, w') /\
    timers w' = timers w /\
    connected w' = false /\ status (connectionState w') = Disconnected.
Proof.
  intros Hthrow. unfold onclose. unfold bind at 1, modify at 1. unfold bind at 1.
  match goal with
  | |- context [updateStatus ?st ?e ?w0] =>
      destruct (updateStatus_runs st e w0) as (cs & l & Hrun & Hst)
  end.
  rewrite Hrun. unfold bind at 1, log at 1, modify at 1.
  unfold bind at 1, gets at 1. unfold bind at 1.
  cbn [disconnectCallbacks set_console set_connectionState set_connected].
  match goal with
  | |- context [forEach ?f ?cbs ?w0] =>
      destruct (forEach_invoke OnDisconnect reason cbs w0) as (o & Hfe & _ & Hthr)
  end.
  rewrite Hfe. destruct Hthr as [e ->]; [now apply any_throws_elem |].
  exists e. eexists. split; [reflexivity |]. cbn. auto.
Qed.

(** X10. [connect] always starts a new connection, provided the URL it uses
    (the argument, or the configured gateway URL when the argument is falsy)
    can be printed in the log line.  With a URL the platform accepts it
    creates a socket in state CONNECTING and makes it the current one,
    leaving every existing socket as it is (a previous connection is neither
    reused nor closed); with a URL it refuses, the returned promise is
    rejected and the socket reference is unchanged.  In both cases the status
    is left at "connecting" and the connected flag is unchanged. *)
Theorem connect_outcome (url : value) (w : World) :
  let g := chosen_url url w in
  let p := fresh w in
  to_string_throws g = false ->
  exists w',
    connect ws_url_valid url w = (Ret p, w') /\
    status (connectionState w') = Connecting /\ connected w' = connected w /\
    if ws_url_valid g
    then ws w' = Some (S p) /\
         sockets w' = <[S p := {| readyState := CONNECTING; connect_promise := p;
                                  listeners := []; sent := [] |}]> (sockets w) /\
         promises w' = <[p := Pending]> (promises w)
    else ws w' = ws w /\ sockets w' = sockets w /\
         exists e, promises w' = <[p := Rejected e]> (promises w).
Proof.
  intros g p Hstr. unfold connect, new_promise, new_id.
  unfold bind at 1. unfold bind at 1. unfold modify at 1. unfold bind at 1, ret at 1.
  unfold bind at 1, try_catch at 1. unfold bind at 1, gets at 1.
  cbn [configService set_promises set_fresh].
  fold (chosen_url url w). fold g. fold p.
  unfold bind at 1.
  match goal with
  | |- context [updateStatus ?st ?e ?w0] =>
      destruct (updateStatus_runs st e w0) as (cs & l & Hrun & Hst)
  end.
  rewrite Hrun. unfold bind at 1, lift at 1, template. rewrite Hstr.
  unfold bind at 1, log at 1, modify at 1. unfold try_catch.
  destruct (ws_url_valid g).
  - cbn. eexists. split; [reflexivity |]. cbn. auto.
  - cbn. rewrite lookup_insert_eq. eexists. split; [reflexivity |]. cbn.
    rewrite insert_insert_eq. eauto 10.
Qed.


Lemma lookup_pending_nil (id : value) : lookup_pending id [] = None.
Proof. now destruct id as [[] |]. Qed.

(** With nothing registered in [pendingRequests], a response object is
    logged and, when it is taken for a handshake, starts the session. *)
Lemma handleResponse_runs (props : list (string * json)) (w : World) :
  pendingRequests w = [] ->
  let logged := set_console (console w ++ [(LOG, "[Response]")]) w in
  handleResponse (JObj props) w =
    if taken_for_hello (JObj props)
    then (modify (set_connected true) ;;;
          updateStatus Connected (Some "Connected") ;;;
          modify (fun w => set_connectionState
                             (with_lastConnectedAt (Some (now w)) (connectionState w)) w) ;;;
          cbs <- gets connectCallbacks ;;
          forEach (invoke OnConnect tt) cbs) logged
    else (Ret tt, logged).
Proof.
  intros Hp logged. unfold handleResponse, taken_for_hello. cbn [get_prop].
  set (ok := assoc "ok" props). set (payload := assoc "payload" props).
  unfold bind at 1, lift at 1. unfold bind at 1, lift at 1.
  unfold bind at 1, log at 1, modify at 1. unfold bind at 1, gets at 1.
  cbn [pendingRequests set_console]. rewrite Hp, lookup_pending_nil.
  unfold bind at 1, ret at 1. unfold bind at 1, lift at 1. fold logged.
  destruct (truthy ok); cbn [andb]; [| reflexivity].
  destruct payload as [[| b | x | s | items | pprops] |];
    cbn -[PrimFloat.eqb PrimFloat.is_nan];
    repeat match goal with
           | |- context [if ?x then _ else _] => destruct x
           end; reflexivity.
Qed.

(** X11. In every reachable state [handleResponse] itself settles no promise
    and cancels no timer, whatever the response.  A response that is not
    taken for a handshake (its [ok] is falsy, or its payload is not an object
    of type "hello-ok") reaches no subscriber and changes nothing but the
    log.  A handshake response calls the connect subscribers, which run
    inside [handleResponse] and may themselves send requests; with none
    registered, promises and timers are again untouched.  Requests are
    answered only by the listeners that [sendWithResponse] installs. *)
Theorem handleResponse_settles_nothing (response : json) (w : World) :
  reachable randomUUID ws_url_valid w ->
  taken_for_hello response = false \/ connectCallbacks w = [] ->
  let w' := snd (handleResponse response w) in
  promises w' = promises w /\ timers w' = timers w /\ pendingRequests w' = [] /\
  delivered w' = delivered w /\
  (taken_for_hello response = false ->
   exists lines, w' = set_console (console w ++ lines) w).
Proof.
  intros Hw Hquiet w'.
  assert (Hp : pendingRequests w = []) by now apply reachable_no_pending in Hw.
  assert (Hsame : w = set_console (console w ++ []) w).
  { destruct w. unfold set_console. cbn. now rewrite app_nil_r. }
  destruct response as [| b | x | s | items | props].
  1: { subst w'. cbn. do 4 (split; [assumption || reflexivity |]).
       intros _. now exists []. }
  1-4: subst w'; unfold handleResponse, bind, lift, log, modify, gets, ret;
    cbn [get_prop pendingRequests set_console]; rewrite Hp; cbn;
    do 4 (split; [assumption || reflexivity |]);
    intros _; now exists [(LOG, "[Response]")].
  subst w'. rewrite (handleResponse_runs props w Hp).
  destruct (taken_for_hello (JObj props)) eqn:Hhello.
  - destruct Hquiet as [Hno | Hcbs]; [discriminate |].
    unfold bind at 1, modify at 1. unfold bind at 1.
    match goal with
    | |- context [updateStatus ?st ?e ?w0] =>
        destruct (updateStatus_runs st e w0) as (cs & l & -> & _)
    end.
    unfold bind, modify, gets. cbn. rewrite Hcbs. cbn.
    do 4 (split; [assumption || reflexivity |]). discriminate.
  - cbn. do 4 (split; [assumption || reflexivity |]).
    intros _. now exists [(LOG, "[Response]")].
Qed.

Lemma sendWithResponse_registers (frame : RequestFrame) (w : World) (s : nat) (k : Socket) :
  open_socket w = Some s -> sockets w !! s = Some k ->
  exists w',
    sendWithResponse frame w = (Ret (fresh w), w') /\
    promises w' = <[fresh w := Pending]> (promises w) /\
    sockets w' =
      <[s := with_sent (sent k ++ [frame])
               (with_listeners (listeners k ++ [handler_of frame w]) k)]> (sockets w) /\
    timers w' = (timers w ++ [timer_of frame w])%list /\
    fresh w' = S (S (S (fresh w))) /\
    pendingRequests w' = pendingRequests w /\ ws w' = ws w /\ now w' = now w.
Proof.
  intros Hopen Hk.
  unfold sendWithResponse, new_promise, new_id, setTimeout, new_id, addEventListener,
    socket_send, update_socket, log, bind, gets, modify, ret.
  cbn. unfold open_socket in *. cbn. rewrite Hopen. cbn.
  eexists. split; [reflexivity |]. cbn. repeat split.
  apply map_eq. intros i. destruct (decide (i = s)) as [-> | Hne].
  - rewrite lookup_alter_eq, lookup_alter_eq, lookup_insert_eq, Hk. reflexivity.
  - rewrite !lookup_alter_ne, lookup_insert_ne by congruence. reflexivity.
Qed.

(** X13. [disconnect()] does not settle outstanding requests: a request sent
    with [sendWithResponse] on an open socket of a reachable state is still
    pending after [disconnect()] has returned, and its own timeout is still
    scheduled; the socket reference is cleared and [pendingRequests] is
    empty. *)
Theorem disconnect_leaves_request_outstanding (frame : RequestFrame) (w : World) (s : nat) :
  reachable randomUUID ws_url_valid w ->
  open_socket w = Some s ->
  let sent := snd (sendWithResponse frame w) in
  let after := snd (disconnect sent) in
  promises sent !! fresh w = Some Pending /\
  promises after !! fresh w = Some Pending /\
  timer_of frame w ∈ timers after /\
  ws after = None /\ pendingRequests after = [].
Proof.
  intros Hw Hopen sent after.
  destruct (open_socket_exists w s Hopen) as (k & Hk & _).
  destruct (sendWithResponse_registers frame w s k Hopen Hk)
    as (w1 & Hrun & Hp & Hs & Ht & Hf & Hpend & Hws & Hnow).
  subst after sent. rewrite Hrun. cbn [snd].
  assert (Hnp : pendingRequests w1 = []).
  { rewrite Hpend. now apply reachable_no_pending in Hw. }
  destruct (disconnect_runs w1 Hnp) as (cs & l & sk & Hd & _). rewrite Hd. cbn.
  rewrite Hp, lookup_insert_eq, Ht. repeat split. apply elem_of_app. right. constructor.
Qed.

End Ops.

Lemma sendWithResponse_without_socket_witness :
  exists w',
    sendWithResponse request_r1 fresh_service = (Ret 0, w') /\
    promises w' !! 0 = Some (Fulfilled (Some JNull)) /\
    timers w' = [] /\ sockets w' = ∅.
Proof. exact (sendWithResponse_without_socket request_r1 fresh_service eq_refl). Defined.

Lemma throwing_disconnect_subscriber_blocks_reconnect_witness :
  let w := run uuid any_url [CallOnDisconnect (failing_subscriber 1)] open_service in
  exists e w',
    onclose 1006 "abnormal" w = (Thrown e, w') /\ timers w' = timers w /\
    connected w' = false /\ status (connectionState w') = Disconnected.
Proof.
  intros w. apply throwing_disconnect_subscriber_blocks_reconnect.
  exists (failing_subscriber 1). split; [vm_compute; constructor | reflexivity].
Defined.

Lemma connect_outcome_witness :
  exists w',
    connect any_url None open_service = (Ret 2, w') /\
    status (connectionState w') = Connecting /\
    ws w' = Some 3 /\ ready 1 w' = Some OPEN /\ ready 3 w' = Some CONNECTING.
Proof.
  assert (Hs : to_string_throws (chosen_url None open_service) = false)
    by (vm_compute; reflexivity).
  destruct (connect_outcome any_url None open_service Hs) as (w' & Hrun & Hst & _ & Hnew).
  assert (Hf : fresh open_service = 2) by (vm_compute; reflexivity).
  rewrite Hf in Hrun, Hnew. cbn [any_url] in Hnew. destruct Hnew as (Hws & Hsock & _).
  exists w'. split; [exact Hrun |]. split; [exact Hst |]. split; [exact Hws |].
  unfold ready. rewrite Hsock. split; vm_compute; reflexivity.
Defined.

Lemma handleResponse_settles_nothing_witness :
  let w := run uuid any_url [CallSendWithResponse request_r1] open_service in
  let w' := snd (handleResponse failure_r1 w) in
  let w2 := snd (handleResponse hello_frame w) in
  (promises w' = promises w /\ timers w' = timers w /\ pendingRequests w' = [] /\
   delivered w' = delivered w) /\
  (promises w2 = promises w /\ timers w2 = timers w /\ pendingRequests w2 = []).
Proof.
  intros w w' w2.
  assert (Hw : reachable uuid any_url w) by apply reachable_run, open_service_reachable.
  split.
  - destruct (handleResponse_settles_nothing uuid any_url failure_r1 w Hw
                (or_introl eq_refl)) as (Hp & Ht & Hq & Hd & _).
    repeat split; assumption.
  - assert (Hcbs : connectCallbacks w = []) by (vm_compute; reflexivity).
    destruct (handleResponse_settles_nothing uuid any_url hello_frame w Hw
                (or_intror Hcbs)) as (Hp & Ht & Hq & _).
    repeat split; assumption.
Defined.

Lemma disconnect_leaves_request_outstanding_witness :
  let sent := snd (sendWithResponse request_r1 open_service) in
  let after := snd (disconnect sent) in
  promises sent !! 2 = Some Pending /\ promises after !! 2 = Some Pending /\
  timer_of request_r1 open_service ∈ timers after /\
  ws after = None /\ pendingRequests after = [].
Proof.
  assert (Hopen : open_socket open_service = Some 1) by (vm_compute; reflexivity).
  exact (disconnect_leaves_request_outstanding uuid any_url request_r1 open_service 1
           open_service_reachable Hopen).
Defined.

(** *** Following a request to its deadline *)

Import Deadline.

Lemma timer_allocated_mono (n m : nat) (t : Timer) :
  n <= m -> timer_allocated n t -> timer_allocated m t.
Proof.
  intros Hle [Hid Hact]. split; [lia |]. destruct (t_action t); [exact I | lia].
Qed.

Lemma socket_allocated_mono (n m : nat) (k : Socket) :
  n <= m -> socket_allocated n k -> socket_allocated m k.
Proof.
  intros Hle [Hc Hl]. split; [lia |].
  eapply Forall_impl; [exact Hl |]. intros h' [H1 H2]. split; lia.
Qed.

Lemma map_Forall_alter {A} (P : nat -> A -> Prop) (f : A -> A) (s : nat) (m : gmap nat A) :
  (forall k, P s k -> P s (f k)) -> map_Forall P m -> map_Forall P (alter f s m).
Proof.
  intros Hf Hm i x Hx. destruct (decide (i = s)) as [-> | Hne].
  - rewrite lookup_alter_eq in Hx. destruct (m !! s) as [k |] eqn:Hk; [| discriminate].
    cbn in Hx. injection Hx as <-. apply Hf. now apply Hm.
  - rewrite lookup_alter_ne in Hx by congruence. now apply Hm.
Qed.

Lemma Forall_filter_keep {A} (P : A -> Prop) (Q : A -> Prop) `{forall x, Decision (Q x)}
    (l : list A) :
  Forall P l -> Forall P (filter Q l).
Proof.
  rewrite !Forall_forall. intros Hl x Hx. apply Hl.
  now apply list_elem_of_filter in Hx as [_ Hx].
Qed.

Section Alloc.
Variable randomUUID : nat -> string.
Variable ws_url_valid : json -> bool.
Variable qs : list nat.

(** A state update that draws no identity and leaves timers and sockets. *)
Lemma aw_ext (w w' : World) :
  fresh w <= fresh w' -> timers w' = timers w -> sockets w' = sockets w ->
  allocated_with qs w -> allocated_with qs w'.
Proof.
  intros Hle Ht Hs [[Htm Hsk] Hq]. split; [split |].
  - rewrite Ht. eapply Forall_impl; [exact Htm |]. intros t. now apply timer_allocated_mono.
  - rewrite Hs. eapply map_Forall_impl; [exact Hsk |]. intros s k.
    now apply socket_allocated_mono.
  - eapply Forall_impl; [exact Hq |]. cbn. intros; lia.
Qed.

Lemma aw_filter (Q : Timer -> Prop) `{forall x, Decision (Q x)} (w : World) :
  allocated_with qs w -> allocated_with qs (set_timers (filter Q (timers w)) w).
Proof.
  intros [[Htm Hsk] Hq]. split; [split |]; cbn; try assumption.
  now apply Forall_filter_keep.
Qed.

Lemma aw_update_socket (s : nat) (f : Socket -> Socket) :
  (forall n k, Forall (fun q => q < n) qs -> socket_allocated n k -> socket_allocated n (f k)) ->
  preserves (allocated_with qs) (update_socket s f).
Proof.
  intros Hf. apply preserves_modify. intros w [[Ht Hs] Hq]. split; [split |]; cbn; try assumption.
  apply map_Forall_alter; [| exact Hs]. intros k. now apply Hf.
Qed.

Lemma aw_setTimeout (a : TimerAction) (d : N) :
  (forall n, Forall (fun q => q < n) qs ->
     match a with RequestTimeout h' => h_promise h' < n | Reconnect => True end) ->
  preserves (allocated_with qs) (setTimeout a d).
Proof.
  intros Ha w [[Ht Hs] Hq]. cbn. split; [split |]; cbn.
  - apply Forall_app. split.
    + eapply Forall_impl; [exact Ht |]. intros t. apply timer_allocated_mono. lia.
    + constructor; [| constructor]. split; cbn; [lia |].
      specialize (Ha (fresh w) Hq). destruct a; [exact I | lia].
  - eapply map_Forall_impl; [exact Hs |]. intros s k. apply socket_allocated_mono. lia.
  - eapply Forall_impl; [exact Hq |]. cbn. intros; lia.
Qed.

Lemma aw_insert_socket (s : nat) (k : Socket) (w : World) :
  (forall n, Forall (fun q => q < n) qs -> socket_allocated n k) ->
  allocated_with qs w -> allocated_with qs (set_sockets (<[s := k]> (sockets w)) w).
Proof.
  intros Hk [[Ht Hs] Hq]. split; [split |]; cbn; try assumption.
  apply map_Forall_insert_2; [now apply Hk | exact Hs].
Qed.

End Alloc.

Ltac aw_leaf :=
  intros w Hw; cbn; repeat (case_match; cbn); try exact Hw;
  first [ apply aw_filter; exact Hw
        | apply aw_insert_socket; [| exact Hw];
          (let Hq := fresh "Hq" in
           intros ? Hq; split; cbn;
           [ apply (proj1 (Forall_forall _ _) Hq); solve [repeat first [left | right]]
           | constructor ])
        | eapply aw_ext; [ | | | exact Hw]; cbn; (lia || reflexivity) ].

Ltac aw_side :=
  intros n k Hq [Hc Hl]; split; cbn; try assumption;
  try (repeat case_match; cbn; assumption);
  try (apply Forall_filter_keep; assumption).

Section Alloc2.
Variable randomUUID : nat -> string.
Variable ws_url_valid : json -> bool.

Lemma aw_new_promise (qs : list nat) :
  hoare (allocated_with qs) new_promise (fun q => allocated_with (q :: qs)) (allocated_with qs).
Proof.
  intros w Hw. cbn.
  assert (H : allocated_with qs (set_promises (<[fresh w:=Pending]> (promises w))
                                   (set_fresh (S (fresh w)) w))).
  { eapply aw_ext; [ | | | exact Hw]; cbn; (lia || reflexivity). }
  destruct H as [Ha Hq]. split; [exact Ha |]. constructor; [cbn; lia | exact Hq].
Qed.

Lemma aw_drop (q : nat) (qs : list nat) (w : World) :
  allocated_with (q :: qs) w -> allocated_with qs w.
Proof. intros [Ha Hq]. split; [exact Ha | now inversion Hq]. Qed.

Lemma aw_bind_new_id {B} (qs : list nat) (k : nat -> M World B) :
  (forall n, preserves (allocated_with (n :: qs)) (k n)) ->
  preserves (allocated_with qs) (bind new_id k).
Proof.
  intros Hk. eapply hoare_bind with (R := fun n => allocated_with (n :: qs)).
  - intros w Hw. cbn.
    assert (H : allocated_with qs (set_fresh (S (fresh w)) w)).
    { eapply aw_ext; [ | | | exact Hw]; cbn; (lia || reflexivity). }
    destruct H as [Ha Hq]. split; [exact Ha |]. constructor; [cbn; lia | exact Hq].
  - intros n. eapply hoare_conseq; [apply Hk | auto | |].
    + intros ? w. apply aw_drop.
    + intros w. apply aw_drop.
Qed.

(** An identity held in a local variable is below the counter. *)
Ltac aw_held Hq :=
  cbn; apply (proj1 (Forall_forall _ _) Hq); solve [repeat first [left | right]].

Ltac aw_special :=
  first
    [ apply aw_bind_new_id; intros ?
    | apply aw_update_socket;
      (let Hq := fresh "Hq" in let Hc := fresh "Hc" in let Hl := fresh "Hl" in
       intros ? ? Hq [Hc Hl]; split; cbn;
       [ repeat case_match; cbn; assumption |];
       first [ repeat case_match; cbn; assumption
             | apply Forall_filter_keep; assumption
             | apply Forall_app; split; [assumption |];
               constructor; [split; aw_held Hq | constructor] ])
    | apply aw_setTimeout;
      (let Hq := fresh "Hq" in intros ? Hq; cbn; first [exact I | aw_held Hq]) ].

Lemma aw_sendWithResponse (qs : list nat) (frame : RequestFrame) :
  preserves (allocated_with qs) (sendWithResponse frame).
Proof.
  unfold sendWithResponse.
  eapply hoare_bind; [apply aw_new_promise | intros p].
  eapply hoare_conseq with (P := allocated_with (p :: qs))
    (Q := fun _ => allocated_with (p :: qs)) (E := allocated_with (p :: qs));
    [| auto | intros ? ?; apply aw_drop | intros ?; apply aw_drop].
  fold (preserves (allocated_with (p :: qs)) (A := nat)).
  sweep_with aw_special aw_leaf.
Qed.

Lemma aw_connect (qs : list nat) (url : value) :
  preserves (allocated_with qs) (connect ws_url_valid url).
Proof.
  unfold connect.
  eapply hoare_bind; [apply aw_new_promise | intros p].
  eapply hoare_conseq with (P := allocated_with (p :: qs))
    (Q := fun _ => allocated_with (p :: qs)) (E := allocated_with (p :: qs));
    [| auto | intros ? ?; apply aw_drop | intros ?; apply aw_drop].
  fold (preserves (allocated_with (p :: qs)) (A := nat)).
  sweep_with aw_special aw_leaf.
Qed.

Lemma allocated_with_stable (qs : list nat) :
  Stable randomUUID ws_url_valid (allocated_with qs).
Proof.
  stable_with ltac:(first [apply aw_sendWithResponse | apply aw_connect | aw_special])
              aw_leaf.
Qed.

End Alloc2.

Lemma response_handler_cases (h' : Handler) (data : option json) :
  (forall w, response_handler h' data w = (Ret tt, w)) \/
  (is_response_to (frame_id (h_frame h')) data = true /\
   forall w, response_handler h' data w =
     (log "[WebSocket] Received response" ;;;
      remove_from_current h' ;;;
      resolve (h_promise h') (response_value data)) w).
Proof.
  unfold response_handler, is_response_to.
  destruct data as [[| b | x | s | items | props] |]; try (left; reflexivity).
  unfold try_catch, bind, lift, JSON_parse, get_prop, ret.
  destruct (strict_eq_str (assoc "type" props) "res") eqn:Hty; [| left; reflexivity].
  destruct (strict_eq_str (assoc "id" props) (frame_id (h_frame h'))) eqn:Hid;
    [| left; reflexivity].
  destruct (template (assoc "ok" props)) as [[] | e] eqn:Hok; [| left; reflexivity].
  right. split; [reflexivity |]. intros w.
  unfold response_value, remove_from_current, removeEventListener, update_socket, resolve,
    settle, log, gets, modify. cbn.
  destruct (ws w); cbn; reflexivity.
Qed.

Section Track.

Variable randomUUID : nat -> string.
Variable ws_url_valid : json -> bool.
Variable h : Handler.
Variable t0 : Timer.
Variable V : value -> Prop.

Abbreviation T := (tracked h t0 V).

Lemma tracked_ext (armed : bool) (w w' : World) :
  pendingRequests w' = [] -> fresh w <= fresh w' -> timers w' = timers w ->
  sockets w' = sockets w -> promises w' = promises w ->
  T armed w -> T armed w'.
Proof.
  intros Hp Hf Ht Hs Hpm [H1 [H2 H2'] H3 H4 H5]. constructor.
  - exact Hp.
  - split; lia.
  - now rewrite Ht.
  - now rewrite Hs.
  - now rewrite Hpm, Ht.
Qed.

Lemma tracked_weaken (w : World) : T true w -> T false w.
Proof.
  intros [H1 H2 H3 H4 H5]. constructor; try assumption.
  destruct H5 as [[Hp _] | Hv]; [left | now right]. split; [exact Hp | discriminate].
Qed.

Lemma track_filter (Q : Timer -> Prop) `{forall x, Decision (Q x)} (w : World) :
  T false w -> T false (set_timers (filter Q (timers w)) w).
Proof.
  intros [H1 H2 H3 H4 H5]. constructor; cbn; try assumption.
  - now apply Forall_filter_keep.
  - destruct H5 as [[Hp _] | Hv]; [left | now right]. split; [exact Hp | discriminate].
Qed.

Lemma track_settle (armed : bool) (q : nat) (st : PromiseState) :
  q ≠ h_promise h -> preserves (T armed) (settle q st).
Proof.
  intros Hq. apply preserves_modify. intros w Hw.
  destruct (promises w !! q) as [[] |]; try exact Hw.
  destruct Hw as [H1 H2 H3 H4 H5]. constructor; cbn; try assumption.
  unfold outcome_ok. now rewrite lookup_insert_ne.
Qed.

Lemma track_resolve_own (armed armed' : bool) (v : value) :
  V v -> hoare (T armed) (resolve (h_promise h) v) (fun _ => T armed') (T armed').
Proof.
  intros Hv. apply hoare_modify. intros w [H1 H2 H3 H4 H5].
  destruct H5 as [[Hp Ht] | (v' & Hp & Hv')]; rewrite Hp.
  - constructor; cbn; try assumption. right. exists v.
    split; [apply lookup_insert_eq | exact Hv].
  - constructor; cbn; try assumption. right. eauto.
Qed.

Lemma track_resolve (armed : bool) (h' : Handler) (v : value) :
  own h h' -> (h' = h -> V v) -> preserves (T armed) (resolve (h_promise h') v).
Proof.
  intros Hown Hv. destruct (decide (h_promise h' = h_promise h)) as [Heq | Hne].
  - specialize (Hv (Hown Heq)). rewrite Heq. now apply track_resolve_own.
  - now apply track_settle.
Qed.

Lemma track_resolve_other (armed : bool) (q : nat) (v : value) :
  q ≠ h_promise h -> preserves (T armed) (resolve q v).
Proof. apply track_settle. Qed.

Lemma track_reject (armed : bool) (q : nat) (e : exn) :
  q ≠ h_promise h -> preserves (T armed) (reject q e).
Proof. apply track_settle. Qed.

Lemma track_update_socket (armed : bool) (s : nat) (f : Socket -> Socket) :
  (forall k, socket_ok h k -> socket_ok h (f k)) ->
  preserves (T armed) (update_socket s f).
Proof.
  intros Hf. apply preserves_modify. intros w [H1 H2 H3 H4 H5].
  constructor; cbn; try assumption.
  apply map_Forall_alter; [| exact H4]. intros k. apply Hf.
Qed.

Lemma track_insert_socket (armed : bool) (s : nat) (k : Socket) (w : World) :
  socket_ok h k -> T armed w -> T armed (set_sockets (<[s := k]> (sockets w)) w).
Proof.
  intros Hk [H1 H2 H3 H4 H5]. constructor; cbn; try assumption.
  now apply map_Forall_insert_2.
Qed.

Lemma track_setTimeout (armed : bool) (a : TimerAction) (d : N) :
  action_ok h a -> preserves (T armed) (setTimeout a d).
Proof.
  intros Ha w [H1 [H2 H2'] H3 H4 H5]. cbn. constructor; cbn; try assumption.
  - split; lia.
  - apply Forall_app. split; [exact H3 |]. constructor; [| constructor].
    split; cbn; [lia | exact Ha].
  - destruct H5 as [[Hp Ht] | Hv]; [left | now right]. split; [exact Hp |].
    intros Harmed. apply elem_of_app. left. now apply Ht.
Qed.

Lemma track_bind_new_promise {B} (armed : bool) (k : nat -> M World B) :
  (forall q, q ≠ h_promise h -> preserves (T armed) (k q)) ->
  preserves (T armed) (bind new_promise k).
Proof.
  intros Hk. eapply hoare_bind with (R := fun q w => T armed w /\ q ≠ h_promise h).
  - intros w [H1 [H2 H2'] H3 H4 H5]. cbn. split; [| lia].
    constructor; cbn; try assumption; [split; lia |].
    unfold outcome_ok. rewrite lookup_insert_ne by lia. exact H5.
  - intros q. apply hoare_pure. exact (Hk q).
Qed.

Lemma track_pending_loop {B} (armed : bool) (k : list (string * PendingRequest) -> M World B) :
  preserves (T armed) (k []) -> preserves (T armed) (bind (gets pendingRequests) k).
Proof.
  intros Hk. apply preserves_bind_gets. intros reqs.
  apply hoare_derive with (phi := reqs = []).
  - intros w [Hw <-]. apply (tr_pending _ _ _ _ _ Hw).
  - intros ->. eapply hoare_strengthen; [| exact Hk]. now intros w [Hw _].
Qed.

Lemma track_pending_lookup {B} (armed : bool) (id : value)
    (k : option PendingRequest -> M World B) :
  preserves (T armed) (k None) ->
  preserves (T armed) (bind (gets (fun w => lookup_pending id (pendingRequests w))) k).
Proof.
  intros Hk. apply preserves_bind_gets. intros pending.
  apply hoare_derive with (phi := pending = None).
  - intros w [Hw <-]. rewrite (tr_pending _ _ _ _ _ Hw). now destruct id as [[] |].
  - intros ->. eapply hoare_strengthen; [| exact Hk]. now intros w [Hw _].
Qed.

Lemma track_socket_lookup {B} (armed : bool) (s : nat) (k : option Socket -> M World B) :
  (forall sk, socket_ok h sk -> preserves (T armed) (k (Some sk))) ->
  preserves (T armed) (k None) ->
  preserves (T armed) (bind (gets (fun w => sockets w !! s)) k).
Proof.
  intros Hsome Hnone. apply preserves_bind_gets. intros [sk |].
  - apply hoare_derive with (phi := socket_ok h sk).
    + intros w [Hw Hs]. exact (tr_sockets _ _ _ _ _ Hw s sk Hs).
    + intros Hok. eapply hoare_strengthen; [| exact (Hsome sk Hok)]. now intros w [Hw _].
  - eapply hoare_strengthen; [| exact Hnone]. now intros w [Hw _].
Qed.

Lemma track_snapshot {B} (armed : bool) (s : nat) (k : list Handler -> M World B) :
  (forall l, Forall (own h) l -> preserves (T armed) (k l)) ->
  preserves (T armed)
    (bind (gets (fun w => from_option listeners [] (sockets w !! s))) k).
Proof.
  intros Hk. apply preserves_bind_gets. intros l.
  apply hoare_derive with (phi := Forall (own h) l).
  - intros w [Hw <-]. destruct (sockets w !! s) as [sk |] eqn:Hs; cbn; [| constructor].
    exact (proj2 (tr_sockets _ _ _ _ _ Hw s sk Hs)).
  - intros Hl. eapply hoare_strengthen; [| exact (Hk l Hl)]. now intros w [Hw _].
Qed.

End Track.

Ltac tr_own :=
  first
    [ assumption
    | match goal with
      | H : Forall (own _) ?l, Hin : ?x ∈ ?l |- own _ ?x =>
          exact (proj1 (Forall_forall _ _) H x Hin)
      end
    | let Heq := fresh "Heq" in intros Heq; cbn in Heq; congruence ].

Ltac tr_ne :=
  first
    [ assumption
    | match goal with
      | H : socket_ok _ ?k |- connect_promise ?k ≠ _ => exact (proj1 H)
      end
    | congruence ].

Ltac tr_side_socket :=
  let Hc := fresh "Hc" in
  let Hl := fresh "Hl" in
  intros ? [Hc Hl]; split; cbn;
  [ repeat case_match; cbn; assumption |];
  first [ repeat case_match; cbn; assumption
        | apply Forall_filter_keep; assumption
        | apply Forall_app; split; [assumption |]; constructor; [tr_own | constructor] ].

Ltac tr_special :=
  first
    [ apply track_bind_new_promise; intros ? ?
    | apply track_pending_loop
    | apply track_pending_lookup
    | apply track_socket_lookup; [intros ? ? |]
    | apply track_snapshot; intros ? ?
    | apply track_update_socket; tr_side_socket
    | apply track_setTimeout; cbn; first [exact I | tr_own]
    | apply track_resolve_other; tr_ne
    | apply track_reject; tr_ne ].

Ltac tr_leaf :=
  let w := fresh "w" in
  let Hw := fresh "Hw" in
  intros w Hw; cbn; repeat (case_match; cbn); try exact Hw;
  first
    [ eapply tracked_ext; [ | | | | | exact Hw]; cbn;
      first [lia | reflexivity | apply (tr_pending _ _ _ _ _ Hw)]
    | apply track_insert_socket; [| exact Hw]; split; cbn; [tr_ne | constructor] ].

Section TrackOps.

Variable randomUUID : nat -> string.
Variable ws_url_valid : json -> bool.
Variable h : Handler.
Variable t0 : Timer.
Variable V : value -> Prop.
Variable armed : bool.

Abbreviation T := (tracked h t0 V armed).

Lemma track_handleResponse (d : json) : preserves T (handleResponse d).
Proof. sweep_with tr_special tr_leaf. Qed.

Lemma track_handleMessage (data : option json) :
  preserves T (handleMessage randomUUID data).
Proof. sweep_with ltac:(first [apply track_handleResponse | tr_special]) tr_leaf. Qed.

Lemma track_send (frame : RequestFrame) : preserves T (send frame).
Proof. sweep_with tr_special tr_leaf. Qed.

Lemma track_sendWithResponse (frame : RequestFrame) : preserves T (sendWithResponse frame).
Proof. sweep_with tr_special tr_leaf. Qed.

Lemma track_connect (url : value) : preserves T (connect ws_url_valid url).
Proof. sweep_with tr_special tr_leaf. Qed.

Lemma track_disconnect : preserves T disconnect.
Proof. sweep_with tr_special tr_leaf. Qed.

Lemma track_reconnect : preserves T (reconnect ws_url_valid).
Proof.
  unfold reconnect. apply preserves_bind; [apply track_disconnect | intros _].
  apply track_connect.
Qed.

Lemma track_onopen (s : nat) : preserves T (onopen s).
Proof. sweep_with tr_special tr_leaf. Qed.

Lemma track_onclose (code : nat) (reason : string) : preserves T (onclose code reason).
Proof. sweep_with tr_special tr_leaf. Qed.

Lemma track_onerror (s : nat) : preserves T (onerror s).
Proof. sweep_with tr_special tr_leaf. Qed.

Lemma track_remove (h' : Handler) : preserves T (remove_from_current h').
Proof. sweep_with tr_special tr_leaf. Qed.

Lemma track_request_timeout (h' : Handler) :
  own h h' -> V (Some JNull) -> preserves T (request_timeout h').
Proof.
  intros Hown Hnull. unfold request_timeout.
  apply preserves_bind; [apply track_remove | intros _].
  apply preserves_bind; [sweep_with tr_special tr_leaf | intros _].
  now apply track_resolve.
Qed.

Lemma track_response_handler (h' : Handler) (data : option json) :
  own h h' ->
  (h' = h ->
   is_response_to (frame_id (h_frame h)) data = true -> V (response_value data)) ->
  preserves T (response_handler h' data).
Proof.
  intros Hown Hv.
  destruct (response_handler_cases h' data) as [Hskip | [Hresp Hrun]].
  - intros w Hw. now rewrite Hskip.
  - intros w Hw. rewrite Hrun. revert w Hw.
    fold (hoare T (log "[WebSocket] Received response" ;;;
                   remove_from_current h' ;;;
                   resolve (h_promise h') (response_value data))
            (fun _ => T) T).
    apply preserves_bind; [sweep_with tr_special tr_leaf | intros _].
    apply preserves_bind; [apply track_remove | intros _].
    apply track_resolve; [exact Hown |]. intros Heq. subst h'. now apply Hv.
Qed.

Lemma track_onmessage (s : nat) (data : option json) :
  (is_response_to (frame_id (h_frame h)) data = true -> V (response_value data)) ->
  preserves T (onmessage randomUUID s data).
Proof.
  intros Hv. unfold onmessage.
  apply preserves_bind; [apply track_handleMessage | intros _].
  apply track_snapshot. intros l Hl.
  apply preserves_forEach. intros h' Hin.
  apply preserves_bind; [apply preserves_gets | intros still].
  destruct still; [| apply preserves_ret].
  apply track_response_handler; [| intros _; exact Hv].
  exact (proj1 (Forall_forall _ _) Hl h' Hin).
Qed.

End TrackOps.

Lemma next_due_elem (target : N) (l : list Timer) (t : Timer) :
  next_due target l = Some t -> t ∈ l /\ (t_due t <= target)%N.
Proof.
  revert t. induction l as [| x l IH]; intros t; cbn; [discriminate |].
  destruct (next_due target l) as [t' |].
  - destruct (N.leb (t_due x) target && N.leb (t_due x) (t_due t')) eqn:Hx.
    + intros [= <-]. apply andb_true_iff in Hx as [Hx _]. apply N.leb_le in Hx.
      split; [left | exact Hx].
    + intros [= <-]. destruct (IH t' eq_refl) as [Hin Hdue]. split; [now right | exact Hdue].
  - destruct (N.leb (t_due x) target) eqn:Hx; [| discriminate].
    intros [= <-]. apply N.leb_le in Hx. split; [left | exact Hx].
Qed.

Lemma next_due_none (target : N) (l : list Timer) :
  next_due target l = None -> none_due target l.
Proof.
  unfold none_due. induction l as [| x l IH]; cbn; [constructor |].
  destruct (next_due target l) as [t' |].
  - destruct (N.leb (t_due x) target && N.leb (t_due x) (t_due t')); discriminate.
  - destruct (N.leb (t_due x) target) eqn:Hx; [discriminate |]. intros _.
    apply N.leb_gt in Hx. constructor; [exact Hx | now apply IH].
Qed.

Lemma hoare_top_level {A} (P Q : World -> Prop) (m : M World A) (w : World) :
  hoare P m (fun _ => Q) Q ->
  (forall w l, Q w -> Q (set_console l w)) ->
  P w -> Q (top_level m w).
Proof.
  intros Hm Hc Hw. unfold top_level. specialize (Hm w Hw).
  destruct (m w) as [[a | e] w']; [exact Hm | now apply Hc].
Qed.

Lemma hoare_returns {A} (P E : World -> Prop) (m : M World A) :
  (forall w, exists a w', m w = (Ret a, w')) ->
  preserves P m -> hoare P m (fun _ => P) E.
Proof.
  intros Hret Hm w Hw. specialize (Hm w Hw).
  destruct (Hret w) as (a & w' & Hrun). now rewrite Hrun in *.
Qed.

Lemma remove_returns (h' : Handler) (w : World) :
  exists a w', remove_from_current h' w = (Ret a, w').
Proof.
  unfold remove_from_current, removeEventListener, update_socket, bind, gets, modify, ret.
  destruct (ws w); eauto.
Qed.

Section Shrink.

Variable ws_url_valid : json -> bool.

Lemma timers_bounded (n : nat) (a : TimerAction) :
  preserves (fun w => length (timers w) <= n) (run_timer ws_url_valid a).
Proof.
  destruct a as [| h']; cbn [run_timer]; unfold reconnect;
    sweep_with fail
      ltac:(intros w Hw; cbn; repeat (case_match; cbn); try exact Hw;
            try (etrans; [apply length_filter | exact Hw])).
Qed.

Lemma fire_shrinks (t : Timer) (w : World) :
  t ∈ timers w -> length (timers (fire ws_url_valid t w)) < length (timers w).
Proof.
  intros Hin. unfold fire.
  set (w1 := set_now _ _).
  assert (H1 : length (timers w1) < length (timers w)).
  { cbn. apply (length_filter_lt _ _ t); [exact Hin | intros Hne; now apply Hne]. }
  assert (H2 : length (timers (top_level (run_timer ws_url_valid (t_action t)) w1))
               <= length (timers w1)).
  { apply (hoare_top_level (fun w => length (timers w) <= length (timers w1))).
    - apply timers_bounded.
    - intros w0 l Hw0. exact Hw0.
    - reflexivity. }
  lia.
Qed.

Lemma advance_loop_clears (fuel : nat) (target : N) (w : World) :
  length (timers w) <= fuel ->
  none_due target (timers (advance_loop ws_url_valid fuel target w)).
Proof.
  revert w. induction fuel as [| fuel IH]; intros w Hlen; cbn [advance_loop].
  - destruct (timers w) eqn:Ht; [| cbn in Hlen; lia]. cbn. rewrite Ht. constructor.
  - destruct (next_due target (timers w)) as [t |] eqn:Hnext.
    + apply IH. apply next_due_elem in Hnext as [Hin _].
      pose proof (fire_shrinks t w Hin). lia.
    + cbn. now apply next_due_none.
Qed.

Lemma advance_clears (target : N) (w : World) :
  none_due target (timers (advance ws_url_valid target w)).
Proof. apply advance_loop_clears. reflexivity. Qed.

End Shrink.

Section TrackRun.

Variable randomUUID : nat -> string.
Variable ws_url_valid : json -> bool.
Variable h : Handler.
Variable t0 : Timer.
Variable V : value -> Prop.
Variable allowed : option json -> Prop.

Hypothesis Haction : t_action t0 = RequestTimeout h.
Hypothesis Hnull : V (Some JNull).
Hypothesis Hallowed :
  forall data, allowed data ->
    is_response_to (frame_id (h_frame h)) data = true -> V (response_value data).

Abbreviation T := (tracked h t0 V).

Lemma track_console (armed : bool) (w : World) (l : list (Level * string)) :
  T armed w -> T armed (set_console l w).
Proof.
  intros Hw. eapply tracked_ext; [ | | | | | exact Hw]; cbn;
    first [lia | reflexivity | apply (tr_pending _ _ _ _ _ Hw)].
Qed.

Lemma track_filter_other (x : nat) (w : World) :
  t_id t0 ≠ x -> T true w -> T true (set_timers (filter (fun y => t_id y ≠ x) (timers w)) w).
Proof.
  intros Hne [H1 H2 H3 H4 H5]. constructor; cbn; try assumption.
  - now apply Forall_filter_keep.
  - destruct H5 as [[Hp Ht] | Hv]; [left | now right]. split; [exact Hp |].
    intros _. apply list_elem_of_filter. split; [exact Hne | now apply Ht].
Qed.

Lemma track_fire (t : Timer) (w : World) :
  t ∈ timers w -> T true w -> T true (fire ws_url_valid t w).
Proof.
  intros Hin Hw. unfold fire.
  pose proof (proj1 (Forall_forall _ _) (tr_timers _ _ _ _ _ Hw) t Hin) as [Hsame Hact].
  destruct (decide (t_id t = t_id t0)) as [Heq | Hne].
  - specialize (Hsame Heq). subst t. rewrite Haction. cbn [run_timer].
    apply (hoare_top_level (T false)); [| intros; now apply track_console |].
    + unfold request_timeout.
      eapply hoare_bind with (R := fun _ => T false);
        [apply hoare_returns; [apply remove_returns | apply track_remove] | intros _].
      eapply hoare_bind with (R := fun _ => T false);
        [| intros _; now apply track_resolve_own].
      apply hoare_returns; [intros w0; unfold log, modify; eauto |].
      sweep_with tr_special tr_leaf.
    + assert (Hw1 : T false (set_timers (filter (fun x => t_id x ≠ t_id t0) (timers w)) w))
        by apply track_filter, tracked_weaken, Hw.
      eapply tracked_ext; [ | | | | | exact Hw1]; cbn;
        first [lia | reflexivity | apply (tr_pending _ _ _ _ _ Hw)].
  - apply (hoare_top_level (T true)); [| intros; now apply track_console |].
    + destruct (t_action t) as [| h']; cbn [run_timer].
      * apply preserves_bind; [apply track_reconnect | intros _; apply preserves_ret].
      * now apply track_request_timeout.
    + assert (Hw1 : T true (set_timers (filter (fun x => t_id x ≠ t_id t) (timers w)) w))
        by (apply track_filter_other; [congruence | exact Hw]).
      eapply tracked_ext; [ | | | | | exact Hw1]; cbn;
        first [lia | reflexivity | apply (tr_pending _ _ _ _ _ Hw)].
Qed.

Lemma track_advance (target : N) (w : World) :
  T true w -> T true (advance ws_url_valid target w).
Proof.
  unfold advance. generalize (length (timers w)) as fuel. intros fuel. revert w.
  induction fuel as [| fuel IH]; intros w Hw; cbn [advance_loop];
    destruct (next_due target (timers w)) as [t |] eqn:Hnext.
  - exact Hw.
  - eapply tracked_ext; [ | | | | | exact Hw]; cbn;
      first [lia | reflexivity | apply (tr_pending _ _ _ _ _ Hw)].
  - apply IH, track_fire; [| exact Hw]. now apply next_due_elem in Hnext as [Hin _].
  - eapply tracked_ext; [ | | | | | exact Hw]; cbn;
      first [lia | reflexivity | apply (tr_pending _ _ _ _ _ Hw)].
Qed.

Lemma track_step (e : Event) (w : World) :
  permitted allowed e -> T true w -> T true (step randomUUID ws_url_valid e w).
Proof.
  intros He Hw.
  assert (Htop : forall A (m : M World A) w, preserves (T true) m -> T true w ->
                   T true (top_level m w)).
  { intros A m w0 Hm Hw0. apply (hoare_top_level (T true)); auto.
    intros; now apply track_console. }
  assert (Hready : forall s st, preserves (T true) (update_socket s (with_readyState st))).
  { intros s st. apply track_update_socket. now intros k [Hc Hl]. }
  destruct e; cbn [step].
  - apply Htop; [apply track_connect | exact Hw].
  - apply Htop; [apply track_disconnect | exact Hw].
  - apply Htop; [apply track_reconnect | exact Hw].
  - apply Htop; [apply track_send | exact Hw].
  - apply Htop; [apply track_sendWithResponse | exact Hw].
  - eapply tracked_ext; [ | | | | | exact Hw]; cbn;
      first [lia | reflexivity | apply (tr_pending _ _ _ _ _ Hw)].
  - eapply tracked_ext; [ | | | | | exact Hw]; cbn;
      first [lia | reflexivity | apply (tr_pending _ _ _ _ _ Hw)].
  - eapply tracked_ext; [ | | | | | exact Hw]; cbn;
      first [lia | reflexivity | apply (tr_pending _ _ _ _ _ Hw)].
  - eapply tracked_ext; [ | | | | | exact Hw]; cbn;
      first [lia | reflexivity | apply (tr_pending _ _ _ _ _ Hw)].
  - destruct (ready s w) as [[] |]; try exact Hw.
    apply Htop; [| exact Hw].
    apply preserves_bind; [apply Hready | intros _; apply track_onopen].
  - destruct (ready s w) as [[] |]; try exact Hw.
    apply Htop; [| exact Hw]. apply track_onmessage. now apply Hallowed.
  - destruct (ready s w) as [[] |]; try exact Hw;
      (apply Htop; [| exact Hw];
       apply preserves_bind; [apply Hready | intros _; apply track_onclose]).
  - destruct (ready s w) as [[] |]; try exact Hw;
      (apply Htop; [apply track_onerror | exact Hw]).
  - apply track_advance, Hw.
Qed.

Lemma track_run (evs : list Event) (w : World) :
  Forall (permitted allowed) evs -> T true w -> T true (run randomUUID ws_url_valid evs w).
Proof.
  revert w. induction evs as [| e evs IH]; intros w Hevs Hw; [exact Hw |].
  apply Forall_cons in Hevs as [He Hevs].
  cbn [run fold_left]. apply IH; [exact Hevs |]. now apply track_step.
Qed.

(** Once the clock has passed the deadline, the promise is fulfilled. *)
Lemma track_deadline (evs : list Event) (target : N) (w : World) :
  Forall (permitted allowed) evs -> T true w -> (t_due t0 <= target)%N ->
  exists v,
    promises (run randomUUID ws_url_valid (evs ++ [Advance target]) w) !! h_promise h =
      Some (Fulfilled v) /\ V v.
Proof.
  intros Hevs Hw Hdue. unfold run. rewrite fold_left_app. cbn [fold_left step].
  fold (run randomUUID ws_url_valid evs w).
  pose proof (track_advance target _ (track_run evs w Hevs Hw)) as Hfinal.
  pose proof (advance_clears ws_url_valid target (run randomUUID ws_url_valid evs w))
    as Hclear.
  destruct (tr_outcome _ _ _ _ _ Hfinal) as [[_ Hin] | Hv]; [| exact Hv].
  specialize (Hin eq_refl).
  pose proof (proj1 (Forall_forall _ _) Hclear t0 Hin) as Hlate. cbn in Hlate. lia.
Qed.

End TrackRun.

Section Final.

Variable randomUUID : nat -> string.
Variable ws_url_valid : json -> bool.

Abbreviation run' := (run randomUUID ws_url_valid).
Abbreviation reachable' := (reachable randomUUID ws_url_valid).

Lemma reachable_ids (w : World) : reachable' w -> allocated w.
Proof.
  intros (cfg & evs & ->).
  apply (stable_run _ _ _ (allocated_with_stable randomUUID ws_url_valid [])).
  split; [split |]; cbn; [constructor | apply map_Forall_empty | constructor].
Qed.

(** The state right after [sendWithResponse] on an open socket: the call is
    tracked, with its timeout armed. *)
Lemma tracked_after_send (V : value -> Prop) (frame : RequestFrame) (w : World) (s : nat) :
  reachable' w -> open_socket w = Some s ->
  sendWithResponse frame w = (Ret (fresh w), snd (sendWithResponse frame w)) /\
  tracked (handler_of frame w) (timer_of frame w) V true (snd (sendWithResponse frame w)).
Proof.
  intros Hw Hopen.
  destruct (open_socket_exists w s Hopen) as (k & Hk & _).
  destruct (sendWithResponse_registers frame w s k Hopen Hk)
    as (w1 & Hrun & Hp & Hs & Ht & Hf & Hpend & Hws & Hnow).
  rewrite Hrun. cbn [snd]. split; [reflexivity |].
  destruct (reachable_ids w Hw) as [Htm Hsk].
  constructor; cbn [handler_of timer_of h_promise t_id].
  - rewrite Hpend. now apply reachable_no_pending in Hw.
  - rewrite Hf. split; lia.
  - rewrite Ht. apply Forall_app. split.
    + eapply Forall_impl; [exact Htm |]. intros t [Hid Hact]. split.
      * cbn. intros Heq. lia.
      * destruct (t_action t) as [| h']; [exact I |]. cbn. intros Heq. cbn in Heq. lia.
    + constructor; [| constructor]. split; [reflexivity |]. cbn. now intros _.
  - rewrite Hs. apply map_Forall_insert_2.
    + destruct (Hsk s k Hk) as [Hc Hl]. split; cbn; [lia |].
      apply Forall_app. split.
      * eapply Forall_impl; [exact Hl |]. cbn. intros h' [Hh' _] Heq. cbn in Heq. lia.
      * constructor; [now intros _ | constructor].
    + eapply map_Forall_impl; [exact Hsk |]. intros s' k' [Hc Hl]. split; cbn; [lia |].
      eapply Forall_impl; [exact Hl |]. cbn. intros h' [Hh' _] Heq. cbn in Heq. lia.
  - left. rewrite Hp, Ht. split; [apply lookup_insert_eq |].
    intros _. apply elem_of_app. right. constructor.
Qed.

(** Without an open socket the promise is fulfilled with [null] at once,
    and stays so. *)
Lemma null_without_socket (frame : RequestFrame) (w : World) (evs : list Event) :
  reachable' w -> open_socket w = None ->
  sendWithResponse frame w = (Ret (fresh w), snd (sendWithResponse frame w)) /\
  promises (run' evs (snd (sendWithResponse frame w))) !! fresh w =
    Some (Fulfilled (Some JNull)).
Proof.
  intros Hw Hopen.
  assert (Hrun : exists w1, sendWithResponse frame w = (Ret (fresh w), w1) /\
                   settled_as (fresh w) (Fulfilled (Some JNull)) w1).
  { unfold sendWithResponse, new_promise, new_id, log_error, resolve, settle,
      bind, gets, modify, ret. cbn. unfold open_socket in *. cbn. rewrite Hopen. cbn.
    rewrite lookup_insert_eq. eexists. split; [reflexivity |].
    split; cbn; [lia | apply lookup_insert_eq]. }
  destruct Hrun as (w1 & Hrun & Hset). rewrite Hrun. cbn [snd]. split; [reflexivity |].
  assert (Hne : Fulfilled (Some JNull) ≠ Pending) by discriminate.
  apply (stable_run _ _ _ (settled_as_stable randomUUID ws_url_valid _ _ Hne)).
  exact Hset.
Qed.

(** X25. [sendWithResponse] never hangs and never rejects: for a call made
    in any reachable state, whatever happens afterwards (responses, other
    calls, disconnects, reconnects, socket events), the promise it returned
    is fulfilled once the clock has reached ten seconds after the call. *)
Theorem request_is_fulfilled_by_its_deadline (frame : RequestFrame) (w : World)
    (evs : list Event) (target : N) :
  reachable' w ->
  (now w + 10000 <= target)%N ->
  let sent := snd (sendWithResponse frame w) in
  sendWithResponse frame w = (Ret (fresh w), sent) /\
  exists v, promises (run' (evs ++ [Advance target]) sent) !! fresh w =
              Some (Fulfilled v).
Proof.
  intros Hw Hdue sent. subst sent.
  destruct (open_socket w) as [s |] eqn:Hopen.
  - destruct (tracked_after_send (fun _ => True) frame w s Hw Hopen) as [Hrun Htr].
    split; [exact Hrun |].
    assert (Hevs : Forall (permitted (fun _ => True)) evs).
    { apply Forall_forall. now intros []. }
    destruct (track_deadline randomUUID ws_url_valid (handler_of frame w) (timer_of frame w)
                (fun _ => True) (fun _ => True) eq_refl I (fun _ _ _ => I)
                evs target _ Hevs Htr Hdue) as (v & Hv & _).
    now exists v.
  - destruct (null_without_socket frame w (evs ++ [Advance target]) Hw Hopen) as [Hrun Hv].
    split; [exact Hrun | eauto].
Qed.

Lemma failed_response_value (fid : string) (data : option json) :
  is_response_to fid data && ok_flag data = false ->
  is_response_to fid data = true -> response_value data = Some JNull.
Proof.
  intros Hno Hresp. rewrite Hresp in Hno. cbn in Hno.
  unfold response_value. destruct data as [[| | | | | props] |]; try reflexivity.
  cbn in Hno. now rewrite Hno.
Qed.

(** X26. The promise of a [sendWithResponse] call is resolved with [null]
    unless a successful response arrives: as long as no message event
    carries a response frame with the request's id and a truthy [ok], the
    promise is pending or fulfilled with [null], and once the clock has
    reached ten seconds after the call it is fulfilled with [null].  A
    response with a falsy [ok], a disconnect, a reconnect or a socket error
    never rejects it. *)
Theorem unanswered_request_resolves_to_null (frame : RequestFrame) (w : World)
    (evs : list Event) (target : N) :
  reachable' w ->
  Forall (not_fulfilled (frame_id frame)) evs ->
  (now w + 10000 <= target)%N ->
  let sent := snd (sendWithResponse frame w) in
  (promises (run' evs sent) !! fresh w = Some Pending \/
   promises (run' evs sent) !! fresh w = Some (Fulfilled (Some JNull))) /\
  promises (run' (evs ++ [Advance target]) sent) !! fresh w =
    Some (Fulfilled (Some JNull)).
Proof.
  intros Hw Hevs Hdue sent. subst sent.
  destruct (open_socket w) as [s |] eqn:Hopen.
  - destruct (tracked_after_send (fun v => v = Some JNull) frame w s Hw Hopen)
      as [Hrun Htr].
    set (allowed := fun data : option json =>
           is_response_to (frame_id frame) data && ok_flag data = false).
    assert (Hperm : Forall (permitted allowed) evs).
    { eapply Forall_impl; [exact Hevs |]. now intros []. }
    assert (Hallowed : forall data, allowed data ->
              is_response_to (frame_id (h_frame (handler_of frame w))) data = true ->
              response_value data = Some JNull).
    { intros data. apply failed_response_value. }
    split.
    + pose proof (track_run randomUUID ws_url_valid (handler_of frame w) (timer_of frame w)
                    (fun v => v = Some JNull) allowed eq_refl eq_refl
                    Hallowed evs _ Hperm Htr) as Hnow.
      destruct (tr_outcome _ _ _ _ _ Hnow) as [[Hp _] | (v & Hp & ->)]; [now left | now right].
    + destruct (track_deadline randomUUID ws_url_valid (handler_of frame w)
                  (timer_of frame w) (fun v => v = Some JNull) allowed eq_refl eq_refl
                  Hallowed evs target _ Hperm Htr Hdue) as (v & Hv & ->).
      exact Hv.
  - split.
    + right. apply (null_without_socket frame w evs Hw Hopen).
    + apply (null_without_socket frame w (evs ++ [Advance target]) Hw Hopen).
Qed.

End Final.

Lemma request_is_fulfilled_by_its_deadline_witness :
  exists v,
    promises (run uuid any_url
                ([SocketMessage 1 (Some ack_frame); CallDisconnect;
                  SocketClose 1 1000 ""] ++ [Advance 10000%N])
                (snd (sendWithResponse request_r1 open_service)))
      !! fresh open_service = Some (Fulfilled v).
Proof.
  apply (request_is_fulfilled_by_its_deadline uuid any_url request_r1 open_service).
  - apply open_service_reachable.
  - vm_compute. discriminate.
Defined.

Lemma unanswered_request_resolves_to_null_witness :
  promises (run uuid any_url
              ([SocketMessage 1 (Some failure_r1); SocketMessage 1 (Some ack_frame);
                CallDisconnect] ++ [Advance 10000%N])
              (snd (sendWithResponse request_r1 open_service)))
    !! fresh open_service = Some (Fulfilled (Some JNull)).
Proof.
  apply (unanswered_request_resolves_to_null uuid any_url request_r1 open_service).
  - apply open_service_reachable.
  - repeat constructor.
  - vm_compute. discriminate.
Defined.


(** *** The response to a request *)

Lemma preserves_and {A} (P Q : World -> Prop) (m : M World A) :
  preserves P m -> preserves Q m -> preserves (fun w => P w /\ Q w) m.
Proof.
  intros HP HQ w [Hp Hq]. specialize (HP w Hp). specialize (HQ w Hq).
  destruct (m w) as [[a | e] w']; now split.
Qed.

Lemma response_handler_hit (h' : Handler) (data : option json) :
  is_response_to (frame_id (h_frame h')) data = true -> readable_ok data = true ->
  forall w, response_handler h' data w =
    (log "[WebSocket] Received response" ;;;
     remove_from_current h' ;;;
     resolve (h_promise h') (response_value data)) w.
Proof.
  unfold response_handler, is_response_to, readable_ok.
  destruct data as [[| b | x | s | items | props] |]; try discriminate.
  unfold try_catch, bind, lift, JSON_parse, get_prop, ret.
  intros Hresp Hok w. apply andb_true_iff in Hresp as [Hty Hid]. rewrite Hty, Hid.
  destruct (template (assoc "ok" props)) as [[] | e]; [| discriminate].
  unfold response_value, remove_from_current, removeEventListener, update_socket, resolve,
    settle, log, gets, modify. cbn.
  destruct (ws w); cbn; reflexivity.
Qed.

Lemma response_handler_returns (h' : Handler) (data : option json) (w : World) :
  exists a w', response_handler h' data w = (Ret a, w').
Proof.
  destruct (response_handler_cases h' data) as [Hskip | [_ Hrun]].
  - rewrite Hskip. eauto.
  - rewrite Hrun.
    unfold remove_from_current, removeEventListener, update_socket, resolve,
      settle, log, bind, gets, modify, ret. cbn. destruct (ws w); cbn; eauto.
Qed.

Lemma handleMessage_returns (randomUUID : nat -> string) (data : option json) (w : World) :
  exists a w', handleMessage randomUUID data w = (Ret a, w').
Proof.
  unfold handleMessage, try_catch.
  match goal with |- context [bind ?m ?k w] => destruct (bind m k w) as [[[] | e] w1] end.
  - eauto.
  - unfold log_error, modify. eauto.
Qed.

Section Answer.

Variable randomUUID : nat -> string.
Variable ws_url_valid : json -> bool.
Variable h : Handler.
Variable t0 : Timer.
Variable s : nat.

Abbreviation L := (listening h s).

Lemma listen_ext (w w' : World) :
  ws w' = ws w -> sockets w' = sockets w -> L w -> L w'.
Proof. intros Hws Hs (H1 & H2 & H3). unfold listening. now rewrite Hws, Hs. Qed.

Lemma listen_update_socket (s' : nat) (f : Socket -> Socket) :
  (forall k, readyState (f k) = readyState k) ->
  (forall k, h ∈ listeners k -> h ∈ listeners (f k)) ->
  (forall k, Forall (own_id h) (listeners k) -> Forall (own_id h) (listeners (f k))) ->
  preserves L (update_socket s' f).
Proof.
  intros Hr Hin Hown. apply preserves_modify. intros w (Hws & (k & Hk & Hopen & Hh) & Hall).
  split; [exact Hws |]. split; cbn.
  - destruct (decide (s' = s)) as [-> | Hne].
    + exists (f k). rewrite lookup_alter_eq, Hk. cbn. split; [reflexivity |].
      split; [now rewrite Hr | now apply Hin].
    + exists k. rewrite lookup_alter_ne by congruence. auto.
  - apply map_Forall_alter; [| exact Hall]. intros k'. apply Hown.
Qed.

Ltac ls_leaf :=
  let w := fresh "w" in
  let Hw := fresh "Hw" in
  intros w Hw; cbn; repeat (case_match; cbn); try exact Hw;
  first [eapply listen_ext; [ | | exact Hw]; reflexivity].

Ltac ls_special :=
  apply listen_update_socket; [now intros | now intros | now intros].

Lemma listen_handleMessage (data : option json) :
  preserves L (handleMessage randomUUID data).
Proof. sweep_with ls_special ls_leaf. Qed.

Lemma listen_remove_other (h' : Handler) :
  h_id h' ≠ h_id h -> preserves L (remove_from_current h').
Proof.
  intros Hne. unfold remove_from_current, removeEventListener.
  apply preserves_bind; [apply preserves_gets | intros [s' |]]; [| apply preserves_ret].
  apply listen_update_socket; [now intros | | ].
  - intros k Hin. cbn. apply list_elem_of_filter. split; [congruence | exact Hin].
  - intros k Hall. cbn. now apply Forall_filter_keep.
Qed.

Lemma listen_response_handler (h' : Handler) (data : option json) :
  (is_response_to (frame_id (h_frame h')) data = true -> h_id h' ≠ h_id h) ->
  preserves L (response_handler h' data).
Proof.
  intros Hne.
  destruct (response_handler_cases h' data) as [Hskip | [Hresp Hrun]].
  - intros w Hw. now rewrite Hskip.
  - specialize (Hne Hresp).
    intros w Hw. rewrite Hrun. revert w Hw.
    fold (hoare L (log "[WebSocket] Received response" ;;;
                   remove_from_current h' ;;;
                   resolve (h_promise h') (response_value data))
            (fun _ => L) L).
    apply preserves_bind; [sweep_with ls_special ls_leaf | intros _].
    apply preserves_bind; [now apply listen_remove_other | intros _].
    sweep_with ls_special ls_leaf.
Qed.

(** The call is pending with its listener in place. *)
Abbreviation K := (fun w => tracked h t0 (fun _ => False) true w /\ L w).

Lemma waiting_onmessage (s' : nat) (data : option json) :
  is_response_to (frame_id (h_frame h)) data = false ->
  preserves K (onmessage randomUUID s' data).
Proof.
  intros Hno. unfold onmessage.
  apply preserves_bind;
    [apply preserves_and; [apply track_handleMessage | apply listen_handleMessage]
    | intros _].
  apply preserves_bind_gets. intros l.
  apply hoare_derive with (phi := Forall (own h) l /\ Forall (own_id h) l).
  { intros w [[Htr (_ & _ & Hall)] <-].
    destruct (sockets w !! s') as [k |] eqn:Hk; cbn; [| split; constructor].
    split; [exact (proj2 (tr_sockets _ _ _ _ _ Htr s' k Hk)) | exact (Hall s' k Hk)]. }
  intros [Hown Hid]. eapply hoare_strengthen; [intros w [Hw _]; exact Hw |].
  fold (preserves K (A := unit)).
  apply preserves_forEach. intros h' Hin.
  apply preserves_bind; [apply preserves_gets | intros still].
  destruct still; [| apply preserves_ret].
  apply preserves_and.
  - apply track_response_handler; [exact (proj1 (Forall_forall _ _) Hown h' Hin) |].
    intros Hresp. congruence.
  - apply listen_response_handler. intros Hresp Heq.
    rewrite (proj1 (Forall_forall _ _) Hid h' Hin Heq) in Hresp. congruence.
Qed.

(** *** The response arrives *)

Variable data : option json.
Hypothesis Hresp : is_response_to (frame_id (h_frame h)) data = true.
Hypothesis Hok : readable_ok data = true.

Abbreviation A := (answered h t0 s (response_value data)).
Abbreviation never := (fun _ : World => False).

(** One turn of the listener loop of [onmessage]. *)
Abbreviation turn := (fun h' : Handler =>
  still <- gets (fun w => bool_decide
                   (h_id h' ∈ h_id <$> from_option listeners [] (sockets w !! s))) ;;
  if still : bool then response_handler h' data else ret tt).

Lemma turn_returns (h' : Handler) (w : World) : exists a w', turn h' w = (Ret a, w').
Proof.
  unfold bind, gets. destruct (bool_decide _); [apply response_handler_returns |].
  unfold ret. eauto.
Qed.

Lemma answered_ext (v : value) (w w' : World) :
  promises w' = promises w -> timers w' = timers w -> sockets w' = sockets w ->
  answered h t0 s v w -> answered h t0 s v w'.
Proof. intros Hp Ht Hs. unfold answered. now rewrite Hp, Ht, Hs. Qed.

Lemma answered_turn (h' : Handler) : preserves A (turn h').
Proof.
  apply preserves_bind; [apply preserves_gets | intros still].
  destruct still; [| apply preserves_ret].
  destruct (response_handler_cases h' data) as [Hskip | [_ Hrun]].
  - intros w Hw. now rewrite Hskip.
  - intros w Hw. rewrite Hrun. revert w Hw.
    fold (hoare A (log "[WebSocket] Received response" ;;;
                   remove_from_current h' ;;;
                   resolve (h_promise h') (response_value data))
            (fun _ => A) A).
    apply preserves_bind; [| intros _; apply preserves_bind; [| intros _]].
    + apply preserves_modify. intros w Hw. eapply answered_ext; [ | | | exact Hw]; reflexivity.
    + unfold remove_from_current, removeEventListener, update_socket.
      apply preserves_bind; [apply preserves_gets | intros [s' |]]; [| apply preserves_ret].
      apply preserves_modify. intros w (Hp & Ht & Hgone). split; [exact Hp |].
      split; [exact Ht |]. cbn. intros k Hk.
      destruct (decide (s' = s)) as [-> | Hne].
      * rewrite lookup_alter_eq in Hk. destruct (sockets w !! s) as [k0 |] eqn:Hk0;
          [| discriminate]. cbn in Hk. injection Hk as <-. cbn.
        intros Hin. apply list_elem_of_filter in Hin as [_ Hin]. exact (Hgone k0 eq_refl Hin).
      * rewrite lookup_alter_ne in Hk by congruence. now apply Hgone.
    + apply preserves_modify. intros w (Hp & Ht & Hgone).
      destruct (promises w !! h_promise h') as [[] |] eqn:Hq;
        try (split; [exact Hp | split; [exact Ht | exact Hgone]]).
      split; [| split; [exact Ht | exact Hgone]]. cbn.
      rewrite lookup_insert_ne; [exact Hp | congruence].
Qed.

Lemma answered_loop (l : list Handler) :
  hoare A (forEach turn l) (fun _ => A) never.
Proof.
  induction l as [| h' l IH]; cbn [forEach]; [now apply hoare_ret |].
  eapply hoare_bind with (R := fun _ => A); [| intros ?; exact IH].
  apply hoare_returns; [apply turn_returns | apply answered_turn].
Qed.

Lemma waiting_turn_other (h' : Handler) :
  own h h' -> h_id h' ≠ h_id h -> preserves K (turn h').
Proof.
  intros Hown Hne.
  apply preserves_bind; [apply preserves_gets | intros still].
  destruct still; [| apply preserves_ret].
  apply preserves_and.
  - apply track_response_handler; [exact Hown |]. intros ->. congruence.
  - apply listen_response_handler. now intros _.
Qed.

Lemma waiting_turn_own : hoare K (turn h) (fun _ => A) never.
Proof.
  intros w [Htr (Hws & (k & Hk & Hopen & Hin) & Hall)].
  unfold bind at 1, gets. rewrite Hk. cbn [from_option].
  rewrite bool_decide_eq_true_2 by (apply list_elem_of_fmap; eauto).
  rewrite (response_handler_hit h data Hresp Hok).
  destruct (tr_outcome _ _ _ _ _ Htr) as [[Hp Ht] | (v & _ & [])].
  unfold log, remove_from_current, removeEventListener, update_socket, resolve, settle,
    bind, gets, modify. cbn. rewrite Hws. cbn. rewrite Hp.
  split; [apply lookup_insert_eq |]. split; [now apply Ht |]. cbn.
  intros k'. rewrite lookup_alter_eq, Hk. cbn. intros [= <-]. cbn.
  intros Hin'. apply list_elem_of_filter in Hin' as [Hne _]. now apply Hne.
Qed.

Lemma waiting_loop (l : list Handler) :
  Forall (own h) l -> Forall (own_id h) l ->
  hoare K (forEach turn l)
    (fun _ w => if bool_decide (h_id h ∈ h_id <$> l) then A w else K w) never.
Proof.
  induction l as [| h' l IH]; intros Hown Hid; cbn [forEach].
  - apply hoare_ret. intros w Hw. exact Hw.
  - apply Forall_cons in Hown as [Hown' Hown]. apply Forall_cons in Hid as [Hid' Hid].
    destruct (decide (h_id h' = h_id h)) as [Heq | Hne].
    + rewrite (Hid' Heq).
      eapply hoare_bind with (R := fun _ => A); [apply waiting_turn_own | intros ?].
      eapply hoare_weaken_post; [apply answered_loop |].
      intros ? w Hw. rewrite bool_decide_eq_true_2; [exact Hw | left].
    + eapply hoare_bind with (R := fun _ => K).
      * apply hoare_returns; [apply turn_returns | now apply waiting_turn_other].
      * intros _. eapply hoare_weaken_post; [apply IH; assumption |].
        intros ? w Hw. cbn [fmap list_fmap].
        destruct (bool_decide (h_id h ∈ h_id <$> l)) eqn:Hb.
        -- rewrite bool_decide_eq_true_2; [exact Hw |]. right.
           now apply bool_decide_eq_true in Hb.
        -- rewrite bool_decide_eq_false_2; [exact Hw |].
           apply bool_decide_eq_false in Hb. intros Hin.
           apply elem_of_cons in Hin as [Hin | Hin]; [congruence | contradiction].
Qed.

Lemma answering_onmessage : hoare K (onmessage randomUUID s data) (fun _ => A) never.
Proof.
  unfold onmessage.
  eapply hoare_bind with (R := fun _ => K).
  { apply hoare_returns; [apply handleMessage_returns |].
    apply preserves_and; [apply track_handleMessage | apply listen_handleMessage]. }
  intros _. eapply hoare_bind with
    (R := fun l w => K w /\ (Forall (own h) l /\ Forall (own_id h) l /\ h ∈ l)).
  { apply hoare_gets. intros w HK.
    pose proof HK as [Htr (Hws & (k & Hk & Hopen & Hin) & Hall)].
    split; [exact HK |]. rewrite Hk. cbn.
    split; [exact (proj2 (tr_sockets _ _ _ _ _ Htr s k Hk)) |].
    split; [exact (Hall s k Hk) | exact Hin]. }
  intros l. apply hoare_pure. intros (Hown & Hid & Hin).
  eapply hoare_weaken_post; [now apply waiting_loop |].
  intros ? w Hw. rewrite bool_decide_eq_true_2 in Hw; [exact Hw |].
  apply list_elem_of_fmap. eauto.
Qed.

End Answer.

Section Answered.

Variable randomUUID : nat -> string.
Variable ws_url_valid : json -> bool.

Abbreviation run' := (run randomUUID ws_url_valid).
Abbreviation reachable' := (reachable randomUUID ws_url_valid).
Abbreviation waiting h t0 s :=
  (fun w => tracked h t0 (fun _ => False) true w /\ listening h s w).

Lemma waiting_console (h : Handler) (t0 : Timer) (s : nat) (w : World)
    (l : list (Level * string)) :
  waiting h t0 s w -> waiting h t0 s (set_console l w).
Proof.
  intros [Htr Hl]. split; [now apply track_console |].
  eapply listen_ext; [ | | exact Hl]; reflexivity.
Qed.

Lemma waiting_step (h : Handler) (t0 : Timer) (s : nat) (e : Event) (w : World) :
  other_traffic (frame_id (h_frame h)) e ->
  waiting h t0 s w -> waiting h t0 s (step randomUUID ws_url_valid e w).
Proof.
  intros He Hw. destruct e; try now destruct He. cbn [step].
  destruct (ready s0 w) as [[] |]; try exact Hw.
  apply (hoare_top_level (waiting h t0 s)); [| intros; now apply waiting_console | exact Hw].
  now apply waiting_onmessage.
Qed.

Lemma waiting_run (h : Handler) (t0 : Timer) (s : nat) (evs : list Event) (w : World) :
  Forall (other_traffic (frame_id (h_frame h))) evs ->
  waiting h t0 s w -> waiting h t0 s (run' evs w).
Proof.
  revert w. induction evs as [| e evs IH]; intros w Hevs Hw; [exact Hw |].
  apply Forall_cons in Hevs as [He Hevs].
  cbn [run fold_left]. apply IH; [exact Hevs |]. now apply waiting_step.
Qed.

Lemma waiting_after_send (frame : RequestFrame) (w : World) (s : nat) :
  reachable' w -> open_socket w = Some s ->
  waiting (handler_of frame w) (timer_of frame w) s (snd (sendWithResponse frame w)).
Proof.
  intros Hw Hopen.
  split; [apply (tracked_after_send randomUUID ws_url_valid _ frame w s Hw Hopen) |].
  destruct (open_socket_exists w s Hopen) as (k & Hk & Hready & Hcur).
  destruct (sendWithResponse_registers frame w s k Hopen Hk)
    as (w1 & Hrun & Hp & Hs & Ht & Hf & Hpend & Hws & Hnow).
  rewrite Hrun. cbn [snd].
  destruct (reachable_ids randomUUID ws_url_valid w Hw) as [_ Hsk].
  split; [now rewrite Hws |]. split.
  - rewrite Hs, lookup_insert_eq. eexists. split; [reflexivity |]. cbn.
    split; [exact Hready |]. apply elem_of_app. right. constructor.
  - rewrite Hs. apply map_Forall_insert_2.
    + cbn. apply Forall_app. split.
      * destruct (Hsk s k Hk) as [_ Hl]. eapply Forall_impl; [exact Hl |].
        intros h' [_ Hid] Heq. cbn in Heq. lia.
      * constructor; [now intros _ | constructor].
    + eapply map_Forall_impl; [exact Hsk |]. intros s' k' [_ Hl]. cbn.
      eapply Forall_impl; [exact Hl |]. intros h' [_ Hid] Heq. cbn in Heq. lia.
Qed.

(** X27. A response frame that carries the request's id, and whose [ok]
    field can be printed in the log line, settles the call: when it arrives
    on the socket the request was sent on (after any other traffic that is
    not a response to this request), the promise is fulfilled
    with the frame's payload when [ok] is truthy and with [null] otherwise;
    the listener is removed from the socket; and the timeout is not
    cancelled, it stays scheduled. *)
Theorem response_settles_request (frame : RequestFrame) (w : World) (s : nat)
    (evs : list Event) (data : option json) :
  reachable' w ->
  open_socket w = Some s ->
  Forall (other_traffic (frame_id frame)) evs ->
  is_response_to (frame_id frame) data = true ->
  readable_ok data = true ->
  let sent := snd (sendWithResponse frame w) in
  let final := run' (evs ++ [SocketMessage s data]) sent in
  promises final !! fresh w = Some (Fulfilled (response_value data)) /\
  timer_of frame w ∈ timers final /\
  (forall k, sockets final !! s = Some k -> handler_of frame w ∉ listeners k).
Proof.
  intros Hw Hopen Hevs Hresp Hok sent final. subst sent final.
  pose proof (waiting_run (handler_of frame w) (timer_of frame w) s evs _ Hevs
                (waiting_after_send frame w s Hw Hopen)) as Hwait.
  unfold run. rewrite fold_left_app. cbn [fold_left step].
  fold (run' evs (snd (sendWithResponse frame w))).
  set (w1 := run' evs (snd (sendWithResponse frame w))) in *.
  destruct Hwait as [Htr Hl].
  pose proof Hl as (_ & (k & Hk & Hready & _) & _).
  unfold ready. rewrite Hk. cbn. rewrite Hready.
  apply (hoare_top_level (waiting (handler_of frame w) (timer_of frame w) s)
           (answered (handler_of frame w) (timer_of frame w) s (response_value data))).
  - eapply hoare_conseq;
      [apply (answering_onmessage randomUUID (handler_of frame w) (timer_of frame w) s
                data Hresp Hok) | auto | auto | now intros].
  - intros w0 l Ha. eapply answered_ext; [ | | | exact Ha]; reflexivity.
  - now split.
Qed.

End Answered.

Lemma response_settles_request_witness :
  let final := run uuid any_url
                 ([SocketMessage 1 (Some ack_frame)] ++
                  [SocketMessage 1 (Some Samples.success_r1)])
                 (snd (sendWithResponse request_r1 open_service)) in
  promises final !! fresh open_service =
    Some (Fulfilled (Some (JObj [("runId", JStr "run-1"); ("status", JStr "started")]))) /\
  timer_of request_r1 open_service ∈ timers final /\
  (forall k, sockets final !! 1 = Some k -> handler_of request_r1 open_service ∉ listeners k).
Proof.
  apply (response_settles_request uuid any_url request_r1 open_service 1
           [SocketMessage 1 (Some ack_frame)] (Some Samples.success_r1)).
  - apply open_service_reachable.
  - vm_compute. reflexivity.
  - repeat constructor.
  - reflexivity.
  - reflexivity.
Defined.


(** *** Gateway requests *)

Import Gateway.

Section GatewayOps.

Variable randomUUID : nat -> string.

Lemma request_twice (method : string) (params : value) (w : World) (s : nat) (k : Socket) :
  open_socket w = Some s -> sockets w !! s = Some k ->
  let frame := {| frame_id := randomUUID (fresh w); frame_method := method;
                  frame_params := params |} in
  let hd := {| h_id := S (S (fresh w)); h_frame := frame; h_promise := S (fresh w) |} in
  exists w',
    (n <- new_id ;;
     let frame := {| frame_id := randomUUID n; frame_method := method;
                     frame_params := params |} in
     send frame ;;;
     p <- sendWithResponse frame ;;
     ret (frame, p)) w = (Ret (frame, S (fresh w)), w') /\
    wired s k [frame; frame] hd w w'.
Proof.
  intros Hopen Hk frame hd.
  unfold send, sendWithResponse, new_promise, new_id, setTimeout, new_id, addEventListener,
    socket_send, update_socket, log, bind, gets, modify, ret.
  cbn. unfold open_socket in *. cbn. rewrite Hopen. cbn.
  destruct (ws w) as [s' |] eqn:Hws; [| discriminate]. cbn in Hopen |- *.
  destruct (sockets w !! s') as [k' |] eqn:Hk'; [| discriminate]. cbn in Hopen.
  destruct (readyState k') eqn:Hr; try discriminate. injection Hopen as ->.
  rewrite Hk in Hk'. injection Hk' as <-.
  rewrite lookup_alter_eq, Hk. cbn. rewrite Hr. cbn.
  eexists. split; [reflexivity |]. unfold wired. cbn. split; [| split].
  - rewrite !lookup_alter_eq, Hk. cbn. rewrite <- app_assoc. reflexivity.
  - apply lookup_insert_eq.
  - reflexivity.
Qed.

End GatewayOps.

Section GatewayFacts.

Variable randomUUID : nat -> string.

Lemma request_once (method : string) (params : value) (w : World) (s : nat) (k : Socket) :
  open_socket w = Some s -> sockets w !! s = Some k ->
  let frame := {| frame_id := randomUUID (fresh w); frame_method := method;
                  frame_params := params |} in
  let hd := {| h_id := S (S (fresh w)); h_frame := frame; h_promise := S (fresh w) |} in
  exists w',
    (n <- new_id ;;
     sendWithResponse {| frame_id := randomUUID n; frame_method := method;
                         frame_params := params |}) w = (Ret (S (fresh w)), w') /\
    wired s k [frame] hd w w'.
Proof.
  intros Hopen Hk frame hd.
  unfold sendWithResponse, new_promise, new_id, setTimeout, new_id, addEventListener,
    socket_send, update_socket, log, bind, gets, modify, ret.
  cbn. unfold open_socket in *. cbn. rewrite Hopen. cbn.
  eexists. split; [reflexivity |]. unfold wired. cbn. split; [| split].
  - rewrite !lookup_alter_eq, Hk. reflexivity.
  - apply lookup_insert_eq.
  - reflexivity.
Qed.

Lemma send_returns (frame : RequestFrame) (w : World) :
  exists w', send frame w = (Ret tt, w').
Proof.
  unfold send, socket_send, update_socket, log, log_error, bind, gets, modify.
  destruct (open_socket w); eauto.
Qed.

Lemma sendWithResponse_returns (frame : RequestFrame) (w : World) :
  exists p w', sendWithResponse frame w = (Ret p, w').
Proof.
  unfold sendWithResponse, new_promise, new_id, setTimeout, new_id, addEventListener,
    socket_send, update_socket, log, log_error, resolve, settle, bind, gets, modify, ret.
  match goal with |- context [open_socket ?w0] => destruct (open_socket w0) end;
    cbn; eauto.
Qed.

Lemma request_returns (frame : RequestFrame) (w : World) :
  exists p w', (send frame ;;; p <- sendWithResponse frame ;; ret (frame, p)) w =
                 (Ret (frame, p), w').
Proof.
  destruct (send_returns frame w) as (w1 & H1).
  destruct (sendWithResponse_returns frame w1) as (p & w2 & H2).
  exists p, w2. unfold bind at 1. rewrite H1. unfold bind. now rewrite H2.
Qed.

(** X28. [sendChatMessage] and [connectToGateway] put their request on the
    wire twice: on an open socket the same frame (same id) is sent once by
    [send] and once more by [sendWithResponse], with one listener, one
    pending promise and one timeout registered; [getChatHistory] sends its
    frame once. *)
Theorem gateway_request_is_sent_twice (params : value) (w : World) (s : nat) (k : Socket) :
  open_socket w = Some s -> sockets w !! s = Some k ->
  let frame method := {| frame_id := randomUUID (fresh w); frame_method := method;
                         frame_params := params |} in
  let hd method := {| h_id := S (S (fresh w)); h_frame := frame method;
                      h_promise := S (fresh w) |} in
  (exists w', sendChatMessage randomUUID params w =
                (Ret (frame "chat.send", S (fresh w)), w') /\
              wired s k [frame "chat.send"; frame "chat.send"] (hd "chat.send") w w') /\
  (exists w', connectToGateway randomUUID params w =
                (Ret (frame "connect", S (fresh w)), w') /\
              wired s k [frame "connect"; frame "connect"] (hd "connect") w w') /\
  (exists w', getChatHistory randomUUID params w = (Ret (S (fresh w)), w') /\
              wired s k [frame "chat.history"] (hd "chat.history") w w').
Proof.
  intros Hopen Hk frame hd. split; [| split].
  - apply (request_twice randomUUID "chat.send" params w s k Hopen Hk).
  - apply (request_twice randomUUID "connect" params w s k Hopen Hk).
  - apply (request_once "chat.history" params w s k Hopen Hk).
Qed.

End GatewayFacts.

Lemma gateway_request_is_sent_twice_witness :
  exists w',
    sendChatMessage uuid (Some (JObj [("message", JStr "hi")])) open_service =
      (Ret ({| frame_id := uuid 2; frame_method := "chat.send";
               frame_params := Some (JObj [("message", JStr "hi")]) |}, 3), w') /\
    (sent <$> sockets w' !! 1) =
      Some [{| frame_id := uuid 2; frame_method := "chat.send";
               frame_params := Some (JObj [("message", JStr "hi")]) |};
            {| frame_id := uuid 2; frame_method := "chat.send";
               frame_params := Some (JObj [("message", JStr "hi")]) |}].
Proof.
  assert (Hopen : open_socket open_service = Some 1) by (vm_compute; reflexivity).
  destruct (open_socket_exists open_service 1 Hopen) as (k & Hk & _).
  assert (Hsent : sent k = []).
  { assert (Hk' : sent <$> sockets open_service !! 1 = Some []) by (vm_compute; reflexivity).
    rewrite Hk in Hk'. now injection Hk'. }
  destruct (gateway_request_is_sent_twice uuid (Some (JObj [("message", JStr "hi")]))
              open_service 1 k Hopen Hk) as [(w' & Hrun & Hsock & _) _].
  exists w'. split; [exact Hrun |]. rewrite Hsock. cbn. now rewrite Hsent.
Defined.

(** *** Disconnecting, timing out and failing, on the event loop *)

Section Outstanding.

Variable randomUUID : nat -> string.
Variable ws_url_valid : json -> bool.

Abbreviation run' := (run randomUUID ws_url_valid).
Abbreviation step' := (step randomUUID ws_url_valid).
Abbreviation reachable' := (reachable randomUUID ws_url_valid).

Ltac keep_session :=
  intros w [H1 H2]; split; cbn; repeat (case_match; cbn); assumption.

(** [connect] leaves the status at "connecting", whatever becomes of the
    socket. *)
Lemma connect_session (c : bool) (url : value) :
  hoare (fun w => connected w = c) (connect ws_url_valid url)
        (fun _ => session_is c Connecting) (session_is c Connecting).
Proof.
  unfold connect.
  eapply hoare_bind with (R := fun _ w => connected w = c).
  { unfold new_promise, new_id, bind, modify, ret. intros w Hw. exact Hw. }
  intros p.
  eapply hoare_bind with (R := fun _ => session_is c Connecting);
    [| intros ?; now apply hoare_ret].
  eapply hoare_try_catch with (E' := session_is c Connecting).
  - eapply hoare_bind with (R := fun _ w => connected w = c);
      [now apply hoare_gets | intros cfg].
    eapply hoare_bind; [apply updateStatus_sets | intros ?].
    fold (preserves (session_is c Connecting) (A := unit)).
    sweep_with fail keep_session.
  - intros err. fold (preserves (session_is c Connecting) (A := unit)).
    sweep_with fail keep_session.
Qed.

(** [disconnect] on a service that holds a socket. *)
Lemma disconnect_current (w : World) (s : nat) :
  pendingRequests w = [] -> ws w = Some s ->
  exists cs l,
    disconnect w =
      (Ret tt, set_pendingRequests []
                 (set_console l (set_connectionState cs
                    (set_connected false
                       (set_ws None (set_sockets (alter closing s (sockets w)) w)))))) /\
    status cs = Disconnected.
Proof.
  intros Hp Hws. unfold disconnect. unfold bind at 1, gets at 1. rewrite Hws.
  unfold bind at 1. unfold bind at 1, socket_close, update_socket, modify at 1.
  unfold modify at 1. unfold bind at 1, modify at 1. unfold bind at 1.
  match goal with
  | |- context [updateStatus ?st ?e ?w0] =>
      destruct (updateStatus_runs st e w0) as (cs & l & Hrun & Hst)
  end.
  rewrite Hrun. unfold bind at 1, gets at 1. cbn [pendingRequests set_console
    set_connectionState set_connected set_ws set_sockets]. rewrite Hp.
  cbn. exists cs, l. split; [reflexivity | exact Hst].
Qed.

(** C3 (amended). In every reachable state, an explicit [disconnect()]
    clears the socket reference and cancels nothing: every timer scheduled
    before the call, a reconnect among them, is still scheduled after it.
    Nor is the next automatic reconnect suppressed: when the socket that
    [disconnect()] closed reports its close event, a reconnect is scheduled
    3000 ms later, as after any other close (provided no disconnect
    subscriber throws on the reason).  And whenever a reconnect timer fires,
    [connect()] is entered without any call by the caller: the status is
    "connecting" afterwards. *)
Theorem disconnect_suppresses_no_reconnect (w : World) :
  reachable' w ->
  let w1 := step' CallDisconnect w in
  (ws w1 = None /\ timers w1 = timers w) /\
  (forall s k code reason,
     ws w = Some s -> sockets w !! s = Some k -> readyState k <> CLOSED ->
     Forall (fun cb => cb_throws cb reason = false) (disconnectCallbacks w) ->
     timers (step' (SocketClose s code reason) w1) =
       (timers w ++ [{| t_id := fresh w; t_due := (now w + 3000)%N;
                        t_action := Reconnect |}])%list) /\
  (forall t, t_action t = Reconnect ->
     status (connectionState (fire ws_url_valid t w)) = Connecting).
Proof.
  intros Hw w1.
  assert (Hp : pendingRequests w = []) by now apply reachable_no_pending in Hw.
  split; [| split].
  - subst w1. cbn [step]. unfold top_level.
    destruct (disconnect_runs w Hp) as (cs & l & sk & -> & _). split; reflexivity.
  - intros s k code reason Hws Hk Hopen Hquiet.
    destruct (disconnect_current w s Hp Hws) as (cs & l & Hd & _).
    assert (Hstep : w1 = snd (disconnect w)).
    { subst w1. cbn [step]. unfold top_level. now rewrite Hd. }
    rewrite Hstep, Hd. cbn [snd step]. clear Hstep.
    unfold ready. cbn [sockets set_pendingRequests set_console set_connectionState
      set_connected set_ws set_sockets].
    rewrite lookup_alter_eq, Hk. cbn [fmap option_fmap option_map].
    assert (Hstate : readyState (closing k) = CLOSING).
    { unfold closing. destruct (readyState k) eqn:Hr; try reflexivity; try exact Hr.
      now destruct Hopen. }
    rewrite Hstate. unfold top_level, bind at 1, update_socket, modify at 1.
    match goal with
    | |- context [onclose ?c ?r ?w0] =>
        destruct (onclose_runs c r w0) as (w' & Hclose & Ht); [exact Hquiet |]
    end.
    rewrite Hclose. exact Ht.
  - intros t Haction. unfold fire. rewrite Haction. cbn [run_timer].
    set (w0 := set_now _ _).
    assert (Hp0 : pendingRequests w0 = []) by exact Hp.
    assert (H : hoare (fun w => w = w0) (reconnect ws_url_valid ;;; ret tt)
                  (fun _ => session_is false Connecting) (session_is false Connecting)).
    { unfold reconnect.
      eapply hoare_bind with (R := fun _ => session_is false Connecting);
        [| intros ?; now apply hoare_ret].
      eapply hoare_bind with (R := fun _ w => connected w = false);
        [| intros ?; apply connect_session].
      intros w2 ->. destruct (disconnect_runs w0 Hp0) as (cs & l & sk & -> & _).
      reflexivity. }
    apply (hoare_top_level (fun w => w = w0)
             (fun w => status (connectionState w) = Connecting)); [| auto | reflexivity].
    eapply hoare_conseq;
      [exact H | auto | intros ? ? [_ Hs]; exact Hs | intros ? [_ Hs]; exact Hs].
Qed.






End Outstanding.

Lemma disconnect_suppresses_no_reconnect_witness :
  let w1 := step uuid any_url CallDisconnect open_service in
  timers w1 = [] /\
  timers (step uuid any_url (SocketClose 1 1000 "") w1) =
    [{| t_id := 2; t_due := 3000; t_action := Reconnect |}].
Proof.
  intros w1.
  destruct (disconnect_suppresses_no_reconnect uuid any_url open_service
              open_service_reachable) as ((_ & Hkept) & Hclose & _).
  split; [exact Hkept |].
  assert (Hk : sockets open_service !! 1 =
               Some {| readyState := OPEN; connect_promise := 0;
                       listeners := []; sent := [] |}) by (vm_compute; reflexivity).
  assert (Hq : Forall (fun cb => cb_throws cb "" = false)
                 (disconnectCallbacks open_service)) by (vm_compute; constructor).
  exact (Hclose 1 _ 1000 "" eq_refl Hk ltac:(discriminate) Hq).
Defined.




End WSFacts.

(** ** The chat page *)

Module ChatPageFacts.
Import WS Chat ChatUI Gateway Fixtures Samples WSFacts.

Lemma remove_first_snoc {A} (f : A -> bool) (l : list A) (x : A) :
  f x = false -> remove_first f (l ++ [x]) = (remove_first f l ++ [x])%list.
Proof.
  intros Hx. induction l as [| y l IH]; cbn; [now rewrite Hx |].
  destruct (f y); [reflexivity | now rewrite IH].
Qed.

Lemma hideLoading_after_reply (content : string) (dom : ChatContainer) :
  hideLoading (addMessage "assistant" content dom) =
  addMessage "assistant" content (hideLoading dom).
Proof. unfold hideLoading, addMessage. now apply remove_first_snoc. Qed.

Lemma indicators_hideLoading (dom : ChatContainer) :
  indicators (hideLoading dom) = pred (indicators dom).
Proof.
  unfold indicators, hideLoading. induction dom as [| n dom IH]; [reflexivity |].
  cbn [remove_first]. destruct (is_loading n) eqn:Hn.
  - rewrite (filter_cons (fun n0 => is_loading n0 = true) n dom).
    destruct (decide (is_loading n = true)); [reflexivity | contradiction].
  - rewrite !(filter_cons (fun n0 => is_loading n0 = true) n).
    destruct (decide (is_loading n = true)); [congruence | exact IH].
Qed.

(** X30. What a chat event does to the page.  A "final" event with a
    message and an "error" event with an error text both remove the first
    loading indicator (one, however many are shown) and append one assistant
    message at the end: the concatenated text parts, or "Error: " followed by
    the error text; the two branches call [addMessage] and [hideLoading] in
    opposite orders with the same result.  A "final" event whose message has
    no content throws before anything is changed, and any other event
    changes nothing. *)
Theorem chat_event_updates_page (payload : ChatEvent) (dom : ChatContainer) :
  let reply text := MessageDiv "message assistant" "Assistant" text in
  (forall m parts,
     ev_state payload = "final" -> ev_message payload = Some m -> content m = Some parts ->
     on_chat_event payload dom = (Ret tt, (hideLoading dom ++ [reply (join_text parts)])%list)) /\
  (forall text,
     ev_state payload = "error" -> ev_errorMessage payload = Some text -> text <> "" ->
     on_chat_event payload dom =
       (Ret tt, (hideLoading dom ++ [reply ("Error: " ++ text)%string])%list)) /\
  (forall m,
     ev_state payload = "final" -> ev_message payload = Some m -> content m = None ->
     exists e, on_chat_event payload dom = (Thrown e, dom)) /\
  (ev_state payload <> "final" -> ev_state payload <> "error" ->
   on_chat_event payload dom = (Ret tt, dom)) /\
  indicators (hideLoading dom) = pred (indicators dom).
Proof.
  intros reply. unfold on_chat_event. repeat split.
  - intros m parts -> -> Hc. cbn. rewrite Hc.
    unfold bind, modify. cbn. now rewrite hideLoading_after_reply.
  - intros text Hst -> Hne. rewrite Hst. cbn.
    destruct (String.eqb_spec text "") as [-> | _]; [now destruct Hne |]. reflexivity.
  - intros m -> -> Hc. cbn. rewrite Hc. eexists. reflexivity.
  - intros Hf He.
    destruct (String.eqb_spec (ev_state payload) "final") as [? | _]; [contradiction |].
    destruct (String.eqb_spec (ev_state payload) "error") as [? | _]; [contradiction |].
    reflexivity.
  - apply indicators_hideLoading.
Qed.

Lemma chat_event_updates_page_witness :
  on_chat_event final_event
    [MessageDiv "message user" "You" "hello"; LoadingDiv; LoadingDiv] =
    (Ret tt, [MessageDiv "message user" "You" "hello"; LoadingDiv;
              MessageDiv "message assistant" "Assistant" "Hi, there"]).
Proof.
  destruct (chat_event_updates_page final_event
              [MessageDiv "message user" "You" "hello"; LoadingDiv; LoadingDiv])
    as [Hfinal _].
  exact (Hfinal _ _ eq_refl eq_refl eq_refl).
Defined.

Section SendMessage.

Variable randomUUID : nat -> string.
Variable trim : string -> string.
Variable ToString : json -> string.
Variable sessionKey : string.

Abbreviation send_message := (sendMessage randomUUID trim ToString sessionKey).

(** X29. [sendMessage] on the chat page.  With an empty (trimmed) input, or
    when the status is not "connected", it only logs: the page, the text
    area and the sockets are untouched.  Otherwise it clears the text area,
    appends the user's message and one loading indicator, draws the
    idempotency key and calls [sendChatMessage]; it never takes its error
    branch, so also when no socket is open the indicator stays and no error
    message is shown. *)
Theorem sendMessage_effect (pg : Page) :
  let w := service pg in
  let content := trim (input_value pg) in
  ((content = "" \/ status_connected w = false) ->
   send_message pg =
     (Ret tt, set_service (set_console (console w ++ [(LOG, "[Chat] Cannot send")]) w) pg)) /\
  (content <> "" -> status_connected w = true ->
   let w1 := set_fresh (S (fresh w))
               (set_console (console w ++ [(LOG, "[Chat] Sending message")]) w) in
   exists r w',
     sendChatMessage randomUUID (chat_params sessionKey content (randomUUID (fresh w))) w1 =
       (Ret r, w') /\
     send_message pg =
       (Ret tt, {| service := w';
                   chatContainer := (chatContainer pg ++
                                     [MessageDiv "message user" "You" content;
                                      LoadingDiv])%list;
                   input_value := ""; input_height := "auto" |})).
Proof.
  intros w content. split.
  - intros Hguard. unfold sendMessage, bind at 1, gets at 1. unfold bind at 1, gets at 1.
    fold w content.
    assert (Hc : String.eqb content "" || negb (status_connected w) = true).
    { destruct Hguard as [-> | ->]; [reflexivity | apply orb_true_r]. }
    rewrite Hc. reflexivity.
  - intros Hne Hconn w1.
    destruct (request_returns
                {| frame_id := randomUUID (fresh w1); frame_method := "chat.send";
                   frame_params := chat_params sessionKey content (randomUUID (fresh w)) |}
                (set_fresh (S (fresh w1)) w1)) as (p & w' & Hrun).
    exists ({| frame_id := randomUUID (fresh w1); frame_method := "chat.send";
               frame_params := chat_params sessionKey content (randomUUID (fresh w)) |}, p), w'.
    assert (Hsend : sendChatMessage randomUUID
                      (chat_params sessionKey content (randomUUID (fresh w))) w1 =
                    (Ret ({| frame_id := randomUUID (fresh w1); frame_method := "chat.send";
                             frame_params :=
                               chat_params sessionKey content (randomUUID (fresh w)) |}, p),
                     w')).
    { unfold sendChatMessage, bind at 1, new_id at 1. exact Hrun. }
    split; [exact Hsend |].
    unfold sendMessage, bind at 1, gets at 1. unfold bind at 1, gets at 1.
    fold w content.
    assert (Hc : String.eqb content "" || negb (status_connected w) = false).
    { rewrite Hconn. destruct (String.eqb_spec content ""); [contradiction | reflexivity]. }
    rewrite Hc.
    unfold bind at 1, in_service at 1, log at 1, modify at 1.
    unfold bind at 1, modify at 1. unfold bind at 1, modify at 1.
    unfold bind at 1, on_dom at 1, modify at 1. unfold bind at 1, on_dom at 1, modify at 1.
    unfold try_catch, bind at 1, in_service at 1, new_id at 1.
    cbn [service set_service set_chatContainer set_input_value set_input_height
         chatContainer input_value input_height].
    fold w. unfold bind at 1, in_service at 1.
    cbn [service set_service set_chatContainer set_input_value set_input_height
         chatContainer input_value input_height].
    cbn [fresh set_console]. fold w1. rewrite Hsend. unfold ret, addMessage, showLoading. cbn.
    rewrite <- app_assoc. reflexivity.
Qed.

End SendMessage.

Lemma sendMessage_effect_witness :
  exists r w',
    sendChatMessage uuid
      (chat_params "s1" "hello"
                   (uuid (fresh (service typed_page))))
      (set_fresh (S (fresh (service typed_page)))
         (set_console (console (service typed_page) ++ [(LOG, "[Chat] Sending message")])
            (service typed_page))) = (Ret r, w') /\
    sendMessage uuid no_trim no_text "s1" typed_page =
      (Ret tt, {| service := w';
                  chatContainer := [MessageDiv "message user" "You" "hello"; LoadingDiv];
                  input_value := ""; input_height := "auto" |}).
Proof.
  assert (Hconn : status_connected (service typed_page) = true) by (vm_compute; reflexivity).
  destruct (sendMessage_effect uuid no_trim no_text "s1" typed_page) as [_ Hsend].
  assert (Htyped : no_trim (input_value typed_page) <> "") by discriminate.
  destruct (Hsend Htyped Hconn) as (r & w' & Hrun & Hpage).
  exists r, w'. split; [exact Hrun | exact Hpage].
Defined.

End ChatPageFacts.
